(** * Programmatic SEO framework: uniqueness, validation and registry core

  A shallow embedding of the TypeScript sources

    - [src/lib/blog-registry.ts]            (module [BlogRegistry])
    - [src/lib/content-generator.ts]        (modules [UniquenessEngine],
                                             [ContentGenerator], [OllamaClient])
    - [content-generator-ollama.ts]         (module [OllamaContentGenerator])
    - [content-validation.ts]               (module [ContentValidation])

  Conventions of the embedding.

    - JavaScript strings are Rocq [string]s that hold the UTF-8 bytes of
      the text; the regular expression character classes are those of the
      ASCII range, and so is the case mapping, but for the two characters
      named at [Js.toLowerCase]; [Js.length] counts UTF-16 code units.
    - JavaScript numbers that hold scores are rationals ([Q]); counters,
      lengths and indices are [nat] or [Z].
    - Arrays are lists, [Set<string>] is [gset string], the
      [Map<string, Set<string>>] of used angles is a [gmap]; an object
      literal used as a table is an association list in source order, and
      [table[key]] reads an own property or, failing that, a member
      inherited from [Object.prototype] ([Js.get_property]).
    - A value that [JSON.parse] yields is a [Json.t]; what the code does
      with a value of another shape than it expects (a property of [null],
      a method that is missing) is part of the model.
    - A method that reads or writes [this] is a function in the state monad
      [State S]; a method that can throw returns a [Result]. *)

From Stdlib Require Import String Ascii List ZArith QArith Qround Qminmax Lia Lqa Bool.
From stdpp Require Import gmap strings.

Import ListNotations.
Local Open Scope string_scope.

(** ** JavaScript string primitives *)

Module Js.

Definition code (c : ascii) : nat := nat_of_ascii c.

Definition between (lo hi : nat) (c : ascii) : bool :=
  (lo <=? code c)%nat && (code c <=? hi)%nat.

Definition is_upper : ascii -> bool := between 65 90.
Definition is_lower : ascii -> bool := between 97 122.
Definition is_digit : ascii -> bool := between 48 57.

(** [\s] on the ASCII range: TAB, LF, VT, FF, CR and SPACE. *)
Definition is_space (c : ascii) : bool :=
  between 9 13 c || (code c =? 32)%nat.

Definition lower_char (c : ascii) : ascii :=
  if is_upper c then ascii_of_nat (code c + 32) else c.

Fixpoint map_chars (f : ascii -> ascii) (s : string) : string :=
  match s with
  | EmptyString => EmptyString
  | String c r => String (f c) (map_chars f r)
  end.

Fixpoint keep_chars (p : ascii -> bool) (s : string) : string :=
  match s with
  | EmptyString => EmptyString
  | String c r => if p c then String c (keep_chars p r) else keep_chars p r
  end.

(** [s.startsWith(start)] *)
Fixpoint starts_with (start s : string) : bool :=
  match start with
  | EmptyString => true
  | String a start' =>
      match s with
      | String b s' => Ascii.eqb a b && starts_with start' s'
      | EmptyString => false
      end
  end.

(** The bytes of U+212A and of U+0130. *)
Definition kelvin_sign : string := String "226" (String "132" (String "170" "")).
Definition dotted_capital_I : string := String "196" (String "176" "").

(** [s.toLowerCase()] on the UTF-8 bytes of a text. The letters of the
    ASCII range are mapped. Of the characters outside that range, the only
    two whose lower case holds a character of the ASCII range are mapped
    too: U+212A (KELVIN SIGN, bytes 226 132 170) becomes [k], and U+0130
    (capital I with a dot above, bytes 196 176) becomes [i] followed by
    U+0307 (bytes 204 135). Every other character is left as it is: it is
    outside the ASCII range before and after the mapping, so that a
    replacement that strips all but characters of the ASCII range gives the
    same text either way. *)
Fixpoint toLowerCase (s : string) : string :=
  match s with
  | EmptyString => EmptyString
  | String c r =>
      match r with
      | String c1 r1 =>
          if Ascii.eqb c "196" && Ascii.eqb c1 "176"
          then String "i" (String "204" (String "135" (toLowerCase r1)))
          else
            match r1 with
            | String c2 r2 =>
                if Ascii.eqb c "226" && Ascii.eqb c1 "132" && Ascii.eqb c2 "170"
                then String "k" (toLowerCase r2)
                else String (lower_char c) (toLowerCase r)
            | EmptyString => String (lower_char c) (toLowerCase r)
            end
      | EmptyString => String (lower_char c) EmptyString
      end
  end.

(** [s.replace(/[^...]/g, '')] where [p] is the class that is kept. *)
Definition strip_outside (p : ascii -> bool) : string -> string := keep_chars p.

(** [s.replace(/[...]/g, ' ')] where [p] is the class that is replaced. *)
Definition blank_inside (p : ascii -> bool) : string -> string :=
  map_chars (fun c => if p c then " "%char else c).

(** [hay.includes(needle)] *)
Fixpoint includes (hay needle : string) : bool :=
  String.prefix needle hay ||
  match hay with
  | EmptyString => false
  | String _ r => includes r needle
  end.

(** [s.length] counts UTF-16 code units. A [string] holds the UTF-8
    encoding of the text: a character of one, two or three bytes is one
    unit, a character of four bytes is two, and the bytes that continue a
    character count nothing. *)
Definition units (c : ascii) : nat :=
  if (code c <? 128)%nat then 1
  else if (code c <? 192)%nat then 0
  else if (code c <? 240)%nat then 1
  else 2.

Fixpoint length (s : string) : nat :=
  match s with
  | EmptyString => 0
  | String c r => units c + length r
  end.

(** [s.substring(0, n)] *)
Definition substring0 (n : nat) (s : string) : string := String.substring 0 n s.

(** [s.slice(n)] for [0 <= n] *)
Fixpoint drop_chars (n : nat) (s : string) : string :=
  match n, s with
  | O, _ => s
  | S _, EmptyString => EmptyString
  | S k, String _ r => drop_chars k r
  end.

(** [parts.join(sep)] *)
Fixpoint join (sep : string) (parts : list string) : string :=
  match parts with
  | [] => ""
  | [p] => p
  | p :: rest => p ++ sep ++ join sep rest
  end.

(** [s.split(/\s+/)]: the pieces between maximal runs of white space; a
    leading or trailing run leaves an empty piece, as in JavaScript. *)
Fixpoint split_ws_aux (cur : string) (in_gap : bool) (s : string) : list string :=
  match s with
  | EmptyString => [cur]
  | String c r =>
      if is_space c
      then if in_gap then split_ws_aux "" true r
           else cur :: split_ws_aux "" true r
      else split_ws_aux (cur ++ String c "") false r
  end.

Definition split_ws (s : string) : list string := split_ws_aux "" false s.

(** [s.trim()] *)
Fixpoint trim_start (s : string) : string :=
  match s with
  | String c r => if is_space c then trim_start r else s
  | EmptyString => EmptyString
  end.

Fixpoint trim_end (s : string) : string :=
  match s with
  | EmptyString => EmptyString
  | String c r =>
      match trim_end r with
      | EmptyString => if is_space c then EmptyString else String c EmptyString
      | r' => String c r'
      end
  end.

Definition trim (s : string) : string := trim_end (trim_start s).

(** [arr.slice(-n)] *)
Definition slice_last {A} (n : nat) (l : list A) : list A :=
  drop (List.length l - n) l.

(** [arr.slice(i, j)] for [0 <= i <= j] *)
Definition slice {A} (i j : nat) (l : list A) : list A :=
  take (j - i) (drop i l).

(** [arr.includes(x)] on an array of strings *)
Definition arr_includes (l : list string) (x : string) : bool :=
  bool_decide (x ∈ l).

(** The property names that every object literal inherits from
    [Object.prototype]. Each reads a function, ["__proto__"] reads the
    prototype object: a truthy value that is not iterable and has no
    [slice] method. *)
Definition Object_prototype_names : list string :=
  ["constructor"; "__defineGetter__"; "__defineSetter__"; "hasOwnProperty";
   "__lookupGetter__"; "__lookupSetter__"; "isPrototypeOf";
   "propertyIsEnumerable"; "toString"; "valueOf"; "__proto__";
   "toLocaleString"].

(** What [table[key]] reads from an object literal. *)
Inductive Property (A : Type) : Type :=
| own (value : A)
| inherited
| undefined.
Arguments own {A} value.
Arguments inherited {A}.
Arguments undefined {A}.

Fixpoint own_property {A} (table : list (string * A)) (key : string) : option A :=
  match table with
  | [] => None
  | (k, v) :: rest => if String.eqb k key then Some v else own_property rest key
  end.

(** [table[key]]: the own property, else the inherited member, else
    [undefined]. *)
Definition get_property {A} (table : list (string * A)) (key : string) : Property A :=
  match own_property table key with
  | Some v => own v
  | None => if arr_includes Object_prototype_names key then inherited else undefined
  end.

End Js.

(** ** content-validation.ts: template rotation *)

Module ContentValidation.

Definition TEMPLATE_IDS : list string :=
  ["ATLAS"; "PERSONA"; "CATALYST"; "PLAYBOOK"; "COMPASS"; "BLUEPRINT"].

Record TemplateValidation := {
  valid : bool;
  selectedTemplate : string;
  recentHistory : list string;
  excluded : list string;
  available : list string;
  message : string
}.

Definition validateTemplateSelection
           (selected : string) (history : list string) : TemplateValidation :=
  let lastTwo := Js.slice_last 2 history in
  let excluded := lastTwo in
  let available := filter (fun t => t ∉ excluded) TEMPLATE_IDS in
  let valid := Js.arr_includes available selected in
  let message :=
    if valid then
      "✅ Template " ++ selected ++ " is valid (excluded: " ++ Js.join ", " excluded ++ ")"
    else if Js.arr_includes excluded selected then
      "❌ Template " ++ selected ++ " was used recently! Use one of: "
      ++ Js.join ", " available
    else
      "❌ Invalid template " ++ selected ++ ". Valid templates: "
      ++ Js.join ", " TEMPLATE_IDS in
  {| valid := valid;
     selectedTemplate := selected;
     recentHistory := history;
     excluded := excluded;
     available := available;
     message := message |}.

End ContentValidation.

(** ** A state monad for methods that read or write [this] *)

Module StateM.

Definition State (S A : Type) : Type := S -> A * S.

Definition ret {S A} (a : A) : State S A := fun s => (a, s).

Definition bind {S A B} (m : State S A) (k : A -> State S B) : State S B :=
  fun s => let (a, s') := m s in k a s'.

Definition get {S} : State S S := fun s => (s, s).

Definition modify {S} (f : S -> S) : State S unit := fun s => (tt, f s).

Definition when {S} (b : bool) (m : State S unit) : State S unit :=
  if b then m else ret tt.

Definition eval {S A} (m : State S A) (s : S) : A := fst (m s).
Definition exec {S A} (m : State S A) (s : S) : S := snd (m s).

End StateM.

Declare Scope state_scope.
Delimit Scope state_scope with state.
Notation "'do' x <- m ;; k" := (StateM.bind m (fun x => k))
  (at level 10, x name, m at level 99, k at level 200) : state_scope.

(** ** Methods that throw: state and exceptions *)

Module Eff.

(** A thrown [Error]; [name] is the constructor ([Error], [SyntaxError],
    [TypeError]) and [message] its text, for the errors of the language
    itself the text that Node.js gives. *)
Record JsError := { name : string; message : string }.

Definition Error (msg : string) : JsError := {| name := "Error"; message := msg |}.
Definition SyntaxError (msg : string) : JsError :=
  {| name := "SyntaxError"; message := msg |}.
Definition TypeError (msg : string) : JsError :=
  {| name := "TypeError"; message := msg |}.

Inductive Result (A : Type) : Type :=
| Ok (a : A)
| Throw (e : JsError).
Arguments Ok {A} a.
Arguments Throw {A} e.

Definition Eff (S A : Type) : Type := S -> Result A * S.

Definition ret {S A} (a : A) : Eff S A := fun s => (Ok a, s).

Definition throw {S A} (e : JsError) : Eff S A := fun s => (Throw e, s).

Definition bind {S A B} (m : Eff S A) (k : A -> Eff S B) : Eff S B :=
  fun s => match m s with
           | (Ok a, s') => k a s'
           | (Throw e, s') => (Throw e, s')
           end.

Definition get {S} : Eff S S := fun s => (Ok s, s).

Definition modify {S} (f : S -> S) : Eff S unit := fun s => (Ok tt, f s).

(** [try { m } catch { h }] *)
Definition try_catch {S A} (m : Eff S A) (h : Eff S A) : Eff S A :=
  fun s => match m s with
           | (Ok a, s') => (Ok a, s')
           | (Throw _, s') => h s'
           end.

Definition of_result {S A} (r : Result A) : Eff S A := fun s => (r, s).

(** A method that does not throw, called from one that can. *)
Definition lift {S A} (m : S -> A * S) : Eff S A :=
  fun s => let (a, s') := m s in (Ok a, s').

(** Sequencing of two results, without a state. *)
Definition and_then {A B} (r : Result A) (k : A -> Result B) : Result B :=
  match r with
  | Ok a => k a
  | Throw e => Throw e
  end.

End Eff.

Declare Scope eff_scope.
Delimit Scope eff_scope with eff.
Notation "'do' x <- m ;; k" := (Eff.bind m (fun x => k))
  (at level 10, x name, m at level 99, k at level 200) : eff_scope.

(** ** The values that [JSON.parse] yields *)

Module Json.
Import Eff.

(** A number: a finite one, or the infinity of a literal beyond the range
    of the doubles. *)
Inductive Number :=
| finite (q : Q)
| infinite (negative : bool).

(** A parsed value; an object lists its properties, each name once. No
    induction over values is needed. *)
Unset Elimination Schemes.
Inductive t :=
| null
| boolean (b : bool)
| number (x : Number)
| text (s : string)
| array (items : list t)
| object (fields : list (string * t)).
Set Elimination Schemes.

(** [!!v] *)
Definition truthy (v : t) : bool :=
  match v with
  | null => false
  | boolean b => b
  | number (finite q) => negb (Qeq_bool q 0)
  | number (infinite _) => true
  | text s => negb (String.eqb s "")
  | array _ => true
  | object _ => true
  end.

(** [v.name] for a name that no prototype defines, such as [content]: the
    property of an object, [undefined] ([None]) for every other value but
    [null], of which no property can be read. *)
Definition field (name : string) (v : t) : Result (option t) :=
  match v with
  | null =>
      Throw (TypeError ("Cannot read properties of null (reading '" ++ name ++ "')"))
  | object fields => Ok (Js.own_property fields name)
  | _ => Ok None
  end.

(** [v.length] for a truthy value: the units of a string, the number of
    items of an array, the property of that name of an object, and
    [undefined] for a number or a boolean. *)
Definition length_of (v : t) : option t :=
  match v with
  | text s => Some (number (finite (inject_Z (Z.of_nat (Js.length s)))))
  | array items => Some (number (finite (inject_Z (Z.of_nat (List.length items)))))
  | object fields => Js.own_property fields "length"
  | _ => None
  end.

Section Comparison.

(** [w < n] for a string, an array or an object [w]: the comparison
    converts such a value to a number first, which is not modelled. *)
Variable coerced_below : t -> nat -> bool.

(** [w < n] for a value that may be [undefined]: [undefined] becomes
    [NaN], [null] and [false] become 0, [true] becomes 1. *)
Definition below (w : option t) (n : nat) : bool :=
  match w with
  | None => false
  | Some null => (0 <? n)%nat
  | Some (boolean b) => ((if b then 1 else 0) <? n)%nat
  | Some (number (finite q)) => negb (Qle_bool (inject_Z (Z.of_nat n)) q)
  | Some (number (infinite negative)) => negative
  | Some w => coerced_below w n
  end.

(** [v.length < n] *)
Definition shorter_than (n : nat) (v : t) : bool := below (length_of v) n.

End Comparison.

(** The own properties that [{ ...v }] copies. *)
Definition spread (v : t) : list (string * t) :=
  match v with
  | object fields => fields
  | _ => []
  end.

End Json.

(** ** blog-registry.ts *)

Module BlogRegistry.
Import StateM.

(** Photos that are permanently retired. *)
Definition BLOCKED_PHOTO_IDS : list string :=
  ["photo-1560518883-ce09059eeffa"].

(** The curated catalogue, in the key order of the object literal. *)
Definition COVER_PHOTO_LIBRARY : list (string * list string) :=
  [
    ("nyc",
     ["photo-1534430480872-3498386e7856";
      "photo-1555529669-e69e7aa0ba9a";
      "photo-1496442226666-8d4d0e62e6e9";
      "photo-1499092346589-b9b6be3e94b2";
      "photo-1518391846015-55a9cc003b25";
      "photo-1543716091-a840c05249ec";
      "photo-1485871981521-5b1fd3805eee";
      "photo-1522083165195-3424ed129620";
      "photo-1480714378408-67cf0d13bc1b";
      "photo-1534270804882-6b5048b1c1fc";
      "photo-1570168007204-dfb528c6958f";
      "photo-1582407947304-fd86f028f716";
      "photo-1560520653-9e0e4c89eb11";
      "photo-1555109307-f7d9da25c244";
      "photo-1502672260266-1c1ef2d93688";
      "photo-1512917774080-9991f1c4c750";
      "photo-1600596542815-ffad4c1539a9";
      "photo-1600607687939-ce8a6c25118c";
      "photo-1600585154340-be6161a56a0c";
      "photo-1600573472550-8090b5e0745e";
      "photo-1568605114967-8130f3a36994";
      "photo-1523217582562-09d0def993a6";
      "photo-1580587771525-78b9dba3b914";
      "photo-1564013799919-ab600027ffc6"]);
    ("brooklyn",
     ["photo-1558981403-c5f9899a28bc";
      "photo-1555992336-03a23f37e571";
      "photo-1580137197581-df2bb346a786";
      "photo-1567684014761-b65e2e59b9eb";
      "photo-1595880500386-4b33823094d0";
      "photo-1611348586804-61bf6c080437"]);
    ("manhattan",
     ["photo-1534430480872-3498386e7856";
      "photo-1555883006-0f5a0915a80f";
      "photo-1568515387631-8b650bbcdb90";
      "photo-1558618666-fcd25c85cd64";
      "photo-1513635269975-59663e0ac1ad";
      "photo-1722030670436-3df19cd72050"]);
    ("queens",
     ["photo-1570168007204-dfb528c6958f";
      "photo-1583608205776-bfd35f0d9f83";
      "photo-1600047509358-9dc75507daeb";
      "photo-1600566753190-17f0baa2a6c4"]);
    ("seattle",
     ["photo-1502175353174-a7a70e73b362";
      "photo-1558452919-08ae4aca8571";
      "photo-1548248823-ce16a73b6d49";
      "photo-1515694590244-e4c8d2e5d10e";
      "photo-1416339306562-f3d12fefd36f"]);
    ("real-estate",
     ["photo-1582407947304-fd86f028f716";
      "photo-1560520653-9e0e4c89eb11";
      "photo-1560185007-c5ca9d2c014d";
      "photo-1560184897-ae75f418493e";
      "photo-1600585154340-be6161a56a0c";
      "photo-1600573472550-8090b5e0745e";
      "photo-1600566753086-00f18fb6b3ea";
      "photo-1600607687920-4e2a09cf159d";
      "photo-1605276374104-dee2a0ed3cd6"])
  ].

(** [Object.values(table).flat()] *)
Definition values_flat (table : list (string * list string)) : list string :=
  concat (map snd table).

Inductive Source := seo | usta_react.

Record PublishedBlog := {
  slug : string;
  neighborhood : string;
  borough : option string;
  city : option string;
  state : string;
  publishedAt : string;
  coverPhotoId : string;
  source : Source
}.

Record BlogRegistryData := {
  version : string;
  lastUpdated : string;
  publishedBlogs : list PublishedBlog;
  usedCoverPhotos : list string
}.

Record BlogRegistry := {
  data : BlogRegistryData;
  dirty : bool
}.

Definition with_source (src : Source) (b : PublishedBlog) : PublishedBlog :=
  {| slug := slug b; neighborhood := neighborhood b; borough := borough b;
     city := city b; state := state b; publishedAt := publishedAt b;
     coverPhotoId := coverPhotoId b; source := src |}.

(** [this.data.usedCoverPhotos.push(photoId)] *)
Definition push_usedCoverPhoto (photoId : string) (this : BlogRegistry) : BlogRegistry :=
  {| data := {| version := version (data this);
                lastUpdated := lastUpdated (data this);
                publishedBlogs := publishedBlogs (data this);
                usedCoverPhotos := usedCoverPhotos (data this) ++ [photoId] |};
     dirty := dirty this |}.

(** [this.data.publishedBlogs.push(blog)] *)
Definition push_publishedBlog (blog : PublishedBlog) (this : BlogRegistry) : BlogRegistry :=
  {| data := {| version := version (data this);
                lastUpdated := lastUpdated (data this);
                publishedBlogs := publishedBlogs (data this) ++ [blog];
                usedCoverPhotos := usedCoverPhotos (data this) |};
     dirty := dirty this |}.

(** [this.dirty = true] *)
Definition set_dirty (this : BlogRegistry) : BlogRegistry :=
  {| data := data this; dirty := true |}.

(** A non-empty string is truthy. *)
Definition truthy (s : string) : bool := negb (String.eqb s "").

(** [s.toLowerCase().replace(/[^a-z0-9]/g, '')] *)
Definition lower_alnum (s : string) : string :=
  Js.strip_outside (fun c => Js.is_lower c || Js.is_digit c) (Js.toLowerCase s).

(** [s.toLowerCase().replace(/[^a-z0-9-]/g, '')] *)
Definition lower_slug (s : string) : string :=
  Js.strip_outside
    (fun c => Js.is_lower c || Js.is_digit c || Ascii.eqb c "-")
    (Js.toLowerCase s).

(** [s.toLowerCase().replace(/[^a-z-]/g, '')] *)
Definition lower_category (s : string) : string :=
  Js.strip_outside (fun c => Js.is_lower c || Ascii.eqb c "-") (Js.toLowerCase s).

(** [x?.f() || ''] for an optional string [x]. *)
Definition opt_or_empty (f : string -> string) (x : option string) : string :=
  match x with
  | Some s => f s
  | None => ""
  end.

Local Open Scope state_scope.

(** [hasNeighborhood(neighborhood, borough?, state?)] *)
Definition hasNeighborhood (neighborhood : string) (borough state : option string)
  : State BlogRegistry bool :=
  do this <- get ;;
  let normalizedNeighborhood := lower_alnum neighborhood in
  let normalizedBorough := opt_or_empty lower_alnum borough in
  let normalizedState := opt_or_empty Js.toLowerCase state in
  ret (existsb
         (fun blog =>
            let blogNeighborhood := lower_alnum blog.(BlogRegistry.neighborhood) in
            let blogBorough := opt_or_empty lower_alnum blog.(BlogRegistry.borough) in
            let blogState := Js.toLowerCase blog.(BlogRegistry.state) in
            if negb (String.eqb blogNeighborhood normalizedNeighborhood) then false
            else if truthy normalizedBorough && truthy blogBorough
                    && negb (String.eqb blogBorough normalizedBorough) then false
            else if truthy normalizedState && truthy blogState
                    && negb (String.eqb blogState normalizedState) then false
            else true)
         (publishedBlogs (data this))).

(** [hasSlug(slug)] *)
Definition hasSlug (slug : string) : State BlogRegistry bool :=
  do this <- get ;;
  let normalizedSlug := lower_slug slug in
  ret (existsb
         (fun blog => String.eqb (lower_slug blog.(BlogRegistry.slug)) normalizedSlug)
         (publishedBlogs (data this))).

(** [isPhotoUsed(photoId)] *)
Definition isPhotoUsed (photoId : string) : State BlogRegistry bool :=
  do this <- get ;;
  ret (Js.arr_includes (usedCoverPhotos (data this)) photoId
       || Js.arr_includes BLOCKED_PHOTO_IDS photoId).

(** [isPhotoBlocked(photoId)] *)
Definition isPhotoBlocked (photoId : string) : bool :=
  Js.arr_includes BLOCKED_PHOTO_IDS photoId.

(** The template literal of the returned URL. *)
Definition photo_url (photoId : string) : string :=
  "https://images.unsplash.com/" ++ photoId ++ "?w=1200&auto=format&fit=crop".

(** The inner [for] loop of [getUniqueCoverPhoto]: [Some] is the early
    [return] of the method, [None] means the loop ran to its end. *)
Fixpoint scan_photos (used photos : list string) : option string :=
  match photos with
  | [] => None
  | photoId :: rest =>
      if Js.arr_includes BLOCKED_PHOTO_IDS photoId then scan_photos used rest
      else if negb (Js.arr_includes used photoId) then Some photoId
      else scan_photos used rest
  end.

(** [for (const photoId of photos)] on a member inherited from
    [Object.prototype]. *)
Definition not_iterable : Eff.JsError := Eff.TypeError "photos is not iterable".

(** The outer [for] loop over the categories, with
    [photos = COVER_PHOTO_LIBRARY[cat] || []]: an own property is the array
    of the bucket, [undefined] gives the empty array, and an inherited
    member is truthy, so that the inner loop is entered and throws. *)
Fixpoint scan_categories (used categories : list string)
  : Eff.Result (option string) :=
  match categories with
  | [] => Eff.Ok None
  | cat :: rest =>
      match Js.get_property COVER_PHOTO_LIBRARY cat with
      | Js.own photos =>
          match scan_photos used photos with
          | Some photoId => Eff.Ok (Some photoId)
          | None => scan_categories used rest
          end
      | Js.undefined => scan_categories used rest
      | Js.inherited => Eff.Throw not_iterable
      end
  end.

(** [`${arr[i]}`] for an integer [i]: an index outside the array reads
    [undefined]. *)
Definition index_text (arr : list string) (i : Z) : string :=
  if (i <? 0)%Z then "undefined"
  else match arr !! Z.to_nat i with
       | Some x => x
       | None => "undefined"
       end.

(** [getUniqueCoverPhoto(category = 'nyc')]. [random] is the value that
    [Math.random()] yields in this call; the warning written to the console
    is not part of the model. *)
Definition getUniqueCoverPhoto (category : option string) (random : Q)
  : Eff.Eff BlogRegistry string :=
  (do this <- Eff.get ;;
   let category := default "nyc" category in
   let normalizedCategory := lower_category category in
   let categories := [normalizedCategory; "nyc"; "real-estate"] in
   do found <- Eff.of_result (scan_categories (usedCoverPhotos (data this)) categories) ;;
   match found with
   | Some photoId => Eff.ret (photo_url photoId)
   | None =>
       let allPhotos :=
         List.filter (fun p => negb (Js.arr_includes BLOCKED_PHOTO_IDS p))
                     (values_flat COVER_PHOTO_LIBRARY) in
       let randomPhoto :=
         index_text allPhotos
                    (Qfloor (random * inject_Z (Z.of_nat (List.length allPhotos)))) in
       Eff.ret (photo_url randomPhoto)
   end)%eff.

(** [/photo-[a-zA-Z0-9_-]+/]: the character class and the leftmost match. *)
Definition photo_id_char (c : ascii) : bool :=
  Js.is_lower c || Js.is_upper c || Js.is_digit c
  || Ascii.eqb c "_" || Ascii.eqb c "-".

Fixpoint take_while (p : ascii -> bool) (s : string) : string :=
  match s with
  | EmptyString => EmptyString
  | String c r => if p c then String c (take_while p r) else EmptyString
  end.

Definition match_photo_id_here (s : string) : option string :=
  if String.prefix "photo-" s
  then let run := take_while photo_id_char (Js.drop_chars 6 s) in
       if truthy run then Some ("photo-" ++ run) else None
  else None.

Fixpoint match_photo_id (s : string) : option string :=
  match match_photo_id_here s with
  | Some m => Some m
  | None => match s with
            | EmptyString => None
            | String _ r => match_photo_id r
            end
  end.

(** [reserveCoverPhoto(photoUrl)] *)
Definition reserveCoverPhoto (photoUrl : string) : State BlogRegistry unit :=
  match match_photo_id photoUrl with
  | Some photoId =>
      do this <- get ;;
      when (negb (Js.arr_includes (usedCoverPhotos (data this)) photoId))
           (do _ <- modify (push_usedCoverPhoto photoId) ;; modify set_dirty)
  | None => ret tt
  end.

(** [registerBlog(blog)]; the [source] of the argument is overwritten, as
    the object spread of the method does. *)
Definition registerBlog (blog : PublishedBlog) : State BlogRegistry unit :=
  do _ <- when (truthy blog.(coverPhotoId))
               (do this <- get ;;
                when (negb (Js.arr_includes (usedCoverPhotos (data this))
                                            blog.(coverPhotoId)))
                     (modify (push_usedCoverPhoto blog.(coverPhotoId)))) ;;
  do known <- hasSlug blog.(slug) ;;
  do _ <- when (negb known) (modify (push_publishedBlog (with_source seo blog))) ;;
  modify set_dirty.

(** [getStats()] *)
Definition getStats : State BlogRegistry (nat * nat * Z) :=
  do this <- get ;;
  let totalPhotos := List.length (values_flat COVER_PHOTO_LIBRARY) in
  let uniquePhotosUsed := List.length (usedCoverPhotos (data this)) in
  ret (List.length (publishedBlogs (data this)),
       uniquePhotosUsed,
       (Z.of_nat totalPhotos - Z.of_nat uniquePhotosUsed)%Z).

(** [BlogRegistry.getCategoryForLocation(location)] *)
Definition getCategoryForLocation (location : string) : string :=
  let loc := Js.toLowerCase location in
  if Js.includes loc "brooklyn" then "brooklyn"
  else if Js.includes loc "manhattan" then "manhattan"
  else if Js.includes loc "queens" then "queens"
  else if Js.includes loc "seattle" || Js.includes loc "capitol hill" then "seattle"
  else if Js.includes loc "new york" || Js.includes loc "nyc" || Js.includes loc "ny"
       then "nyc"
  else "real-estate".

End BlogRegistry.

(** ** Types shared by the two generators *)

Module Types.

Inductive SearchIntent := informational | transactional | navigational | commercial.

Inductive ContentLength := short | medium | long | comprehensive.

Record DataPoint := {
  fact : string;
  source : string;
  verified : bool
}.

Record ContentBrief := {
  topic : string;
  targetKeyword : string;
  secondaryKeywords : list string;
  searchIntent : SearchIntent;
  audience : string;
  contentAngle : string;
  differentiators : list string;
  dataPoints : list DataPoint;
  uniqueInsight : string;
  contentLength : ContentLength
}.

(** The entries of [issues]; the message text is represented by the values
    that the template literal interpolates. *)
Inductive Issue :=
| TooSimilar (mostSimilarTo : string) (maxSimilarity : Q)
| MissingDataPoints (found required : nat)
| MissingUniquePhrases (found required : nat).

Record DifferentiationReport := {
  uniqueFactCount : nat;
  uniquePhrases : list string;
  angleScore : Q;
  dataScore : Q;
  insightScore : Q;
  overallScore : Q;
  passesThreshold : bool;
  issues : list Issue
}.

Record FaqItem := { question : string; answer : string }.

(** The object of the content request at the shape that the prompt asks
    for; [content] may be missing. *)
Record GeneratedData := {
  title : string;
  metaDescription : string;
  slug : string;
  content : option string;
  faqItems : list FaqItem
}.

Record Config := {
  minUniquenessScore : Q;
  minQualityScore : Q;
  minWordCount : nat;
  maxSimilarity : Q;
  requiredUniqueDataPoints : nat;
  requiredUniquePhrases : nat
}.

Definition CONFIG : Config :=
  {| minUniquenessScore := 75 # 100;
     minQualityScore := 8 # 10;
     minWordCount := 1500;
     maxSimilarity := 3 # 10;
     requiredUniqueDataPoints := 3;
     requiredUniquePhrases := 5 |}.

(** [a / b] for a count [a] and a divisor [b >= 1]. *)
Definition ratio (a b : nat) : Q := Z.of_nat a # Pos.of_nat b.

(** [a > b] on numbers *)
Definition Qgtb (a b : Q) : bool := negb (Qle_bool a b).

End Types.

(** ** content-generator.ts: the uniqueness engine *)

Module UniquenessEngine.
Import Types.

(** The state of an instance. [existingContent] is iterated, so it keeps
    the insertion order of the [Map]. *)
Record t := {
  existingContent : list (string * list string);
  usedAngles : gmap string (gset string);
  usedDataPoints : gset string
}.

Definition empty : t :=
  {| existingContent := []; usedAngles := ∅; usedDataPoints := ∅ |}.

(** [map.get(key)] on [existingContent] *)
Fixpoint content_get (m : list (string * list string)) (key : string)
  : option (list string) :=
  match m with
  | [] => None
  | (k, v) :: rest => if String.eqb k key then Some v else content_get rest key
  end.

(** [s.split(/[...]/)] for a class [p] of single separator characters. *)
Fixpoint split_on_aux (p : ascii -> bool) (cur : string) (s : string) : list string :=
  match s with
  | EmptyString => [cur]
  | String c r =>
      if p c then cur :: split_on_aux p "" r
      else split_on_aux p (cur ++ String c "") r
  end.

Definition split_on (p : ascii -> bool) (s : string) : list string :=
  split_on_aux p "" s.

(** The class [[.!?]] *)
Definition sentence_end (c : ascii) : bool :=
  Ascii.eqb c "." || Ascii.eqb c "!" || Ascii.eqb c "?".

(** The class [[#*_`\[\]()]] *)
Definition markdown_char (c : ascii) : bool :=
  Ascii.eqb c "#" || Ascii.eqb c "*" || Ascii.eqb c "_" || Ascii.eqb c "`"
  || Ascii.eqb c "[" || Ascii.eqb c "]" || Ascii.eqb c "(" || Ascii.eqb c ")".

(** [s.replace(/^---[\s\S]*?---/, '')]: a text that starts with three
    dashes loses everything up to the next three dashes, these included. *)
Definition strip_frontmatter (s : string) : string :=
  if String.prefix "---" s then
    match String.index 3 "---" s with
    | Some j => Js.drop_chars (j + 3) s
    | None => s
    end
  else s.

(** The words of [extractKeyPhrases]: [plainText.split(/\s+/).filter(w => w.length > 3)] *)
Definition key_words (content : string) : list string :=
  let plainText :=
    Js.toLowerCase (Js.blank_inside markdown_char (strip_frontmatter content)) in
  List.filter (fun w => (3 <? String.length w)%nat) (Js.split_ws plainText).

(** [extractKeyPhrases(content)]; the loop runs for [0 <= i < words.length - 4]. *)
Definition extractKeyPhrases (content : string) : list string :=
  let words := key_words content in
  map (fun i => Js.join " " (Js.slice i (i + 4) words))
      (seq 0 (List.length words - 4)).

(** The body shared by both similarity loops:
    [overlap / Math.max(newPhrases.size, 1)] *)
Definition overlap_ratio (newPhrases existingSet : gset string) : Q :=
  let overlap :=
    List.length (List.filter (fun phrase => bool_decide (phrase ∈ existingSet))
                             (elements newPhrases)) in
  ratio overlap (Nat.max (size newPhrases) 1).

(** [registerAngle(topic, angle)] *)
Definition registerAngle (topic angle : string) (this : t) : t :=
  let created :=
    match usedAngles this !! topic with
    | Some _ => usedAngles this
    | None => <[topic := ∅]> (usedAngles this)
    end in
  let added :=
    match created !! topic with
    | Some used => <[topic := used ∪ {[angle]}]> created
    | None => created
    end in
  {| existingContent := existingContent this;
     usedAngles := added;
     usedDataPoints := usedDataPoints this |}.

(** [fact.toLowerCase().replace(/[^a-z0-9]/g, '').substring(0, 100)] *)
Definition normalizeDataPoint (fact : string) : string :=
  Js.substring0 100
    (Js.strip_outside (fun c => Js.is_lower c || Js.is_digit c) (Js.toLowerCase fact)).

Definition registerDataPoint (fact : string) (this : t) : t :=
  {| existingContent := existingContent this;
     usedAngles := usedAngles this;
     usedDataPoints := usedDataPoints this ∪ {[normalizeDataPoint fact]} |}.

Definition isDataPointUnique (fact : string) (this : t) : bool :=
  negb (bool_decide (normalizeDataPoint fact ∈ usedDataPoints this)).

(** [content.toLowerCase().includes(s.toLowerCase().substring(0, n))] *)
Definition leading_in (n : nat) (content s : string) : bool :=
  Js.includes (Js.toLowerCase content) (Js.substring0 n (Js.toLowerCase s)).

(** The counting loop over [brief.dataPoints]: a fact counts when its
    first [n] characters occur in the text, case-insensitively. *)
Definition count_facts (n : nat) (content : string) (dps : list DataPoint) : nat :=
  fold_left
    (fun count dp => if leading_in n content (fact dp) then S count else count)
    dps 0%nat.

(** The angle table of content-generator.ts; it has no [navigational] key. *)
Definition CONTENT_ANGLES (intent : SearchIntent) : option (list string) :=
  match intent with
  | informational =>
      Some ["beginner-guide"; "expert-deep-dive"; "case-study"; "comparison";
            "step-by-step"; "common-mistakes"; "future-trends"; "data-analysis";
            "interview-synthesis"; "contrarian-view"]
  | transactional =>
      Some ["roi-focused"; "implementation-guide"; "feature-breakdown";
            "pricing-analysis"; "use-case-specific"]
  | commercial =>
      Some ["buyer-guide"; "alternatives-analysis"; "pros-cons"; "industry-specific"]
  | navigational => None
  end.

(** [table[intent] || table.informational] *)
Definition angles_or_informational
           (table : SearchIntent -> option (list string)) (intent : SearchIntent)
  : list string :=
  match table intent with
  | Some angles => angles
  | None => default [] (table informational)
  end.

(** The body of [getAvailableAngles] for a given angle table. *)
Definition available_in (table : SearchIntent -> option (list string))
           (topic : string) (intent : SearchIntent) (this : t) : list string :=
  let usedForTopic := default ∅ (usedAngles this !! topic) in
  let allAngles := angles_or_informational table intent in
  filter (fun angle => angle ∉ usedForTopic) allAngles.

(** [getAvailableAngles(topic, intent)] *)
Definition getAvailableAngles (topic : string) (intent : SearchIntent) (this : t)
  : list string :=
  available_in CONTENT_ANGLES topic intent this.

(** [calculateSimilarity(newContent, existingSlug)] *)
Definition calculateSimilarity (newContent existingSlug : string) (this : t) : Q :=
  match content_get (existingContent this) existingSlug with
  | None => 0%Q
  | Some existingPhrases =>
      let newPhrases : gset string := list_to_set (extractKeyPhrases newContent) in
      let existingSet : gset string := list_to_set existingPhrases in
      overlap_ratio newPhrases existingSet
  end.

(** One turn of the loop that keeps the maximum and the slug it came from. *)
Definition keep_max (acc : Q * string) (similarity : Q) (slug : string) : Q * string :=
  if Qgtb similarity (fst acc) then (similarity, slug) else acc.

(** [calculateOverallSimilarity(newContent)]: the pair is
    [{ maxSimilarity, mostSimilarTo }]. *)
Definition calculateOverallSimilarity (newContent : string) (this : t) : Q * string :=
  fold_left
    (fun acc entry =>
       let slug := fst entry in
       keep_max acc (calculateSimilarity newContent slug this) slug)
    (existingContent this) (0%Q, "").

End UniquenessEngine.

(** ** content-generator.ts: the generator that calls the remote model *)

Module ContentGenerator.
Import Types Eff.

(** The prompts sent to the client; a template literal is represented by
    the values it interpolates. *)
Inductive Prompt :=
| DifferentiatorPrompt (topic contentAngle audience keyword : string)
                       (intent : SearchIntent)
| DataPointPrompt (topic keyword : string)
| InsightPrompt (topic : string).

(** The state the methods work on: the engine owned by the instance, the
    module-level [contentFingerprints] map, and the requests that have been
    sent to the client so far. *)
Record t := {
  uniquenessEngine : UniquenessEngine.t;
  blogDir : string;
  contentFingerprints : gmap string (gset string);
  requests : list Prompt
}.

Definition with_engine (f : UniquenessEngine.t -> UniquenessEngine.t) (this : t) : t :=
  {| uniquenessEngine := f (uniquenessEngine this);
     blogDir := blogDir this;
     contentFingerprints := contentFingerprints this;
     requests := requests this |}.

Definition log_request (p : Prompt) (this : t) : t :=
  {| uniquenessEngine := uniquenessEngine this;
     blogDir := blogDir this;
     contentFingerprints := contentFingerprints this;
     requests := requests this ++ [p] |}.

Definition exhausted_message (topic : string) : string :=
  "All content angles exhausted for topic: " ++ topic
  ++ ". Consider a new topic cluster.".

Section RemoteClient.

(** [client.messages.create(...)] followed by reading the text of the
    first content block; the call can fail. *)
Variable create : Prompt -> Result string.

(** [JSON.parse] at the types at which its result is used. *)
Variable parse_differentiators : string -> option (list string).
Variable parse_dataPoints : string -> option (list DataPoint).

Local Open Scope eff_scope.

Definition ask (p : Prompt) : Eff t string :=
  do _ <- modify (log_request p) ;; of_result (create p).

Definition JSON_parse {A} (parse : string -> option A) (text : string) : Eff t A :=
  match parse text with
  | Some v => ret v
  | None => throw (SyntaxError "Unexpected token")
  end.

(** [generateBrief(topic, keyword, intent, audience)] *)
Definition generateBrief (topic keyword : string) (intent : SearchIntent)
           (audience : string) : Eff t ContentBrief :=
  do this <- get ;;
  let availableAngles :=
    UniquenessEngine.getAvailableAngles topic intent (uniquenessEngine this) in
  match availableAngles with
  | [] => throw (Error (exhausted_message topic))
  | contentAngle :: _ =>
      do diffResponse <-
        ask (DifferentiatorPrompt topic contentAngle audience keyword intent) ;;
      do differentiators <- JSON_parse parse_differentiators diffResponse ;;
      do dataResponse <- ask (DataPointPrompt topic keyword) ;;
      do dataPoints <- JSON_parse parse_dataPoints dataResponse ;;
      do uniqueInsight <- ask (InsightPrompt topic) ;;
      do _ <- modify (with_engine
                        (UniquenessEngine.registerAngle topic contentAngle)) ;;
      ret {| topic := topic;
             targetKeyword := keyword;
             secondaryKeywords := [];
             searchIntent := intent;
             audience := audience;
             contentAngle := contentAngle;
             differentiators := differentiators;
             dataPoints := dataPoints;
             uniqueInsight := uniqueInsight;
             contentLength := long |}
  end.

End RemoteClient.

(** A phrase is unique when no fingerprint phrase occurs in it. *)
Definition phrase_is_unique (fingerprints : gmap string (gset string))
           (phrase : string) : bool :=
  negb (existsb
          (fun entry =>
             existsb (fun existingPhrase => Js.includes phrase existingPhrase)
                     (elements (snd entry)))
          (map_to_list fingerprints)).

(** [evaluateDifferentiation(content, brief)] *)
Definition evaluateDifferentiation (content : string) (brief : ContentBrief)
           (this : t) : DifferentiationReport :=
  let '(maxSimilarity, mostSimilarTo) :=
    UniquenessEngine.calculateOverallSimilarity content (uniquenessEngine this) in
  let uniqueFactCount := UniquenessEngine.count_facts 50 content (dataPoints brief) in
  let contentPhrases :=
    take 10 (List.filter (fun s => (50 <? String.length s)%nat)
                         (UniquenessEngine.split_on UniquenessEngine.sentence_end
                                                    (Js.toLowerCase content))) in
  let uniquePhrases :=
    List.filter (phrase_is_unique (contentFingerprints this)) contentPhrases in
  let angleScore := (1 - maxSimilarity)%Q in
  let dataScore :=
    ratio uniqueFactCount (Nat.max (List.length (dataPoints brief)) 1) in
  let insightScore : Q :=
    if UniquenessEngine.leading_in 50 content (uniqueInsight brief)
    then 1%Q else 0%Q in
  let overallScore :=
    (angleScore * (4 # 10) + dataScore * (35 # 100) + insightScore * (25 # 100))%Q in
  let issues :=
    ((if Qgtb maxSimilarity (Types.maxSimilarity CONFIG)
      then [TooSimilar mostSimilarTo maxSimilarity] else [])
     ++ (if (uniqueFactCount <? requiredUniqueDataPoints CONFIG)%nat
         then [MissingDataPoints uniqueFactCount (requiredUniqueDataPoints CONFIG)]
         else [])
     ++ (if (List.length uniquePhrases <? requiredUniquePhrases CONFIG)%nat
         then [MissingUniquePhrases (List.length uniquePhrases)
                                    (requiredUniquePhrases CONFIG)]
         else []))%list in
  {| uniqueFactCount := uniqueFactCount;
     uniquePhrases := take 5 uniquePhrases;
     angleScore := angleScore;
     dataScore := dataScore;
     insightScore := insightScore;
     overallScore := overallScore;
     passesThreshold :=
       Qle_bool (minUniquenessScore CONFIG) overallScore
       && (List.length issues =? 0)%nat;
     issues := issues |}.

End ContentGenerator.

(** ** ollama-client.ts: the JSON extraction helper *)

Module OllamaClient.
Import Eff.

Section ExtractJSON.

Context {J : Type}.

(** [JSON.parse] at the type at which the caller reads the result. *)
Variable JSON_parse : string -> option J.

(** A match of [opener\s*([\s\S]*?)```]: the whole match and group 1. *)
Definition match_fenced (opener text : string) : option (string * option string) :=
  match String.index 0 opener text with
  | None => None
  | Some i =>
      let inside := (i + String.length opener)%nat in
      match String.index inside "```" text with
      | None => None
      | Some j =>
          Some (String.substring i (j + 3 - i) text,
                Some (Js.trim_start (String.substring inside (j - inside) text)))
      end
  end.

(** The position of the last occurrence of a character. *)
Fixpoint last_index_of (c : ascii) (s : string) : option nat :=
  match s with
  | EmptyString => None
  | String d r =>
      match last_index_of c r with
      | Some k => Some (S k)
      | None => if Ascii.eqb c d then Some 0%nat else None
      end
  end.

(** A match of [\{[\s\S]*\}]: from the first opening brace to the last
    closing brace; the pattern has no group. *)
Definition match_braces (text : string) : option (string * option string) :=
  match String.index 0 "{" text, last_index_of "}" text with
  | Some i, Some j =>
      if (i <? j)%nat then Some (String.substring i (j + 1 - i) text, None)
      else None
  | _, _ => None
  end.

Definition jsonPatterns : list (string -> option (string * option string)) :=
  [match_fenced "```json"; match_fenced "```"; match_braces].

(** [match[1] || match[0]] *)
Definition group_or_whole (m : string * option string) : string :=
  match snd m with
  | Some g => if String.eqb g "" then fst m else g
  | None => fst m
  end.

(** The loop over the patterns: [Some] is the [return] inside the loop. *)
Fixpoint try_patterns (patterns : list (string -> option (string * option string)))
         (text : string) : option J :=
  match patterns with
  | [] => None
  | pattern :: rest =>
      match pattern text with
      | Some m =>
          match JSON_parse (Js.trim (group_or_whole m)) with
          | Some v => Some v
          | None => try_patterns rest text
          end
      | None => try_patterns rest text
      end
  end.

(** [extractJSON(text)] *)
Definition extractJSON (text : string) : Result J :=
  match try_patterns jsonPatterns text with
  | Some v => Ok v
  | None =>
      match JSON_parse (Js.trim text) with
      | Some v => Ok v
      | None => Throw (Error "Could not extract valid JSON from response")
      end
  end.

End ExtractJSON.

End OllamaClient.

(** ** content-generator-ollama.ts: the generator that calls a local model *)

Module OllamaContentGenerator.
Import Types Eff.

(** The angle table of this file; it has a [navigational] entry. *)
Definition CONTENT_ANGLES (intent : SearchIntent) : option (list string) :=
  match intent with
  | navigational => Some ["getting-started"; "quick-reference"; "troubleshooting"]
  | other => UniquenessEngine.CONTENT_ANGLES other
  end.

(** [getAvailableAngles(topic, intent)] of the engine of this file. *)
Definition getAvailableAngles (topic : string) (intent : SearchIntent)
           (engine : UniquenessEngine.t) : list string :=
  UniquenessEngine.available_in CONTENT_ANGLES topic intent engine.

(** [calculateOverallSimilarity(newContent)] of the engine of this file:
    the phrase set of the new text is built once, before the loop. *)
Definition calculateOverallSimilarity (newContent : string)
           (engine : UniquenessEngine.t) : Q * string :=
  let newPhrases : gset string :=
    list_to_set (UniquenessEngine.extractKeyPhrases newContent) in
  fold_left
    (fun acc entry =>
       let '(slug, existingPhrases) := entry in
       let existingSet : gset string := list_to_set existingPhrases in
       UniquenessEngine.keep_max
         acc (UniquenessEngine.overlap_ratio newPhrases existingSet) slug)
    (UniquenessEngine.existingContent engine) (0%Q, "").

Record t := {
  uniquenessEngine : UniquenessEngine.t;
  blogDir : string;
  model : string
}.

(** What [generateContent] returns: the properties spread from the parsed
    object, and the computed ones, which replace a spread property of the
    same name. *)
Record GeneratedContent := {
  data : list (string * Json.t);
  wordCount : nat;
  uniquenessScore : Q;
  qualityScore : Q;
  contentHash : string;
  differentiationReport : DifferentiationReport;
  generatedBy : string
}.

(** [evaluateDifferentiation(content, brief)] *)
Definition evaluateDifferentiation (content : string) (brief : ContentBrief)
           (this : t) : DifferentiationReport :=
  let '(maxSimilarity, mostSimilarTo) :=
    calculateOverallSimilarity content (uniquenessEngine this) in
  let uniqueFactCount := UniquenessEngine.count_facts 30 content (dataPoints brief) in
  let contentLower := Js.toLowerCase content in
  let sentences :=
    List.filter (fun s => (50 <? String.length s)%nat)
                (UniquenessEngine.split_on UniquenessEngine.sentence_end contentLower) in
  let uniquePhrases := take 5 sentences in
  let angleScore := (1 - maxSimilarity)%Q in
  let dataScore :=
    ratio uniqueFactCount (Nat.max (List.length (dataPoints brief)) 1) in
  let insightScore : Q :=
    if UniquenessEngine.leading_in 30 content (uniqueInsight brief)
    then 1%Q else (5 # 10)%Q in
  let overallScore :=
    (angleScore * (4 # 10) + dataScore * (35 # 100) + insightScore * (25 # 100))%Q in
  let issues :=
    ((if Qgtb maxSimilarity (Types.maxSimilarity CONFIG)
      then [TooSimilar mostSimilarTo maxSimilarity] else [])
     ++ (if (uniqueFactCount <? requiredUniqueDataPoints CONFIG)%nat
         then [MissingDataPoints uniqueFactCount (requiredUniqueDataPoints CONFIG)]
         else []))%list in
  {| uniqueFactCount := uniqueFactCount;
     uniquePhrases := uniquePhrases;
     angleScore := angleScore;
     dataScore := dataScore;
     insightScore := insightScore;
     overallScore := overallScore;
     passesThreshold :=
       Qle_bool (minUniquenessScore CONFIG) overallScore
       && (List.length issues =? 0)%nat;
     issues := issues |}.

(** A line terminator, after which [^] matches under the [m] flag. *)
Definition is_line_end (c : ascii) : bool :=
  (Js.code c =? 10)%nat || (Js.code c =? 13)%nat.

(** [(s.match(/^.../gm) || []).length]: the number of line starts at which
    [here] matches. *)
Fixpoint count_line_starts (here : string -> bool) (at_start : bool) (s : string)
  : nat :=
  ((if at_start && here s then 1 else 0)
   + match s with
     | EmptyString => 0
     | String c r => count_line_starts here (is_line_end c) r
     end)%nat.

(** [[*-] ] at the current position *)
Definition bullet_here (s : string) : bool :=
  String.prefix "* " s || String.prefix "- " s.

(** [evaluateQuality(content, brief)]. The points are added as exact
    rationals. The code adds them as doubles, so that its sum can differ
    from the exact one by the rounding of at most seven additions (with
    every tier and bonus earned it is 0.9999999999999999); the bounds 0 and
    1 hold either way. *)
Definition evaluateQuality (content : string) (brief : ContentBrief) : Q :=
  let wordCount := List.length (Js.split_ws content) in
  let h2Count := count_line_starts (String.prefix "## ") true content in
  let h3Count := count_line_starts (String.prefix "### ") true content in
  let listCount := count_line_starts bullet_here true content in
  let score := 0%Q in
  let score :=
    if (2000 <=? wordCount)%nat then (score + (3 # 10))%Q
    else if (1500 <=? wordCount)%nat then (score + (2 # 10))%Q
    else if (1000 <=? wordCount)%nat then (score + (1 # 10))%Q
    else score in
  let score := if (3 <=? h2Count)%nat then (score + (2 # 10))%Q else score in
  let score := if (2 <=? h3Count)%nat then (score + (1 # 10))%Q else score in
  let score := if (3 <=? listCount)%nat then (score + (1 # 10))%Q else score in
  let score :=
    if Js.includes content (targetKeyword brief) then (score + (1 # 10))%Q else score in
  let score :=
    if Js.includes (Js.toLowerCase content) "example"
    then (score + (1 # 10))%Q else score in
  let score :=
    if Js.includes (Js.toLowerCase content) "step"
    then (score + (1 # 10))%Q else score in
  Qmin score 1.

(** [topic.toLowerCase().replace(/[^a-z0-9]+/g, '-')]: every maximal run
    of other characters becomes one dash. *)
Fixpoint dash_runs (in_run : bool) (s : string) : string :=
  match s with
  | EmptyString => EmptyString
  | String c r =>
      if Js.is_lower c || Js.is_digit c then String c (dash_runs false r)
      else if in_run then dash_runs true r
      else String "-" (dash_runs true r)
  end.

Definition too_short : JsError :=
  Error "Generated content is too short. Please try again.".

(** The first method called on the content after the guard is [replace],
    in [extractKeyPhrases]; a content that is no string has none. *)
Definition content_not_a_string : JsError :=
  TypeError "content.replace is not a function".

Section LocalClient.

(** [client.chat(...)] for the prompts built from a brief. *)
Variable chat : ContentBrief -> Result string.

(** [JSON.parse]: the value of a text that is JSON. *)
Variable JSON_parse : string -> option Json.t.

(** The comparison [w < n] for a value that is no number. *)
Variable coerced_below : Json.t -> nat -> bool.

(** The hexadecimal SHA-256 digest of a text. *)
Variable sha256_hex : string -> string.

Local Open Scope eff_scope.

(** The object built in the [catch] branch of [generateContent]. *)
Definition fallback_data (brief : ContentBrief) (response : string) : Json.t :=
  Json.object
    [("title", Json.text (topic brief ++ ": A Comprehensive Guide"));
     ("metaDescription",
      Json.text ("Learn everything about " ++ topic brief ++ ". Expert insights for "
                 ++ audience brief ++ "."));
     ("slug", Json.text (dash_runs false (Js.toLowerCase (topic brief))));
     ("content", Json.text response);
     ("faqItems", Json.array [])].

(** [!content || content.length < 500] for the value read from
    [generatedData.content]. *)
Definition content_rejected (content : option Json.t) : bool :=
  match content with
  | None => true
  | Some v => negb (Json.truthy v) || Json.shorter_than coerced_below 500 v
  end.

(** The object that [generateContent] returns for a content that is a
    string. *)
Definition built (brief : ContentBrief) (this : t) (generatedData : Json.t)
           (text : string) : GeneratedContent :=
  let differentiationReport := evaluateDifferentiation text brief this in
  let contentHash := Js.substring0 16 (sha256_hex text) in
  let wordCount := List.length (Js.split_ws text) in
  {| data := Json.spread generatedData;
     wordCount := wordCount;
     uniquenessScore := overallScore differentiationReport;
     qualityScore := evaluateQuality text brief;
     contentHash := contentHash;
     differentiationReport := differentiationReport;
     generatedBy := model this |}.

(** [generateContent(brief)] *)
Definition generateContent (brief : ContentBrief) : Eff t GeneratedContent :=
  do response <- of_result (chat brief) ;;
  do generatedData <-
    try_catch (of_result (OllamaClient.extractJSON JSON_parse response))
              (ret (fallback_data brief response)) ;;
  do content <- of_result (Json.field "content" generatedData) ;;
  if content_rejected content then throw too_short
  else
    match content with
    | Some (Json.text text) =>
        do this <- get ;;
        ret (built brief this generatedData text)
    | _ => throw content_not_a_string
    end.

End LocalClient.

End OllamaContentGenerator.

(** ** Predicates used to state the properties *)

Module Specification.
Import BlogRegistry.

(** A photo that the allocation loop passes over. *)
Definition unavailable (used : list string) (p : string) : Prop :=
  p ∈ BLOCKED_PHOTO_IDS ∨ p ∈ used.

(** The bucket of a category: the photos that the catalogue lists under
    that name, none for a name that it does not list. *)
Definition bucket (category : string) : list string :=
  concat (map snd (List.filter (fun entry => String.eqb category (fst entry))
                               COVER_PHOTO_LIBRARY)).

(** The photos of the priority chain of a category hint, in the order in
    which they are tried: the bucket of the hint, then ["nyc"], then
    ["real-estate"]. *)
Definition priority_chain (category : option string) : list string :=
  (bucket (lower_category (default "nyc" category))
   ++ bucket "nyc" ++ bucket "real-estate")%list.

(** [p] is the first entry of [chain] that is neither blocked nor used. *)
Definition first_available (used chain : list string) (p : string) : Prop :=
  ∃ before after,
    chain = (before ++ p :: after)%list
    ∧ (p ∉ BLOCKED_PHOTO_IDS) ∧ (p ∉ used)
    ∧ Forall (unavailable used) before.

(** Some entry of [chain] is neither blocked nor used. *)
Definition some_available (used chain : list string) : Prop :=
  ∃ q, q ∈ chain ∧ (q ∉ used) ∧ (q ∉ BLOCKED_PHOTO_IDS).

(** The normal form of a slug as the specification words it: lower-case,
    and without the characters outside [[a-z0-9-]]. The alphabet is spelled
    out: a capital letter is kept as its small letter, a small letter, a
    digit and the dash are kept as they are. Of every other character
    nothing is kept, but for the two whose lower case begins with a small
    letter: the Kelvin sign is kept as [k] and the capital I with a dot
    above as [i]; the bytes that follow the first byte of such a character
    are outside the alphabet themselves. *)
Definition slug_alphabet : list (ascii * ascii) :=
  (combine (list_ascii_of_string "ABCDEFGHIJKLMNOPQRSTUVWXYZ")
           (list_ascii_of_string "abcdefghijklmnopqrstuvwxyz")
   ++ map (fun c => (c, c))
          (list_ascii_of_string "abcdefghijklmnopqrstuvwxyz0123456789-"))%list.

Definition kept_as (c : ascii) : option ascii :=
  match List.find (fun entry => Ascii.eqb (fst entry) c) slug_alphabet with
  | Some entry => Some (snd entry)
  | None => None
  end.

Fixpoint slug_normal_form (s : string) : string :=
  match s with
  | EmptyString => EmptyString
  | String c r =>
      match kept_as c with
      | Some c' => String c' (slug_normal_form r)
      | None =>
          if Js.starts_with Js.kelvin_sign s then String "k" (slug_normal_form r)
          else if Js.starts_with Js.dotted_capital_I s
               then String "i" (slug_normal_form r)
               else slug_normal_form r
      end
  end.

(** The location query as the specification words it: all three fields are
    lower-cased and stripped of non-alphanumerics; an omitted query field is
    no constraint, a blank stored field matches any supplied value. *)
Definition field_matches_as_specified (query : option string) (stored : string) : bool :=
  match query with
  | None => true
  | Some q =>
      String.eqb (lower_alnum stored) ""
      || String.eqb (lower_alnum stored) (lower_alnum q)
  end.

Definition hasLocation_as_specified (blogs : list PublishedBlog)
           (name : string) (qualifier region : option string) : bool :=
  existsb
    (fun blog =>
       String.eqb (lower_alnum (neighborhood blog)) (lower_alnum name)
       && field_matches_as_specified qualifier (opt_or_empty (fun s => s) (borough blog))
       && field_matches_as_specified region (state blog))
    blogs.

(** A field constraint of [hasNeighborhood]: it applies only when both the
    query value and the stored value are non-empty. *)
Definition field_compatible (query stored : string) : Prop :=
  query = "" ∨ stored = "" ∨ stored = query.

(** The value on which [generateContent] works: the one that the
    extraction yields or, when the extraction fails, the fallback object
    that holds the raw response. *)
Definition candidate (JSON_parse : string -> option Json.t)
           (brief : Types.ContentBrief) (response : string) : Json.t :=
  match OllamaClient.extractJSON JSON_parse response with
  | Eff.Ok generatedData => generatedData
  | Eff.Throw _ => OllamaContentGenerator.fallback_data brief response
  end.

(** The candidate content of a response: the [content] property of that
    value, absent when the value is no object or has no such property. *)
Definition candidate_content (JSON_parse : string -> option Json.t)
           (brief : Types.ContentBrief) (response : string) : option Json.t :=
  match candidate JSON_parse brief response with
  | Json.object fields => Js.own_property fields "content"
  | _ => None
  end.

(** A score between 0 and 1, both included. *)
Definition unit_interval (q : Q) : Prop := (0 <= q)%Q ∧ (q <= 1)%Q.

(** The angles recorded as used for a topic: [usedAngles.get(topic) || new Set()]. *)
Definition used_for (topic : string) (engine : UniquenessEngine.t) : gset string :=
  default ∅ (UniquenessEngine.usedAngles engine !! topic).

(** A sequence of [registerAngle] calls, each a pair of topic and angle. *)
Definition register_all (calls : list (string * string)) (engine : UniquenessEngine.t)
  : UniquenessEngine.t :=
  fold_left (fun e call => UniquenessEngine.registerAngle (fst call) (snd call) e)
            calls engine.


(** The two steps of [registerBlog] as functions on the registry: the photo
    step and the list step. *)
Definition reserve_photo_of (blog : PublishedBlog) (this : BlogRegistry) : BlogRegistry :=
  if truthy (coverPhotoId blog)
     && negb (Js.arr_includes (usedCoverPhotos (data this)) (coverPhotoId blog))
  then push_usedCoverPhoto (coverPhotoId blog) this
  else this.

Definition publish_if_new (blog : PublishedBlog) (this : BlogRegistry) : BlogRegistry :=
  if StateM.eval (hasSlug (slug blog)) this then this
  else push_publishedBlog (with_source seo blog) this.

End Specification.

(** ** Concrete inputs used in the examples and counterexamples *)

Module Examples.
Import StateM BlogRegistry.

(** A published blog and the registry that holds it alone. *)
Definition harlem : PublishedBlog :=
  {| slug := "harlem-manhattan-geographic-farming-guide";
     neighborhood := "Harlem";
     borough := Some "Manhattan";
     city := None;
     state := "NY";
     publishedAt := "2026-01-06";
     coverPhotoId := "photo-1555883006-0f5a0915a80f";
     source := seo |}.

Definition empty_registry : BlogRegistry :=
  {| data := {| version := "1.0.0"; lastUpdated := "";
                publishedBlogs := []; usedCoverPhotos := [] |};
     dirty := false |}.

Definition harlem_registry : BlogRegistry := exec (registerBlog harlem) empty_registry.

(** A brief with one data point and an insight of 59 characters. *)
Definition sample_brief : Types.ContentBrief :=
  {| Types.topic := "Real Estate CRM";
     Types.targetKeyword := "crm";
     Types.secondaryKeywords := [];
     Types.searchIntent := Types.informational;
     Types.audience := "agents";
     Types.contentAngle := "beginner-guide";
     Types.differentiators := [];
     Types.dataPoints :=
       [{| Types.fact := "Seventy percent of agents use a CRM daily";
           Types.source := "Industry Report 2024";
           Types.verified := false |}];
     Types.uniqueInsight := "Most agents never follow up with leads after the first week";
     Types.contentLength := Types.long |}.

(** [n] copies of a text, one after the other. *)
Fixpoint copies (n : nat) (s : string) : string :=
  match n with
  | O => ""
  | S k => s ++ copies k s
  end.

(** A text that repeats the first 32 characters of the insight, and one
    that does not mention it. *)
Definition text_with_insight_start : string :=
  "Most agents never follow up with clients at all.".

Definition text_without_insight : string :=
  "A short note on customer records.".

(** A text of more than 2000 words with four level-2 headers, three level-3
    headers and five bullet lines, which names the keyword of [sample_brief]
    and holds the words "example" and "step". *)
Definition text_with_every_bonus : string :=
  copies 4 ("## Section" ++ String "010" "")
  ++ copies 3 ("### Part" ++ String "010" "")
  ++ copies 5 ("- item" ++ String "010" "")
  ++ "For example, every step of the crm rollout. "
  ++ copies 2200 "word ".

(** A client that answers every request with the same text, and parsers
    that accept nothing. *)
Definition canned_create (p : ContentGenerator.Prompt) : Eff.Result string :=
  Eff.Ok "not json".

Definition canned_chat (brief : Types.ContentBrief) : Eff.Result string :=
  Eff.Ok "not json".

Definition parse_nothing {A} (text : string) : option A := None.

(** A client that answers [null], and a parser that knows the three
    literals of JSON. *)
Definition null_chat (brief : Types.ContentBrief) : Eff.Result string :=
  Eff.Ok "null".

Definition parse_literal (text : string) : option Json.t :=
  if String.eqb text "null" then Some Json.null
  else if String.eqb text "true" then Some (Json.boolean true)
  else if String.eqb text "false" then Some (Json.boolean false)
  else None.

(** A reply of exactly 500 characters that is no JSON, and a client that
    gives it. *)
Definition long_reply : string := copies 100 "word ".

Definition canned_long_chat (brief : Types.ContentBrief) : Eff.Result string :=
  Eff.Ok long_reply.

(** The topic "crm" with every informational angle registered. *)
Definition crm_calls : list (string * string) :=
  map (fun angle => ("crm", angle))
      (UniquenessEngine.angles_or_informational
         UniquenessEngine.CONTENT_ANGLES Types.informational).

Definition exhausted_remote : ContentGenerator.t :=
  {| ContentGenerator.uniquenessEngine :=
       Specification.register_all crm_calls UniquenessEngine.empty;
     ContentGenerator.blogDir := "content/blog";
     ContentGenerator.contentFingerprints := ∅;
     ContentGenerator.requests := [] |}.

Definition fresh_remote : ContentGenerator.t :=
  {| ContentGenerator.uniquenessEngine := UniquenessEngine.empty;
     ContentGenerator.blogDir := "content/blog";
     ContentGenerator.contentFingerprints := ∅;
     ContentGenerator.requests := [] |}.

Definition fresh_ollama : OllamaContentGenerator.t :=
  {| OllamaContentGenerator.uniquenessEngine := UniquenessEngine.empty;
     OllamaContentGenerator.blogDir := "content/blog";
     OllamaContentGenerator.model := "qwen2.5:7b-instruct" |}.

End Examples.

(** ** blog-registry.ts: the remaining queries, and sessions of operations *)

Module RegistryOps.
Import StateM BlogRegistry.

Local Open Scope state_scope.

(** [getBlockedPhotos()] *)
Definition getBlockedPhotos : list string := BLOCKED_PHOTO_IDS.

(** [getUsedPhotoIds()] *)
Definition getUsedPhotoIds : State BlogRegistry (gset string) :=
  do this <- get ;;
  ret (list_to_set (usedCoverPhotos (data this) ++ BLOCKED_PHOTO_IDS)%list).

(** [getAllPublishedSlugs()] *)
Definition getAllPublishedSlugs : State BlogRegistry (list string) :=
  do this <- get ;;
  ret (map slug (publishedBlogs (data this))).

(** [x?.toLowerCase() === y] for an optional string [x] *)
Definition opt_lower_is (x : option string) (y : string) : bool :=
  match x with
  | Some s => String.eqb (Js.toLowerCase s) y
  | None => false
  end.

(** [getPublishedNeighborhoods(borough?, state?)] *)
Definition getPublishedNeighborhoods (borough state : option string)
  : State BlogRegistry (list string) :=
  do this <- get ;;
  let normalizedBorough := opt_or_empty Js.toLowerCase borough in
  ret (map neighborhood
         (List.filter
            (fun blog =>
               if match state with
                  | Some st =>
                      truthy st
                      && negb (String.eqb (Js.toLowerCase blog.(BlogRegistry.state))
                                          (Js.toLowerCase st))
                  | None => false
                  end
               then false
               else if truthy normalizedBorough
               then
                 let hasBorough :=
                   opt_lower_is blog.(BlogRegistry.borough) normalizedBorough in
                 let slugContainsBorough :=
                   Js.includes (Js.toLowerCase blog.(slug)) normalizedBorough in
                 if negb hasBorough && negb slugContainsBorough then false else true
               else true)
            (publishedBlogs (data this)))).

(** The calls that change or read the photo and blog lists of a registry
    during a publishing session. *)
Inductive Operation :=
| Allocate (category : option string) (random : Q)
| Reserve (photoUrl : string)
| Register (blog : PublishedBlog).

(** One call of a session; a session goes on after an allocation that
    throws, the URL or the error of an allocation is not used here. *)
Definition apply_operation (op : Operation) : State BlogRegistry unit :=
  match op with
  | Allocate category random =>
      fun this => (tt, snd (getUniqueCoverPhoto category random this))
  | Reserve photoUrl => reserveCoverPhoto photoUrl
  | Register blog => registerBlog blog
  end.

Fixpoint run (ops : list Operation) : State BlogRegistry unit :=
  match ops with
  | [] => ret tt
  | op :: rest => do _ <- apply_operation op ;; run rest
  end.

(** A cover photo taken from the library and reserved at once, as the note
    on [reserveCoverPhoto] asks of its callers. *)
Definition allocate_and_reserve (category : option string) (random : Q)
  : Eff.Eff BlogRegistry string :=
  (do url <- getUniqueCoverPhoto category random ;;
   do _ <- Eff.lift (reserveCoverPhoto url) ;;
   Eff.ret url)%eff.

(** The URLs of a sequence of such steps; the sequence ends at the first
    step that throws. *)
Fixpoint allocate_all (calls : list (option string * Q))
  : Eff.Eff BlogRegistry (list string) :=
  match calls with
  | [] => Eff.ret []
  | (category, random) :: rest =>
      (do url <- allocate_and_reserve category random ;;
       do urls <- allocate_all rest ;;
       Eff.ret (url :: urls))%eff
  end.

(** No step of the sequence finds its priority chain exhausted. *)
Fixpoint never_exhausted (calls : list (option string * Q)) (this : BlogRegistry)
  : Prop :=
  match calls with
  | [] => True
  | (category, random) :: rest =>
      Specification.some_available (usedCoverPhotos (data this))
                                   (Specification.priority_chain category)
      ∧ never_exhausted rest (snd (allocate_and_reserve category random this))
  end.

(** The category hint of a step is read as the inherited member
    ['constructor']. *)
Definition reads_inherited (call : option string * Q) : Prop :=
  lower_category (default "nyc" (fst call)) = "constructor".

(** A photo id as the registry's pattern reads it: ["photo-"] and then one
    or more letters, digits, underscores or dashes. *)
Definition well_formed_photo_id (photoId : string) : Prop :=
  ∃ tail,
    photoId = "photo-" ++ tail
    ∧ tail ≠ ""
    ∧ Js.keep_chars photo_id_char tail = tail.

End RegistryOps.

(** ** blog-registry.ts: the registry rebuilt from the blog directories *)

Module RegistrySync.
Import StateM BlogRegistry.

Local Open Scope state_scope.

(** A file of a blog directory: its name as [readdirSync] lists it and its
    text as [readFileSync] reads it. *)
Record File := {
  name : string;
  text : string
}.

(** [s.endsWith(suffix)] *)
Definition ends_with (s suffix : string) : bool :=
  (String.length suffix <=? String.length s)%nat
  && String.eqb (Js.drop_chars (String.length s - String.length suffix) s) suffix.

(** [new Set(arr)] read back in insertion order: each element is kept where
    it first occurs. *)
Definition set_add (seen : list string) (x : string) : list string :=
  if Js.arr_includes seen x then seen else (seen ++ [x])%list.

Definition set_of_array (arr : list string) : list string :=
  fold_left set_add arr [].

(** [loadRegistry()]: [stored] is what the registry file parses to, [None]
    when the file is missing or does not parse. *)
Definition loadRegistry (stored : option BlogRegistryData) (now : string)
  : BlogRegistryData :=
  match stored with
  | Some registryData => registryData
  | None => {| version := "1.0.0"; lastUpdated := now;
               publishedBlogs := []; usedCoverPhotos := [] |}
  end.

(** [save()]: the value returned is the data written to the registry file. *)
Definition save (now : string) : State BlogRegistry BlogRegistryData :=
  do _ <- modify (fun this =>
                    {| data := {| version := version (data this);
                                  lastUpdated := now;
                                  publishedBlogs := publishedBlogs (data this);
                                  usedCoverPhotos := usedCoverPhotos (data this) |};
                       dirty := dirty this |}) ;;
  do this <- get ;;
  do _ <- modify (fun this => {| data := data this; dirty := false |}) ;;
  ret (data this).

Section Filesystem.

(** [extractBlogInfo(content, filename, source)], the reading of one
    markdown file, is a parameter of the scan. *)
Variable extractBlogInfo : string -> string -> Source -> option PublishedBlog.

Definition usta_file (f : string) : bool :=
  ends_with f ".md" && negb (Js.includes f "TEMPLATE") && negb (Js.includes f "README").

Definition seo_file (f : string) : bool := ends_with f ".md".

(** The body of the loop over the usta-react directory. *)
Definition scan_usta (acc : list PublishedBlog * list string) (file : File)
  : list PublishedBlog * list string :=
  let '(existingBlogs, existingPhotos) := acc in
  match extractBlogInfo (text file) (name file) usta_react with
  | Some blogInfo =>
      ((existingBlogs ++ [blogInfo])%list,
       if truthy (coverPhotoId blogInfo)
       then (existingPhotos ++ [coverPhotoId blogInfo])%list
       else existingPhotos)
  | None => acc
  end.

(** The body of the loop over the seo directory. *)
Definition scan_seo (acc : list PublishedBlog * list string) (file : File)
  : list PublishedBlog * list string :=
  let '(existingBlogs, existingPhotos) := acc in
  match extractBlogInfo (text file) (name file) seo with
  | Some blogInfo =>
      (if negb (existsb (fun b => String.eqb (slug b) (slug blogInfo)) existingBlogs)
       then (existingBlogs ++ [blogInfo])%list
       else existingBlogs,
       if truthy (coverPhotoId blogInfo)
          && negb (Js.arr_includes existingPhotos (coverPhotoId blogInfo))
       then (existingPhotos ++ [coverPhotoId blogInfo])%list
       else existingPhotos)
  | None => acc
  end.

(** A directory that does not exist is not scanned. *)
Definition listing (keep : string -> bool) (dir : option (list File)) : list File :=
  match dir with
  | Some files => List.filter (fun file => keep (name file)) files
  | None => []
  end.

(** What the two loops collect. *)
Definition scan (ustaDir seoDir : option (list File))
  : list PublishedBlog * list string :=
  fold_left scan_seo (listing seo_file seoDir)
            (fold_left scan_usta (listing usta_file ustaDir) ([], [])).

(** [syncWithFilesystem()]; [ustaDir] and [seoDir] are the two blog
    directories, [None] for one that does not exist, and [now] is the time
    stamp that [save] writes. *)
Definition syncWithFilesystem (ustaDir seoDir : option (list File)) (now : string)
  : State BlogRegistry BlogRegistryData :=
  let '(existingBlogs, existingPhotos) := scan ustaDir seoDir in
  do _ <- modify (fun this =>
                    {| data := {| version := version (data this);
                                  lastUpdated := lastUpdated (data this);
                                  publishedBlogs := existingBlogs;
                                  usedCoverPhotos := set_of_array existingPhotos |};
                       dirty := true |}) ;;
  save now.

(** [new BlogRegistry()] *)
Definition constructor (stored : option BlogRegistryData)
           (ustaDir seoDir : option (list File)) (loadedAt savedAt : string)
  : BlogRegistry :=
  exec (syncWithFilesystem ustaDir seoDir savedAt)
       {| data := loadRegistry stored loadedAt; dirty := false |}.

(** The blog records read from the files of a directory, and from the
    files that the scan looks at. *)
Fixpoint records (src : Source) (files : list File) : list PublishedBlog :=
  match files with
  | [] => []
  | file :: rest =>
      match extractBlogInfo (text file) (name file) src with
      | Some blogInfo => blogInfo :: records src rest
      | None => records src rest
      end
  end.

Definition scanned (ustaDir seoDir : option (list File)) : list PublishedBlog :=
  (records usta_react (listing usta_file ustaDir)
   ++ records seo (listing seo_file seoDir))%list.

End Filesystem.

(** A photo id is recorded by a list of blog records when it is the
    non-empty cover photo of one of them. *)
Definition recorded (infos : list PublishedBlog) (photoId : string) : Prop :=
  ∃ blogInfo, blogInfo ∈ infos ∧ coverPhotoId blogInfo = photoId ∧ photoId ≠ "".

End RegistrySync.

(** ** content-validation.ts: word count, cover photo and the whole check *)

From Stdlib Require Import DecimalString.

Module ContentChecks.

(** [`${n}`] for a count *)
Definition decimal (n : N) : string := NilEmpty.string_of_uint (N.to_uint n).

Definition MINIMUM_WORD_COUNT : N := 2000.

Module TARGET_WORD_COUNT.
Definition min : N := 2000.
Definition optimal : N := 3000.
Definition max : N := 5000.
End TARGET_WORD_COUNT.

Inductive Rating := excellent | good | acceptable | too_short.

Module WordCountValidation.
Record t := {
  valid : bool;
  wordCount : N;
  minimum : N;
  deficit : N;
  rating : Rating;
  message : string
}.
End WordCountValidation.

Module PhotoValidation.
Record t := {
  valid : bool;
  url : string;
  photoId : option string;
  message : string
}.
End PhotoValidation.

(** The optional arguments of [validateContent]. *)
Record Options := {
  templateId : option string;
  recentTemplates : option (list string);
  coverPhotoUrl : option string
}.

Module ContentValidationResult.
Record t := {
  valid : bool;
  wordCount : WordCountValidation.t;
  template : option ContentValidation.TemplateValidation;
  coverPhoto : option PhotoValidation.t;
  errors : list string;
  warnings : list string
}.
End ContentValidationResult.

(** [`${photoId}`] for [string | null] *)
Definition or_null (photoId : option string) : string := default "null" photoId.

Section Checks.

(** [countWords(content)], a chain of pattern replacements followed by a
    split on white space, and [validatePhotoUrl(url)], a request to the image
    server, are parameters. *)
Variable countWords : string -> N.
Variable validatePhotoUrl : string -> bool.

(** [validateWordCount(content)]; [deficit] is [Math.max(0, minimum - count)],
    and [count >= minimum * 0.8] is written without fractions. *)
Definition validateWordCount (content : string) : WordCountValidation.t :=
  let wordCount := countWords content in
  let deficit := (MINIMUM_WORD_COUNT - wordCount)%N in
  let valid := (MINIMUM_WORD_COUNT <=? wordCount)%N in
  let '(rating, message) :=
    if (TARGET_WORD_COUNT.optimal <=? wordCount)%N then
      (excellent,
       "✅ Excellent! " ++ decimal wordCount ++ " words (optimal range)")
    else if (MINIMUM_WORD_COUNT <=? wordCount)%N then
      (good,
       "✅ Good. " ++ decimal wordCount ++ " words meets minimum (target: "
       ++ decimal TARGET_WORD_COUNT.optimal ++ "+)")
    else if (MINIMUM_WORD_COUNT * 8 <=? wordCount * 10)%N then
      (acceptable,
       "⚠️ Close but too short: " ++ decimal wordCount ++ " words (need "
       ++ decimal deficit ++ " more)")
    else
      (too_short,
       "❌ REJECTED: " ++ decimal wordCount ++ " words is far below minimum "
       ++ decimal MINIMUM_WORD_COUNT) in
  {| WordCountValidation.valid := valid;
     WordCountValidation.wordCount := wordCount;
     WordCountValidation.minimum := MINIMUM_WORD_COUNT;
     WordCountValidation.deficit := deficit;
     WordCountValidation.rating := rating;
     WordCountValidation.message := message |}.

(** [validateCoverPhoto(photoUrl)] *)
Definition validateCoverPhoto (photoUrl : string) : PhotoValidation.t :=
  let photoId := BlogRegistry.match_photo_id photoUrl in
  if negb (BlogRegistry.truthy photoUrl) then
    {| PhotoValidation.valid := false;
       PhotoValidation.url := "";
       PhotoValidation.photoId := None;
       PhotoValidation.message := "❌ No cover photo URL provided" |}
  else
    let isValid := validatePhotoUrl photoUrl in
    {| PhotoValidation.valid := isValid;
       PhotoValidation.url := photoUrl;
       PhotoValidation.photoId := photoId;
       PhotoValidation.message :=
         if isValid
         then "✅ Cover photo " ++ or_null photoId ++ " is accessible"
         else "❌ Cover photo " ++ or_null photoId
              ++ " returns 404 - find a replacement!" |}.

(** [options?.templateId && options?.recentTemplates]: the history when both
    are given and the template id is not empty. *)
Definition template_request (options : option Options)
  : option (string * list string) :=
  match options with
  | Some o =>
      match templateId o, recentTemplates o with
      | Some id, Some recent =>
          if BlogRegistry.truthy id then Some (id, recent) else None
      | _, _ => None
      end
  | None => None
  end.

(** [options?.coverPhotoUrl] when it is given and not empty. *)
Definition photo_request (options : option Options) : option string :=
  match options with
  | Some o =>
      match coverPhotoUrl o with
      | Some photoUrl => if BlogRegistry.truthy photoUrl then Some photoUrl else None
      | None => None
      end
  | None => None
  end.

Definition rating_is_good (r : Rating) : bool :=
  match r with
  | good => true
  | _ => false
  end.

Definition expand_warning : string :=
  "Consider expanding content to " ++ decimal TARGET_WORD_COUNT.optimal
  ++ "+ words for better SEO".

(** [validateContent(content, options?)] *)
Definition validateContent (content : string) (options : option Options)
  : ContentValidationResult.t :=
  let errors : list string := [] in
  let warnings : list string := [] in
  let wordCount := validateWordCount content in
  let '(errors, warnings) :=
    if negb (WordCountValidation.valid wordCount)
    then ((errors ++ [WordCountValidation.message wordCount])%list, warnings)
    else if rating_is_good (WordCountValidation.rating wordCount)
    then (errors, (warnings ++ [expand_warning])%list)
    else (errors, warnings) in
  let template :=
    match template_request options with
    | Some (id, recent) => Some (ContentValidation.validateTemplateSelection id recent)
    | None => None
    end in
  let errors :=
    match template with
    | Some t =>
        if negb (ContentValidation.valid t)
        then (errors ++ [ContentValidation.message t])%list
        else errors
    | None => errors
    end in
  let coverPhoto :=
    match photo_request options with
    | Some photoUrl => Some (validateCoverPhoto photoUrl)
    | None => None
    end in
  let errors :=
    match coverPhoto with
    | Some p =>
        if negb (PhotoValidation.valid p)
        then (errors ++ [PhotoValidation.message p])%list
        else errors
    | None => errors
    end in
  {| ContentValidationResult.valid := (List.length errors =? 0)%nat;
     ContentValidationResult.wordCount := wordCount;
     ContentValidationResult.template := template;
     ContentValidationResult.coverPhoto := coverPhoto;
     ContentValidationResult.errors := errors;
     ContentValidationResult.warnings := warnings |}.

End Checks.

End ContentChecks.

(** ** The two generators: loading the published posts *)

Module ContentLoading.
Import UniquenessEngine.

(** [map.set(key, value)] on [existingContent]: a key that is present keeps
    its place in the iteration order and gets the new value. *)
Fixpoint content_set (m : list (string * list string)) (key : string)
         (value : list string) : list (string * list string) :=
  match m with
  | [] => [(key, value)]
  | (k, v) :: rest =>
      if String.eqb k key then (k, value) :: rest
      else (k, v) :: content_set rest key value
  end.

(** [file.replace(/\.md$/, '')] *)
Definition strip_md (file : string) : string :=
  if RegistrySync.ends_with file ".md"
  then Js.substring0 (String.length file - 3) file
  else file.

(** [s.replace(/^\d{4}-\d{2}-\d{2}-/, '')] *)
Definition strip_date (s : string) : string :=
  match s with
  | String y1 (String y2 (String y3 (String y4 (String d1
      (String m1 (String m2 (String d2
        (String a1 (String a2 (String d3 rest)))))))))) =>
      if Js.is_digit y1 && Js.is_digit y2 && Js.is_digit y3 && Js.is_digit y4
         && Ascii.eqb d1 "-" && Js.is_digit m1 && Js.is_digit m2
         && Ascii.eqb d2 "-" && Js.is_digit a1 && Js.is_digit a2
         && Ascii.eqb d3 "-"
      then rest else s
  | _ => s
  end.

(** The slug under which a file is stored. *)
Definition slug_of_file (file : string) : string := strip_date (strip_md file).

(** [readdirSync(blogDir).filter(f => f.endsWith('.md'))] *)
Definition markdown_files (files : list RegistrySync.File) : list RegistrySync.File :=
  List.filter (fun file => RegistrySync.ends_with (RegistrySync.name file) ".md") files.

(** The body of the loop of [loadExistingContent] on the engine. *)
Definition store_file (this : t) (file : RegistrySync.File) : t :=
  let slug := slug_of_file (RegistrySync.name file) in
  let phrases := extractKeyPhrases (RegistrySync.text file) in
  {| existingContent := content_set (existingContent this) slug phrases;
     usedAngles := usedAngles this;
     usedDataPoints := usedDataPoints this |}.

Module Ollama.

(** [loadExistingContent(blogDir)] of content-generator-ollama.ts; [dir] is
    [None] when the directory does not exist. *)
Definition loadExistingContent (dir : option (list RegistrySync.File)) (this : t) : t :=
  match dir with
  | None => this
  | Some files => fold_left store_file (markdown_files files) this
  end.

End Ollama.

Module Remote.
Import Eff.

(** The error with which [readdirSync] fails on a missing directory. *)
Definition no_such_directory (blogDir : string) : JsError :=
  Error ("ENOENT: no such file or directory, scandir '" ++ blogDir ++ "'").

(** The body of the loop on the generator: the engine and the module-level
    fingerprints are both written. *)
Definition store_file_and_fingerprint (this : ContentGenerator.t)
           (file : RegistrySync.File) : ContentGenerator.t :=
  let slug := slug_of_file (RegistrySync.name file) in
  let phrases := extractKeyPhrases (RegistrySync.text file) in
  {| ContentGenerator.uniquenessEngine :=
       store_file (ContentGenerator.uniquenessEngine this) file;
     ContentGenerator.blogDir := ContentGenerator.blogDir this;
     ContentGenerator.contentFingerprints :=
       <[slug := list_to_set phrases]> (ContentGenerator.contentFingerprints this);
     ContentGenerator.requests := ContentGenerator.requests this |}.

(** [loadExistingContent(blogDir)] of content-generator.ts, as
    [initialize()] calls it. *)
Definition loadExistingContent (dir : option (list RegistrySync.File))
  : Eff ContentGenerator.t unit :=
  match dir with
  | None => fun this => (Throw (no_such_directory (ContentGenerator.blogDir this)), this)
  | Some files =>
      modify (fun this => fold_left store_file_and_fingerprint (markdown_files files) this)
  end.

Definition initialize (dir : option (list RegistrySync.File))
  : Eff ContentGenerator.t unit :=
  loadExistingContent dir.

End Remote.

(** The slugs of the stored posts, in iteration order. *)
Definition stored_slugs (this : t) : list string := map fst (existingContent this).

End ContentLoading.

(** ** content-generator-ollama.ts: the brief and the regeneration loop *)

Module OllamaBrief.
Import Types Eff OllamaContentGenerator.

(** The prompts of [generateBrief]; a template literal is represented by the
    values it interpolates. *)
Inductive Prompt :=
| DiffPrompt (topic contentAngle audience keyword : string) (intent : SearchIntent)
| DataPrompt (topic keyword : string)
| InsightPrompt (topic : string).

Definition with_engine (f : UniquenessEngine.t -> UniquenessEngine.t) (this : t) : t :=
  {| uniquenessEngine := f (uniquenessEngine this);
     blogDir := blogDir this;
     model := model this |}.

Definition exhausted_message (topic : string) : string :=
  "All content angles exhausted for topic: " ++ topic.

(** The values used when a response holds no JSON. *)
Definition default_differentiators : Json.t :=
  Json.array
    (map Json.text
         ["Unique industry perspective";
          "Actionable implementation steps";
          "Real-world case study";
          "Common pitfalls to avoid";
          "Future trends analysis"]).

Definition data_point (fact source : string) : Json.t :=
  Json.object [("fact", Json.text fact); ("source", Json.text source);
               ("verified", Json.boolean false)].

Definition default_dataPoints : Json.t :=
  Json.array
    [data_point "Industry statistics show significant growth" "Industry Report 2024";
     data_point "Survey data indicates high adoption rates" "Market Research";
     data_point "Case studies demonstrate measurable ROI" "Case Study Analysis"].

(** What [value.slice(0, 5)] yields: at most the first five items of an
    array, or the first five units of a string, kept as written. *)
Inductive Sliced :=
| items (taken : list Json.t)
| leading (n : nat) (s : string).

(** [value.slice(0, 5)] for a parsed value named [name]: arrays and strings
    have the method, [null] has no properties, and every other value has
    no method of that name. *)
Definition slice5 (name : string) (value : Json.t) : Result Sliced :=
  match value with
  | Json.array l => Ok (items (Js.slice 0 5 l))
  | Json.text s => Ok (leading 5 s)
  | Json.null => Throw (TypeError "Cannot read properties of null (reading 'slice')")
  | _ => Throw (TypeError (name ++ ".slice is not a function"))
  end.

(** The object that [generateBrief] returns. Its declared type is
    [ContentBrief]; the two lists are what [slice] makes of the values that
    were parsed. *)
Module Built.
Record t := {
  topic : string;
  targetKeyword : string;
  secondaryKeywords : list string;
  searchIntent : SearchIntent;
  audience : string;
  contentAngle : string;
  differentiators : Sliced;
  dataPoints : Sliced;
  uniqueInsight : string;
  contentLength : ContentLength
}.
End Built.

Section LocalClient.

(** [client.generate(prompt)]; the call can fail. *)
Variable generate : Prompt -> Result string.

(** [JSON.parse]: the value of a text that is JSON. *)
Variable JSON_parse : string -> option Json.t.

Local Open Scope eff_scope.

(** [generateBrief(topic, keyword, intent, audience)] *)
Definition generateBrief (topic keyword : string) (intent : SearchIntent)
           (audience : string) : Eff t Built.t :=
  do this <- get ;;
  let availableAngles := getAvailableAngles topic intent (uniquenessEngine this) in
  match availableAngles with
  | [] => throw (Error (exhausted_message topic))
  | contentAngle :: _ =>
      do diffResponse <-
        of_result (generate (DiffPrompt topic contentAngle audience keyword intent)) ;;
      do differentiators <-
        try_catch (of_result (OllamaClient.extractJSON JSON_parse diffResponse))
                  (ret default_differentiators) ;;
      do dataResponse <- of_result (generate (DataPrompt topic keyword)) ;;
      do dataPoints <-
        try_catch (of_result (OllamaClient.extractJSON JSON_parse dataResponse))
                  (ret default_dataPoints) ;;
      do uniqueInsight <- of_result (generate (InsightPrompt topic)) ;;
      do _ <- modify (with_engine (UniquenessEngine.registerAngle topic contentAngle)) ;;
      do slicedDifferentiators <- of_result (slice5 "differentiators" differentiators) ;;
      do slicedDataPoints <- of_result (slice5 "dataPoints" dataPoints) ;;
      ret {| Built.topic := topic;
             Built.targetKeyword := keyword;
             Built.secondaryKeywords := [];
             Built.searchIntent := intent;
             Built.audience := audience;
             Built.contentAngle := contentAngle;
             Built.differentiators := slicedDifferentiators;
             Built.dataPoints := slicedDataPoints;
             Built.uniqueInsight := Js.substring0 500 (Js.trim uniqueInsight);
             Built.contentLength := long |}
  end.

End LocalClient.

(** The number of items or units that a slice holds at most. *)
Definition at_most (n : nat) (sliced : Sliced) : Prop :=
  match sliced with
  | items taken => (List.length taken <= n)%nat
  | leading m _ => (m <= n)%nat
  end.

(** A value with a [slice] method: an array or a string. *)
Definition sliceable (value : Json.t) : bool :=
  match value with
  | Json.array _ => true
  | Json.text _ => true
  | _ => false
  end.

(** [{ ...brief, contentAngle }] *)
Definition with_contentAngle (angle : string) (brief : ContentBrief) : ContentBrief :=
  {| topic := topic brief;
     targetKeyword := targetKeyword brief;
     secondaryKeywords := secondaryKeywords brief;
     searchIntent := searchIntent brief;
     audience := audience brief;
     contentAngle := angle;
     differentiators := differentiators brief;
     dataPoints := dataPoints brief;
     uniqueInsight := uniqueInsight brief;
     contentLength := contentLength brief |}.

(** The brief of the [attempts]-th regeneration. *)
Definition variant (brief : ContentBrief) (attempts : nat) : ContentBrief :=
  with_contentAngle
    (contentAngle brief ++ "-variant-" ++ ContentChecks.decimal (N.of_nat attempts))
    brief.

Section Regenerate.

Variable chat : ContentBrief -> Result string.
Variable JSON_parse : string -> option Json.t.
Variable coerced_below : Json.t -> nat -> bool.
Variable sha256_hex : string -> string.

Local Open Scope eff_scope.

(** The [while] loop of [regenerateIfNeeded]; [remaining] is
    [maxAttempts - attempts]. *)
Fixpoint regenerate_loop (brief : ContentBrief) (remaining attempts : nat)
         (current : GeneratedContent) : Eff t GeneratedContent :=
  match remaining with
  | O => ret current
  | S remaining' =>
      if passesThreshold (differentiationReport current) then ret current
      else
        let attempts := S attempts in
        do next <-
          generateContent chat JSON_parse coerced_below sha256_hex
                          (variant brief attempts) ;;
        regenerate_loop brief remaining' attempts next
  end.

(** [regenerateIfNeeded(content, brief, maxAttempts = 2)] *)
Definition regenerateIfNeeded (content : GeneratedContent) (brief : ContentBrief)
           (maxAttempts : nat) : Eff t GeneratedContent :=
  regenerate_loop brief maxAttempts 0 content.

End Regenerate.

End OllamaBrief.

(** ** content-generator.ts: the content request, the quality request and
    the regeneration loop *)

Module RemoteContent.
Import Types Eff.

(** The requests sent to the client by these methods; a template literal is
    represented by the values it interpolates. *)
Inductive Request :=
| ContentRequest (brief : ContentBrief)
| QualityRequest (excerpt : string) (brief : ContentBrief)
| AlternativeDataRequest (topic : string).

(** The generator together with the number of requests sent so far: the
    answer of the client may differ from one request to the next. *)
Record Session := {
  generator : ContentGenerator.t;
  calls : nat
}.

(** The object that the quality request asks for; a criterion may be
    missing. *)
Record Scores := {
  answersIntent : option Q;
  actionability : option Q;
  depth : option Q;
  accuracy : option Q;
  readability : option Q;
  uniqueness : option Q
}.

Record GeneratedContent := {
  data : GeneratedData;
  wordCount : nat;
  uniquenessScore : Q;
  qualityScore : Q;
  contentHash : string;
  differentiationReport : DifferentiationReport
}.

(** The error raised when [evaluateDifferentiation] is given [undefined]:
    the first method called on the content is [replace], in
    [extractKeyPhrases], when a post is stored, and [toLowerCase] otherwise. *)
Definition undefined_content (this : ContentGenerator.t) : JsError :=
  TypeError
    ("Cannot read properties of undefined (reading '"
     ++ match UniquenessEngine.existingContent (ContentGenerator.uniquenessEngine this) with
        | [] => "toLowerCase"
        | _ :: _ => "replace"
        end
     ++ "')").

(** [(scores[key] || 0) * weight] *)
Definition weighted (score : option Q) (weight : Q) : Q :=
  (default 0 score * weight)%Q.

(** The loop over [Object.entries(weights)]. *)
Definition totalScore (scores : Scores) : Q :=
  (0 + weighted (answersIntent scores) (25 # 100)
   + weighted (actionability scores) (2 # 10)
   + weighted (depth scores) (2 # 10)
   + weighted (accuracy scores) (15 # 100)
   + weighted (readability scores) (1 # 10)
   + weighted (uniqueness scores) (1 # 10))%Q.

Section RemoteClient.

(** [client.messages.create(...)] followed by reading the text of the first
    content block, for the request with the given number. *)
Variable create : nat -> Request -> Result string.

(** [JSON.parse] at the types at which its results are read. *)
Variable parse_content : string -> option GeneratedData.
Variable parse_scores : string -> option Scores.
Variable parse_dataPoints : string -> option (list DataPoint).

(** The hexadecimal SHA-256 digest of a text, and the text of an issue. *)
Variable sha256_hex : string -> string.
Variable issue_text : Issue -> string.

Local Open Scope eff_scope.

Definition ask (request : Request) : Eff Session string :=
  fun s => (create (calls s) request,
            {| generator := generator s; calls := S (calls s) |}).

Definition JSON_parse {A} (parse : string -> option A) (text : string)
  : Eff Session A :=
  match parse text with
  | Some v => ret v
  | None => throw (SyntaxError "Unexpected token")
  end.

(** [evaluateQuality(content, brief)] *)
Definition evaluateQuality (content : string) (brief : ContentBrief) : Eff Session Q :=
  do response <- ask (QualityRequest (Js.substring0 3000 content) brief) ;;
  do scores <- JSON_parse parse_scores response ;;
  ret (totalScore scores).

(** [generateContent(brief)] *)
Definition generateContent (brief : ContentBrief) : Eff Session GeneratedContent :=
  do response <- ask (ContentRequest brief) ;;
  do generatedData <- JSON_parse parse_content response ;;
  do this <- get ;;
  match content generatedData with
  | None => throw (undefined_content (generator this))
  | Some text =>
      let differentiationReport :=
        ContentGenerator.evaluateDifferentiation text brief (generator this) in
      let contentHash := Js.substring0 16 (sha256_hex text) in
      let wordCount := List.length (Js.split_ws text) in
      do qualityScore <- evaluateQuality text brief ;;
      ret {| data := generatedData;
             wordCount := wordCount;
             uniquenessScore := overallScore differentiationReport;
             qualityScore := qualityScore;
             contentHash := contentHash;
             differentiationReport := differentiationReport |}
  end.

(** [getAlternativeDataPoints(topic)] *)
Definition getAlternativeDataPoints (topic : string) : Eff Session (list DataPoint) :=
  do response <- ask (AlternativeDataRequest topic) ;;
  JSON_parse parse_dataPoints response.

(** The brief of a regeneration: [{ ...brief, contentAngle, dataPoints }]. *)
Definition modified (brief : ContentBrief) (attempts : nat)
           (alternatives : list DataPoint) : ContentBrief :=
  {| topic := topic brief;
     targetKeyword := targetKeyword brief;
     secondaryKeywords := secondaryKeywords brief;
     searchIntent := searchIntent brief;
     audience := audience brief;
     contentAngle :=
       contentAngle brief ++ "-v" ++ ContentChecks.decimal (N.of_nat (attempts + 1));
     differentiators := differentiators brief;
     dataPoints := alternatives;
     uniqueInsight := uniqueInsight brief;
     contentLength := contentLength brief |}.

(** The [while] loop of [regenerateIfNeeded]; [remaining] is
    [maxAttempts - attempts]. *)
Fixpoint regenerate_loop (brief : ContentBrief) (remaining attempts : nat)
         (current : GeneratedContent) : Eff Session GeneratedContent :=
  match remaining with
  | O => ret current
  | S remaining' =>
      if passesThreshold (differentiationReport current) then ret current
      else
        let attempts := S attempts in
        do alternatives <- getAlternativeDataPoints (topic brief) ;;
        do next <- generateContent (modified brief attempts alternatives) ;;
        regenerate_loop brief remaining' attempts next
  end.

Definition not_unique_enough (maxAttempts : nat) (current : GeneratedContent) : JsError :=
  Error ("Failed to generate sufficiently unique content after "
         ++ ContentChecks.decimal (N.of_nat maxAttempts) ++ " attempts. "
         ++ "Issues: "
         ++ Js.join ", " (map issue_text (issues (differentiationReport current)))).

(** [regenerateIfNeeded(content, brief, maxAttempts = 3)] *)
Definition regenerateIfNeeded (content : GeneratedContent) (brief : ContentBrief)
           (maxAttempts : nat) : Eff Session GeneratedContent :=
  do current <- regenerate_loop brief maxAttempts 0 content ;;
  if negb (passesThreshold (differentiationReport current))
  then throw (not_unique_enough maxAttempts current)
  else ret current.

End RemoteClient.

(** A step that keeps the generator and sends between [lo] and [hi] requests. *)
Definition sends {A} (lo hi : nat) (m : Eff Session A) : Prop :=
  ∀ s, generator (snd (m s)) = generator s
       ∧ (calls s + lo <= calls (snd (m s)) <= calls s + hi)%nat.

End RemoteContent.

(** ** neighborhood-photo-discovery.ts *)

Module PhotoDiscovery.
Import StateM.
Import Eff (Result, Ok, Throw).

Record NeighborhoodContext := {
  neighborhood : string;
  borough : option string;
  city : string;
  state : string;
  county : option string;
  medianPrice : option Q;
  characteristics : option (list string);
  landmarks : option (list string);
  architecture : option string;
  vibe : option string
}.

Record DiscoveredPhoto := {
  id : string;
  url : string;
  fullUrl : string;
  description : string;
  alt : string;
  photographer : string;
  photographerUrl : string;
  relevanceScore : Q;
  searchTermUsed : string
}.

(** The tables of the module, in the key order of the object literals. *)
Definition NEIGHBORHOOD_VISUAL_THEMES : list (string * list string) :=
  [("manhattan",
    ["manhattan skyline"; "new york city streets"; "central park"; "brownstone manhattan"]);
   ("brooklyn",
    ["brooklyn brownstone"; "brooklyn bridge"; "williamsburg brooklyn"; "brooklyn street"]);
   ("queens",
    ["queens new york neighborhood"; "diverse queens neighborhood"; "flushing queens"]);
   ("bronx",
    ["bronx new york"; "bronx neighborhood"; "grand concourse"]);
   ("staten island",
    ["staten island ferry"; "staten island neighborhood"]);
   ("williamsburg",
    ["williamsburg brooklyn hipster"; "williamsburg loft"; "bedford avenue brooklyn"]);
   ("park slope",
    ["park slope brownstone"; "prospect park brooklyn"; "park slope family"]);
   ("greenpoint",
    ["greenpoint brooklyn"; "mccarren park"; "polish greenpoint"]);
   ("bushwick",
    ["bushwick street art"; "bushwick brooklyn industrial"; "bushwick murals"]);
   ("bed-stuy",
    ["bedford stuyvesant brownstone"; "bed stuy brooklyn historic"]);
   ("crown heights",
    ["crown heights brooklyn"; "eastern parkway brooklyn"]);
   ("dumbo",
    ["dumbo brooklyn bridge"; "dumbo cobblestone"; "brooklyn waterfront"]);
   ("cobble hill",
    ["cobble hill brooklyn"; "cobble hill brownstone"]);
   ("carroll gardens",
    ["carroll gardens brooklyn"; "smith street brooklyn"]);
   ("fort greene",
    ["fort greene brooklyn"; "fort greene park"]);
   ("prospect heights",
    ["prospect heights brooklyn"; "barclays center brooklyn"]);
   ("bay ridge",
    ["bay ridge brooklyn"; "shore road brooklyn"; "verrazano bridge"]);
   ("astoria",
    ["astoria queens"; "steinway street"; "astoria park"]);
   ("long island city",
    ["long island city queens"; "lic skyline"; "gantry park"]);
   ("flushing",
    ["flushing queens chinatown"; "main street flushing"]);
   ("jackson heights",
    ["jackson heights queens diversity"; "roosevelt avenue jackson heights"]);
   ("forest hills",
    ["forest hills gardens"; "austin street forest hills"]);
   ("riverdale",
    ["riverdale bronx"; "wave hill"; "hudson river bronx"]);
   ("mott haven",
    ["mott haven bronx"; "south bronx waterfront"]);
   ("georgetown",
    ["georgetown dc cobblestone"; "georgetown waterfront"; "georgetown row houses"]);
   ("dupont circle",
    ["dupont circle dc"; "embassy row dc"]);
   ("capitol hill",
    ["capitol hill dc row houses"; "eastern market dc"]);
   ("adams morgan",
    ["adams morgan dc nightlife"; "18th street dc"]);
   ("u street",
    ["u street corridor dc"; "shaw dc"]);
   ("logan circle",
    ["logan circle dc victorian"; "p street dc"]);
   ("navy yard",
    ["navy yard dc"; "nationals park dc"; "anacostia waterfront"]);
   ("alexandria",
    ["old town alexandria"; "king street alexandria"; "alexandria waterfront"]);
   ("del ray",
    ["del ray alexandria"; "mount vernon avenue alexandria"]);
   ("arlington",
    ["arlington virginia"; "rosslyn skyline"; "clarendon arlington"]);
   ("bethesda",
    ["bethesda maryland downtown"; "bethesda row"]);
   ("silver spring",
    ["silver spring maryland"; "downtown silver spring"]);
   ("reston",
    ["reston town center"; "reston virginia lake"]);
   ("tysons",
    ["tysons corner virginia"; "tysons skyline"]);
   ("rittenhouse square",
    ["rittenhouse square philadelphia"; "rittenhouse park"]);
   ("fishtown",
    ["fishtown philadelphia"; "frankford avenue"; "fishtown brewery"]);
   ("society hill",
    ["society hill philadelphia cobblestone"; "historic philadelphia"]);
   ("old city",
    ["old city philadelphia"; "elfreths alley"]);
   ("northern liberties",
    ["northern liberties philadelphia"; "piazza philadelphia"]);
   ("queen village",
    ["queen village philadelphia"; "fabric row philadelphia"]);
   ("manayunk",
    ["manayunk philadelphia"; "main street manayunk"]);
   ("chestnut hill",
    ["chestnut hill philadelphia"; "germantown avenue"]);
   ("graduate hospital",
    ["graduate hospital philadelphia"; "south street philadelphia"]);
   ("fairmount",
    ["fairmount philadelphia"; "eastern state penitentiary"]);
   ("main line",
    ["main line philadelphia"; "bryn mawr"; "ardmore suburban"]);
   ("back bay",
    ["back bay boston brownstone"; "newbury street"; "commonwealth avenue"]);
   ("beacon hill",
    ["beacon hill boston"; "acorn street boston"; "boston brick sidewalk"]);
   ("south end",
    ["south end boston"; "tremont street boston"]);
   ("jamaica plain",
    ["jamaica plain boston"; "jp pond"]);
   ("charlestown",
    ["charlestown boston"; "bunker hill monument"]);
   ("cambridge",
    ["harvard square"; "cambridge massachusetts"; "mit cambridge"]);
   ("somerville",
    ["davis square somerville"; "union square somerville"]);
   ("brookline",
    ["coolidge corner brookline"; "brookline village"]);
   ("greenwich",
    ["greenwich connecticut"; "greenwich avenue"; "greenwich waterfront"]);
   ("westport",
    ["westport connecticut"; "saugatuck river"]);
   ("stamford",
    ["stamford connecticut downtown"; "stamford harbor"]);
   ("new haven",
    ["new haven connecticut"; "yale university"; "wooster square"]);
   ("darien",
    ["darien connecticut"; "noroton bay"]);
   ("luxury",
    ["luxury home exterior"; "upscale neighborhood"; "million dollar home"]);
   ("suburban",
    ["suburban neighborhood street"; "family neighborhood"; "tree lined street"]);
   ("urban",
    ["urban neighborhood"; "city street residential"; "walkable neighborhood"]);
   ("historic",
    ["historic neighborhood"; "victorian homes"; "brownstone street"]);
   ("waterfront",
    ["waterfront homes"; "harbor neighborhood"; "coastal real estate"]);
   ("modern",
    ["modern architecture homes"; "contemporary neighborhood"])].

Definition ARCHITECTURE_KEYWORDS : list (string * list string) :=
  [("brownstone",
    ["brownstone"; "brownstone stoop"; "brooklyn brownstone exterior"]);
   ("victorian",
    ["victorian house"; "victorian neighborhood"; "painted ladies"]);
   ("colonial",
    ["colonial home"; "colonial neighborhood"; "american colonial"]);
   ("rowhouse",
    ["row house"; "townhouse street"; "row homes"]);
   ("tudor",
    ["tudor home"; "tudor neighborhood"; "english tudor"]);
   ("craftsman",
    ["craftsman bungalow"; "arts crafts home"]);
   ("cape cod",
    ["cape cod house"; "cape cod style"]);
   ("ranch",
    ["ranch home"; "mid century ranch"]);
   ("condo",
    ["luxury condo building"; "modern condo exterior"]);
   ("high-rise",
    ["residential high rise"; "luxury apartment building"])].

Definition CURATED_FALLBACK_PHOTOS : list (string * list string) :=
  [("nyc",
    ["photo-1534430480872-3498386e7856"; "photo-1555952238-2c8a0d3c3e32";
     "photo-1518235506717-e1ed3306a89b"; "photo-1570168007204-dfb528c6958f";
     "photo-1534430480872-3498386e7856"]);
   ("dc",
    ["photo-1617581629397-a72507c3de9e"; "photo-1558618666-fcd25c85cd64";
     "photo-1565402170291-8491f14678db"]);
   ("philadelphia",
    ["photo-1600566753086-00f18fb6b3ea"; "photo-1600607687644-aac4c3eac7f4";
     "photo-1600573472591-ee6b68d14c68"]);
   ("boston",
    ["photo-1572120360610-d971b9d7767c"; "photo-1580587771525-78b9dba3b914";
     "photo-1600585154340-be6161a56a0c"]);
   ("connecticut",
    ["photo-1605276374104-dee2a0ed3cd6"; "photo-1600596542815-ffad4c1539a9";
     "photo-1600047509807-ba8f99d2cdde"]);
   ("suburban",
    ["photo-1600585154340-be6161a56a0c"; "photo-1600047509807-ba8f99d2cdde";
     "photo-1600566753190-17f0baa2a6c3"]);
   ("urban",
    ["photo-1600607687939-ce8a6c25118c"; "photo-1600585154526-990dced4db0d";
     "photo-1600573472591-ee6b68d14c68"]);
   ("luxury",
    ["photo-1600596542815-ffad4c1539a9"; "photo-1600047509807-ba8f99d2cdde";
     "photo-1613490493576-7fde63acd811"])].

(** [table[key]] for a key that is one of the literals of the table, as
    the categories of [getCuratedFallback] are. *)
Fixpoint lookup (table : list (string * list string)) (key : string)
  : option (list string) :=
  match table with
  | [] => None
  | (k, v) :: rest => if String.eqb k key then Some v else lookup rest key
  end.

(** A number is truthy when it is given and not zero; a string, when it is
    given and not empty. *)
Definition number_truthy (n : option Q) : bool :=
  match n with
  | Some q => negb (Qeq_bool q 0)
  | None => false
  end.

Definition string_truthy (s : option string) : bool :=
  match s with
  | Some text => BlogRegistry.truthy text
  | None => false
  end.

(** [getPriceTierKeywords(medianPrice)] *)
Definition getPriceTierKeywords (medianPrice : Q) : list string :=
  if Qle_bool 1500000 medianPrice then
    ["luxury estate"; "mansion"; "upscale neighborhood"; "prestigious homes"]
  else if Qle_bool 800000 medianPrice then
    ["upscale suburban"; "affluent neighborhood"; "beautiful homes"]
  else if Qle_bool 500000 medianPrice then
    ["nice neighborhood"; "family homes"; "residential street"]
  else if Qle_bool 300000 medianPrice then
    ["starter homes"; "affordable neighborhood"; "first home"]
  else
    ["urban neighborhood"; "city homes"; "residential area"].

(** The three keywords pushed last, whatever the context is. *)
Definition generic_fallbacks : list string :=
  ["residential neighborhood street";
   "homes for sale neighborhood";
   "real estate neighborhood"].

(** Step 7 of [generateSearchKeywords]. *)
Definition vibe_keywords (vibe : option string) : list string :=
  match vibe with
  | Some text =>
      if BlogRegistry.truthy text then
        let vibeLower := Js.toLowerCase text in
        ((if Js.includes vibeLower "hip" || Js.includes vibeLower "trendy"
          then ["trendy neighborhood"; "hipster neighborhood"] else [])
         ++ (if Js.includes vibeLower "family"
             then ["family friendly neighborhood"; "kids playing street"] else [])
         ++ (if Js.includes vibeLower "historic"
             then ["historic neighborhood"; "heritage homes"] else [])
         ++ (if Js.includes vibeLower "diverse"
             then ["diverse neighborhood"; "multicultural street"] else []))%list
      else []
  | None => []
  end.

(** The errors of the two uses of a table entry that is not an array:
    [keywords.push(...entry)] and [entry.slice(0, 2)]. *)
Definition spread_not_iterable : Eff.JsError :=
  Eff.TypeError "Spread syntax requires ...iterable[Symbol.iterator] to be a function".

Definition slice_not_a_function (entry : string) : Eff.JsError :=
  Eff.TypeError (entry ++ ".slice is not a function").

(** Step 1: [if (THEMES[key]) keywords.push(...THEMES[key])]. A member
    inherited from [Object.prototype] passes the test and cannot be
    spread. *)
Definition direct_keywords (context : NeighborhoodContext) : Result (list string) :=
  match Js.get_property NEIGHBORHOOD_VISUAL_THEMES
                        (Js.toLowerCase (neighborhood context)) with
  | Js.own themes => Ok themes
  | Js.undefined => Ok []
  | Js.inherited => Throw spread_not_iterable
  end.

(** Steps 2 and 5: [if (x) { if (table[lower]) push(...table[lower].slice(0, 2)) }]
    for an optional string [x]. An inherited member passes the test and has
    no [slice]. *)
Definition sliced_keywords (table : list (string * list string)) (entry : string)
           (x : option string) : Result (list string) :=
  match x with
  | Some text =>
      if BlogRegistry.truthy text
      then match Js.get_property table (Js.toLowerCase text) with
           | Js.own words => Ok (Js.slice 0 2 words)
           | Js.undefined => Ok []
           | Js.inherited => Throw (slice_not_a_function entry)
           end
      else Ok []
  | None => Ok []
  end.

(** The keywords pushed by [generateSearchKeywords] before they are
    deduplicated, step by step. *)
Definition pushed_keywords (context : NeighborhoodContext) : Result (list string) :=
  Eff.and_then (direct_keywords context) (fun direct =>
  Eff.and_then (sliced_keywords NEIGHBORHOOD_VISUAL_THEMES
                                "NEIGHBORHOOD_VISUAL_THEMES[boroughLower]"
                                (borough context)) (fun area =>
  let combined :=
    [neighborhood context ++ " " ++ city context ++ " neighborhood";
     neighborhood context ++ " " ++ state context ++ " homes"] in
  let landmark :=
    match landmarks context with
    | Some marks => map (fun l => l ++ " neighborhood") marks
    | None => []
    end in
  Eff.and_then (sliced_keywords ARCHITECTURE_KEYWORDS
                                "ARCHITECTURE_KEYWORDS[archLower]"
                                (architecture context)) (fun style =>
  let price :=
    match medianPrice context with
    | Some p =>
        if number_truthy (Some p) then Js.slice 0 2 (getPriceTierKeywords p) else []
    | None => []
    end in
  Ok (direct ++ area ++ combined ++ landmark ++ style ++ price
      ++ vibe_keywords (vibe context) ++ generic_fallbacks)%list))).

(** [generateSearchKeywords(context)] *)
Definition generateSearchKeywords (context : NeighborhoodContext)
  : Result (list string) :=
  Eff.and_then (pushed_keywords context)
               (fun pushed => Ok (RegistrySync.set_of_array pushed)).

(** The URL of a photo in the size of a cover. *)
Definition cover_url (photoId : string) : string :=
  "https://images.unsplash.com/" ++ photoId ++ "?w=1200&h=630&fit=crop".

(** The category of [getCuratedFallback]. *)
Definition fallback_category (context : NeighborhoodContext) : string :=
  let state := Js.toLowerCase (state context) in
  let city := Js.toLowerCase (city context) in
  let category :=
    if String.eqb state "ny" || Js.includes city "new york" then "nyc"
    else if String.eqb state "dc" || String.eqb state "va" || String.eqb state "md"
    then "dc"
    else if String.eqb state "pa" || Js.includes city "philadelphia" then "philadelphia"
    else if String.eqb state "ma" || Js.includes city "boston" then "boston"
    else if String.eqb state "ct" then "connecticut"
    else "suburban" in
  match medianPrice context with
  | Some p => if number_truthy (Some p) && Qle_bool 1000000 p then "luxury" else category
  | None => category
  end.

Definition curated (context : NeighborhoodContext) (photoId : string) : DiscoveredPhoto :=
  {| id := photoId;
     url := cover_url photoId;
     fullUrl := "https://images.unsplash.com/" ++ photoId;
     description := neighborhood context ++ " neighborhood - real estate";
     alt := neighborhood context ++ ", " ++ city context ++ " real estate neighborhood";
     photographer := "Unsplash";
     photographerUrl := "https://unsplash.com";
     relevanceScore := 5 # 10;
     searchTermUsed := "curated fallback" |}.

(** The loop of [getCuratedFallback]. *)
Fixpoint first_unused (usedPhotos : gset string) (photos : list string) : option string :=
  match photos with
  | [] => None
  | photoId :: rest =>
      if bool_decide (photoId ∈ usedPhotos) then first_unused usedPhotos rest
      else Some photoId
  end.

(** [getCuratedFallback(context, usedPhotos)] *)
Definition getCuratedFallback (context : NeighborhoodContext) (usedPhotos : gset string)
  : option DiscoveredPhoto :=
  let photos :=
    match lookup CURATED_FALLBACK_PHOTOS (fallback_category context) with
    | Some photos => photos
    | None => default [] (lookup CURATED_FALLBACK_PHOTOS "suburban")
    end in
  match first_unused usedPhotos photos with
  | Some photoId => Some (curated context photoId)
  | None => None
  end.

(** One result of the search request, as far as it is read. *)
Record ApiPhoto := {
  api_id : string;
  urls_full : string;
  api_description : option string;
  alt_description : option string;
  user_name : string;
  user_links_html : string
}.

(** [a || b] on optional strings *)
Definition or_else (a : option string) (b : string) : string :=
  match a with
  | Some text => if BlogRegistry.truthy text then text else b
  | None => b
  end.

(** The object built for the result at position [index]. *)
Definition discovered (query : string) (index : nat) (photo : ApiPhoto) : DiscoveredPhoto :=
  {| id := api_id photo;
     url := cover_url (api_id photo);
     fullUrl := urls_full photo;
     description := or_else (api_description photo) (or_else (alt_description photo) query);
     alt := or_else (alt_description photo) (query ++ " - real estate neighborhood");
     photographer := user_name photo;
     photographerUrl := user_links_html photo;
     relevanceScore := (1 - inject_Z (Z.of_nat index) * (1 # 10))%Q;
     searchTermUsed := query |}.

(** [results.sort((a, b) => b.relevanceScore - a.relevanceScore)]: the sort
    is stable, so a photo goes behind those that score at least as much. *)
Fixpoint insert_by_score (photo : DiscoveredPhoto) (sorted : list DiscoveredPhoto)
  : list DiscoveredPhoto :=
  match sorted with
  | [] => [photo]
  | first :: rest =>
      if Qle_bool (relevanceScore photo) (relevanceScore first)
      then first :: insert_by_score photo rest
      else photo :: sorted
  end.

Definition sort_by_score (photos : list DiscoveredPhoto) : list DiscoveredPhoto :=
  fold_left (fun sorted photo => insert_by_score photo sorted) photos [].

Section Network.

(** The access key of the environment, and the answers of the network: to
    the search request and to the HEAD request with a given number. A search
    that fails in any way answers [None]; [head_ok] says whether the status
    was 200. *)
Variable UNSPLASH_ACCESS_KEY : string.
Variable fetch_search : nat -> string -> nat -> option (list ApiPhoto).
Variable head_ok : nat -> string -> bool.

Local Open Scope state_scope.

(** The state is the number of requests made so far. *)
Definition request {A} (answer : nat -> A) : State nat A :=
  fun n => (answer n, S n).

(** [validatePhotoUrl(url)] *)
Definition validatePhotoUrl (photoUrl : string) : State nat bool :=
  request (fun n => head_ok n photoUrl).

(** [searchUnsplash(query, perPage)] *)
Definition searchUnsplash (query : string) (perPage : nat)
  : State nat (list DiscoveredPhoto) :=
  if negb (BlogRegistry.truthy UNSPLASH_ACCESS_KEY) then ret []
  else
    do response <- request (fun n => fetch_search n query perPage) ;;
    match response with
    | Some results => ret (imap (discovered query) results)
    | None => ret []
    end.

(** The inner loop of [discoverNeighborhoodPhotos]; it ends at the [break]. *)
Fixpoint take_valid (usedPhotos : gset string) (maxResults : nat)
         (photos results : list DiscoveredPhoto) : State nat (list DiscoveredPhoto) :=
  match photos with
  | [] => ret results
  | photo :: rest =>
      if bool_decide (id photo ∈ usedPhotos)
      then take_valid usedPhotos maxResults rest results
      else
        do isValid <- validatePhotoUrl (url photo) ;;
        if negb isValid then take_valid usedPhotos maxResults rest results
        else
          let results := (results ++ [photo])%list in
          if (maxResults <=? List.length results)%nat then ret results
          else take_valid usedPhotos maxResults rest results
  end.

(** The outer loop over the keywords. *)
Fixpoint try_keywords (usedPhotos : gset string) (maxResults : nat)
         (keywords : list string) (results : list DiscoveredPhoto)
  : State nat (list DiscoveredPhoto) :=
  match keywords with
  | [] => ret results
  | keyword :: rest =>
      do photos <- searchUnsplash keyword 5 ;;
      do results <- take_valid usedPhotos maxResults photos results ;;
      if (maxResults <=? List.length results)%nat then ret results
      else try_keywords usedPhotos maxResults rest results
  end.

(** [discoverNeighborhoodPhotos(context, usedPhotos, maxResults)]; the pause
    between two searches is not part of the model. The keywords are
    generated first, before any request. *)
Definition discoverNeighborhoodPhotos (context : NeighborhoodContext)
           (usedPhotos : gset string) (maxResults : nat)
  : Eff.Eff nat (list DiscoveredPhoto) :=
  (do keywords <- Eff.of_result (generateSearchKeywords context) ;;
   do results <-
     Eff.lift (if BlogRegistry.truthy UNSPLASH_ACCESS_KEY
               then try_keywords usedPhotos maxResults (Js.slice 0 5 keywords) []
               else ret []) ;;
   let results :=
     if (List.length results <? maxResults)%nat
     then match getCuratedFallback context usedPhotos with
          | Some fallback => (results ++ [fallback])%list
          | None => results
          end
     else results in
   Eff.ret (Js.slice 0 maxResults (sort_by_score results)))%eff.

(** [getBestNeighborhoodPhoto(context, usedPhotos)] *)
Definition getBestNeighborhoodPhoto (context : NeighborhoodContext)
           (usedPhotos : gset string) : Eff.Eff nat (option DiscoveredPhoto) :=
  (do photos <- discoverNeighborhoodPhotos context usedPhotos 3 ;;
   Eff.ret (head photos))%eff.

(** [BlogRegistry.getNeighborhoodPhoto(context)]: the registry is read, not
    written; [random] is the value of [Math.random()] in the library call. *)
Definition getNeighborhoodPhoto (context : NeighborhoodContext) (random : Q)
           (this : BlogRegistry.BlogRegistry) : Eff.Eff nat string :=
  let usedPhotos := eval RegistryOps.getUsedPhotoIds this in
  (do photo <- getBestNeighborhoodPhoto context usedPhotos ;;
   match photo with
   | Some found => Eff.ret (url found)
   | None =>
       let category :=
         BlogRegistry.getCategoryForLocation (city context ++ ", " ++ state context) in
       Eff.of_result (fst (BlogRegistry.getUniqueCoverPhoto (Some category) random this))
   end)%eff.

End Network.

(** A text that lower-cases to a name which the tables inherit from
    [Object.prototype]: the only two such names without a capital letter. *)
Definition inherited_name (text : string) : Prop :=
  Js.toLowerCase text = "constructor" ∨ Js.toLowerCase text = "__proto__".

(** A context of which a field is read as an inherited member: the
    neighbourhood, the borough or the architecture. *)
Definition reads_inherited (context : NeighborhoodContext) : Prop :=
  inherited_name (neighborhood context)
  ∨ (∃ b, borough context = Some b ∧ inherited_name b)
  ∨ (∃ a, architecture context = Some a ∧ inherited_name a).

(** A photo that may be offered: its id is not used, and its URL is the
    cover URL of its id. *)
Definition admissible (usedPhotos : gset string) (photo : DiscoveredPhoto) : Prop :=
  (id photo ∉ usedPhotos) ∧ url photo = cover_url (id photo).

(** A list of photos in descending order of score. *)
Fixpoint descending (photos : list DiscoveredPhoto) : Prop :=
  match photos with
  | [] => True
  | first :: rest =>
      Forall (fun later => (relevanceScore later <= relevanceScore first)%Q) rest
      ∧ descending rest
  end.

End PhotoDiscovery.

(** ** batch-generate.ts: the selection of calendar entries and the loop *)

Module BatchGenerate.
Import Types Eff.




(** [maxArticlesPerRun] is the integer that [parseInt] read. *)
Record BatchConfig := {
  maxArticlesPerRun : Z;
  minHoursBetweenRuns : Q;
  autoPublishThreshold : Q;
  requireHumanReview : bool
}.

Definition DEFAULT_CONFIG : BatchConfig :=
  {| maxArticlesPerRun := 5;
     minHoursBetweenRuns := 4;
     autoPublishThreshold := 85 # 100;
     requireHumanReview := true |}.











Section Generator.

(** The generator with its state, and what it makes of an item: the brief,
    the content and its regeneration; the call can throw. *)
Variable G : Type.
Variable generate :
  string -> string -> SearchIntent -> string ->
  Eff G RemoteContent.GeneratedContent.




End Generator.




End BatchGenerate.

(** ** The character class of a normalised data point *)

Module DataPoints.

(** The class [[a-z0-9]] that [normalizeDataPoint] keeps. *)
Definition kept (c : ascii) : bool := Js.is_lower c || Js.is_digit c.

End DataPoints.

(** * Properties *)

(** ** Facts about the JavaScript primitives *)

Module JsFacts.

Lemma arr_includes_true (l : list string) (x : string) :
  Js.arr_includes l x = true ↔ x ∈ l.
Proof. unfold Js.arr_includes. apply bool_decide_eq_true. Qed.

Lemma arr_includes_false (l : list string) (x : string) :
  Js.arr_includes l x = false ↔ x ∉ l.
Proof. unfold Js.arr_includes. apply bool_decide_eq_false. Qed.

Lemma slice_last_app {A} (pre tail : list A) :
  Js.slice_last (List.length tail) (pre ++ tail) = tail.
Proof.
  unfold Js.slice_last. rewrite List.length_app.
  replace (List.length pre + List.length tail - List.length tail)%nat
    with (List.length pre) by lia.
  apply drop_app_length.
Qed.

Lemma slice_last_short {A} (n : nat) (l : list A) :
  (List.length l <= n)%nat → Js.slice_last n l = l.
Proof.
  intros Hlen. unfold Js.slice_last.
  replace (List.length l - n)%nat with 0%nat by lia. reflexivity.
Qed.

Lemma existsb_elem_of {A} (f : A → bool) (l : list A) :
  existsb f l = true ↔ ∃ x, x ∈ l ∧ f x = true.
Proof.
  rewrite existsb_exists. split; intros (x & Hx & Hf); exists x; split; auto;
    by apply list_elem_of_In.
Qed.

Lemma truthy_true (s : string) : BlogRegistry.truthy s = true ↔ s ≠ "".
Proof.
  unfold BlogRegistry.truthy. rewrite negb_true_iff.
  split.
  - intros H Heq. subst s. discriminate.
  - intros H. apply String.eqb_neq. exact H.
Qed.

(** What [keep_chars] keeps is in the class. *)
Lemma keep_chars_all (p : ascii → bool) (s : string) :
  Forall (fun c => p c = true) (list_ascii_of_string (Js.keep_chars p s)).
Proof.
  induction s as [|c r IH]; cbn [Js.keep_chars]; [constructor|].
  destruct (p c) eqn:Hp; [|exact IH]. cbn [list_ascii_of_string]. by constructor.
Qed.

Lemma keep_chars_forallb (p : ascii → bool) (s : string) :
  forallb p (list_ascii_of_string (Js.keep_chars p s)) = true.
Proof.
  apply forallb_forall. intros c Hc.
  pose proof (keep_chars_all p s) as Hall. rewrite Forall_forall in Hall.
  apply Hall. by apply list_elem_of_In.
Qed.

(** The three steps of [toLowerCase]. *)
Lemma toLowerCase_dotted (r : string) :
  Js.toLowerCase (Js.dotted_capital_I ++ r)
  = String "i" (String "204" (String "135" (Js.toLowerCase r))).
Proof. reflexivity. Qed.

Lemma toLowerCase_kelvin (r : string) :
  Js.toLowerCase (Js.kelvin_sign ++ r) = String "k" (Js.toLowerCase r).
Proof. reflexivity. Qed.

Lemma toLowerCase_char (c : ascii) (r : string) :
  Js.starts_with Js.dotted_capital_I (String c r) = false →
  Js.starts_with Js.kelvin_sign (String c r) = false →
  Js.toLowerCase (String c r) = String (Js.lower_char c) (Js.toLowerCase r).
Proof.
  intros Hdot Hkelvin. destruct r as [|c1 r1]; [reflexivity|].
  cbn [Js.toLowerCase].
  unfold Js.dotted_capital_I, Js.kelvin_sign in *. cbn [Js.starts_with] in Hdot, Hkelvin.
  rewrite andb_true_r, (Ascii.eqb_sym "196" c), (Ascii.eqb_sym "176" c1) in Hdot.
  rewrite Hdot. destruct r1 as [|c2 r2]; [reflexivity|].
  rewrite andb_true_r, (Ascii.eqb_sym "226" c), (Ascii.eqb_sym "132" c1),
    (Ascii.eqb_sym "170" c2), andb_assoc in Hkelvin.
  by rewrite Hkelvin.
Qed.

(** Induction along the steps of [toLowerCase]. *)
Lemma toLowerCase_steps (P : string → string → Prop) :
  P "" "" →
  (∀ r, P r (Js.toLowerCase r) →
        P (Js.dotted_capital_I ++ r)
          (String "i" (String "204" (String "135" (Js.toLowerCase r))))) →
  (∀ r, P r (Js.toLowerCase r) →
        P (Js.kelvin_sign ++ r) (String "k" (Js.toLowerCase r))) →
  (∀ c r, Js.starts_with Js.dotted_capital_I (String c r) = false →
          Js.starts_with Js.kelvin_sign (String c r) = false →
          P r (Js.toLowerCase r) →
          P (String c r) (String (Js.lower_char c) (Js.toLowerCase r))) →
  ∀ s, P s (Js.toLowerCase s).
Proof.
  intros Hnil Hdot Hkelvin Hchar s.
  assert (Hall : ∀ n s, (String.length s <= n)%nat → P s (Js.toLowerCase s)).
  { clear s. induction n as [|n IH]; intros [|c r] Hlen; cbn [String.length] in Hlen;
      try lia; try exact Hnil.
    destruct (Js.starts_with Js.dotted_capital_I (String c r)) eqn:Hd.
    { unfold Js.dotted_capital_I in Hd.
      destruct r as [|c1 r1]; cbn [Js.starts_with] in Hd;
        [by rewrite andb_false_r in Hd|].
      rewrite andb_true_r in Hd. apply andb_true_iff in Hd as [H0 H1].
      apply Ascii.eqb_eq in H0, H1. subst c c1.
      change (P (Js.dotted_capital_I ++ r1)
                (String "i" (String "204" (String "135" (Js.toLowerCase r1))))).
      apply Hdot, IH. cbn [String.length] in Hlen. lia. }
    destruct (Js.starts_with Js.kelvin_sign (String c r)) eqn:Hk.
    { unfold Js.kelvin_sign in Hk.
      destruct r as [|c1 [|c2 r2]]; cbn [Js.starts_with] in Hk;
        [by rewrite andb_false_r in Hk | by rewrite !andb_false_r in Hk |].
      rewrite andb_true_r in Hk. apply andb_true_iff in Hk as [H0 Hk].
      apply andb_true_iff in Hk as [H1 H2].
      apply Ascii.eqb_eq in H0, H1, H2. subst c c1 c2.
      change (P (Js.kelvin_sign ++ r2) (String "k" (Js.toLowerCase r2))).
      apply Hkelvin, IH. cbn [String.length] in Hlen. lia. }
    rewrite (toLowerCase_char c r Hd Hk). apply Hchar; [exact Hd | exact Hk |].
    apply IH. lia. }
  by apply (Hall (String.length s)).
Qed.

(** A lower-cased text holds no capital letter. *)
Lemma lower_char_not_upper (c : ascii) : Js.is_upper (Js.lower_char c) = false.
Proof. destruct c as [[] [] [] [] [] [] [] []]; vm_compute; reflexivity. Qed.

Lemma toLowerCase_no_upper (s : string) :
  forallb (fun c => negb (Js.is_upper c)) (list_ascii_of_string (Js.toLowerCase s)) = true.
Proof.
  apply (toLowerCase_steps
           (fun _ lowered =>
              forallb (fun c => negb (Js.is_upper c)) (list_ascii_of_string lowered)
              = true)); try done.
  intros c r _ _ IH. cbn [list_ascii_of_string forallb].
  by rewrite lower_char_not_upper, IH.
Qed.

(** The names of [Object.prototype] that a lower-cased text can be. *)
Lemma toLowerCase_inherited (s : string) :
  Js.toLowerCase s ∈ Js.Object_prototype_names
  ↔ Js.toLowerCase s = "constructor" ∨ Js.toLowerCase s = "__proto__".
Proof.
  split.
  - intros Hin. pose proof (toLowerCase_no_upper s) as Hlower.
    unfold Js.Object_prototype_names in Hin.
    repeat (apply elem_of_cons in Hin as [Heq | Hin];
            [first [ by left | by right
                   | rewrite Heq in Hlower; vm_compute in Hlower; discriminate ]|]).
    by apply elem_of_nil in Hin.
  - intros [-> | ->]; refine (bool_decide_unpack _ _); vm_compute; exact I.
Qed.

Lemma get_property_cases {A} (table : list (string * A)) (key : string) :
  match Js.get_property table key with
  | Js.own v => Js.own_property table key = Some v
  | Js.inherited =>
      Js.own_property table key = None ∧ key ∈ Js.Object_prototype_names
  | Js.undefined =>
      Js.own_property table key = None ∧ key ∉ Js.Object_prototype_names
  end.
Proof.
  unfold Js.get_property. destruct (Js.own_property table key); [reflexivity|].
  destruct (Js.arr_includes _ key) eqn:Hin.
  - by apply arr_includes_true in Hin.
  - by apply arr_includes_false in Hin.
Qed.

End JsFacts.

(** ** Template rotation *)

Module ContentValidationFacts.
Import ContentValidation.

Lemma valid_iff (selected : string) (history : list string) :
  valid (validateTemplateSelection selected history) = true
  ↔ selected ∈ TEMPLATE_IDS ∧ selected ∉ Js.slice_last 2 history.
Proof.
  unfold validateTemplateSelection. cbn [valid].
  rewrite JsFacts.arr_includes_true, list_elem_of_filter. tauto.
Qed.

(** A history of two or more entries ends with two entries. *)
Lemma history_ends_with_two (history : list string) :
  (2 <= List.length history)%nat → ∃ pre a b, history = (pre ++ [a; b])%list.
Proof.
  intros Hlen.
  exists (take (List.length history - 2) history).
  destruct (drop (List.length history - 2) history) as [|a [|b [|c rest]]] eqn:Hdrop;
    pose proof (f_equal List.length Hdrop) as Hl;
    rewrite length_drop in Hl; cbn in Hl; try lia.
  exists a, b. by rewrite <- Hdrop, take_drop.
Qed.

(** C4. For a history that ends with the two entries [a] and [b], the
    validation reports exactly [[a; b]] as excluded, rejects [a] and [b], and
    accepts every other template of the fixed set of six; a history of fewer
    than two entries is excluded as a whole. *)
Theorem validateTemplateSelection_excludes_last_two
        (selected : string) (history : list string) :
  let result := validateTemplateSelection selected history in
  (∀ pre a b,
      history = (pre ++ [a; b])%list →
      excluded result = [a; b]
      ∧ (selected = a ∨ selected = b → valid result = false)
      ∧ (selected ∈ TEMPLATE_IDS → selected ≠ a → selected ≠ b → valid result = true))
  ∧ ((List.length history < 2)%nat → excluded result = history).
Proof.
  intros result. split.
  - intros pre a b ->.
    assert (Hlast : Js.slice_last 2 (pre ++ [a; b]) = [a; b])
      by exact (JsFacts.slice_last_app pre [a; b]).
    split; [exact Hlast|]. split.
    + intros Hsel. apply not_true_is_false. intros Hvalid.
      apply valid_iff in Hvalid as [_ Hnot]. apply Hnot. rewrite Hlast.
      destruct Hsel as [-> | ->]; rewrite !elem_of_cons; auto.
    + intros Hin Ha Hb. apply valid_iff. split; [exact Hin|].
      rewrite Hlast, !elem_of_cons, elem_of_nil. tauto.
  - intros Hshort. subst result. cbn [excluded validateTemplateSelection].
    apply JsFacts.slice_last_short. lia.
Qed.

(** The rotation example of the test script: with history COMPASS, CATALYST
    the four remaining templates are accepted and the two recent ones are not. *)
Example validateTemplateSelection_scenario :
  map (fun t => valid (validateTemplateSelection t ["COMPASS"; "CATALYST"]))
      ["ATLAS"; "PERSONA"; "COMPASS"; "CATALYST"; "PLAYBOOK"; "BLUEPRINT"]
  = [true; true; false; false; true; true].
Proof. vm_compute. reflexivity. Qed.

End ContentValidationFacts.

(** ** The registry: cover photos *)

Module CoverPhotoFacts.
Import StateM BlogRegistry Specification.

Lemma scan_photos_some (used photos : list string) (p : string) :
  scan_photos used photos = Some p → first_available used photos p.
Proof.
  induction photos as [|photoId rest IH]; simpl; [discriminate|].
  destruct (Js.arr_includes BLOCKED_PHOTO_IDS photoId) eqn:Hblocked.
  - intros Hscan. destruct (IH Hscan) as (before & after & -> & Hb & Hu & Hall).
    exists (photoId :: before), after. repeat split; auto.
    constructor; [|exact Hall]. left. by apply JsFacts.arr_includes_true.
  - destruct (Js.arr_includes used photoId) eqn:Hused; simpl.
    + intros Hscan. destruct (IH Hscan) as (before & after & -> & Hb & Hu & Hall).
      exists (photoId :: before), after. repeat split; auto.
      constructor; [|exact Hall]. right. by apply JsFacts.arr_includes_true.
    + intros Heq. assert (p = photoId) by congruence. subst p.
      exists [], rest. repeat split; auto.
      * by apply JsFacts.arr_includes_false.
      * by apply JsFacts.arr_includes_false.
Qed.

Lemma scan_photos_none (used photos : list string) :
  scan_photos used photos = None → Forall (unavailable used) photos.
Proof.
  induction photos as [|photoId rest IH]; simpl; [constructor|].
  destruct (Js.arr_includes BLOCKED_PHOTO_IDS photoId) eqn:Hblocked.
  - intros Hscan. constructor; [|auto]. left. by apply JsFacts.arr_includes_true.
  - destruct (Js.arr_includes used photoId) eqn:Hused; simpl; [|discriminate].
    intros Hscan. constructor; [|auto]. right. by apply JsFacts.arr_includes_true.
Qed.

(** The keys of the catalogue are distinct, so the bucket of a category is
    what the property read finds under its name. *)
Lemma library_keys_distinct : NoDup (map fst COVER_PHOTO_LIBRARY).
Proof. refine (bool_decide_unpack _ _). vm_compute. exact I. Qed.

Lemma bucket_own_property (category : string) :
  bucket category = default [] (Js.own_property COVER_PHOTO_LIBRARY category).
Proof.
  unfold bucket. pose proof library_keys_distinct as Hnodup.
  induction COVER_PHOTO_LIBRARY as [|[k v] rest IH];
    cbn [List.filter map fst snd concat Js.own_property]; [reflexivity|].
  cbn [map fst] in Hnodup. apply NoDup_cons in Hnodup as [Hfresh Hnodup].
  rewrite String.eqb_sym.
  destruct (String.eqb_spec k category) as [-> | Hne].
  - change (default [] (Some v)) with v. cbn [map snd concat].
    assert (Hnone : List.filter (fun entry => String.eqb category (fst entry)) rest = []).
    { clear IH Hnodup. induction rest as [|[k' v'] rest IH]; [reflexivity|].
      cbn [List.filter fst]. cbn [map fst] in Hfresh.
      destruct (String.eqb_spec category k') as [-> | _].
      - exfalso. apply Hfresh. apply elem_of_cons. by left.
      - apply IH. intros Hin. apply Hfresh. apply elem_of_cons. by right. }
    rewrite Hnone. cbn. apply app_nil_r.
  - by apply IH.
Qed.

(** The three ways in which the loop over the categories ends. *)
Lemma scan_categories_cases (used categories : list string) :
  match scan_categories used categories with
  | Eff.Ok (Some p) => first_available used (concat (map bucket categories)) p
  | Eff.Ok None => Forall (unavailable used) (concat (map bucket categories))
  | Eff.Throw e =>
      e = not_iterable
      ∧ ∃ cat, cat ∈ categories
               ∧ Js.get_property COVER_PHOTO_LIBRARY cat = Js.inherited
  end.
Proof.
  induction categories as [|cat rest IH]; cbn [scan_categories map concat];
    [constructor|].
  rewrite (bucket_own_property cat).
  pose proof (JsFacts.get_property_cases COVER_PHOTO_LIBRARY cat) as Hread.
  destruct (Js.get_property COVER_PHOTO_LIBRARY cat) as [photos| |] eqn:Hget.
  - rewrite Hread. change (default [] (Some photos)) with photos.
    destruct (scan_photos used photos) as [q|] eqn:Hscan.
    + apply scan_photos_some in Hscan.
      destruct Hscan as (before & after & Heq & Hb & Hu & Hall).
      exists before, (after ++ concat (map bucket rest))%list.
      rewrite Heq, <- List.app_assoc. repeat split; auto.
    + apply scan_photos_none in Hscan.
      destruct (scan_categories used rest) as [[p|]|e].
      * destruct IH as (before & after & Heq & Hb & Hu & Hall).
        exists (photos ++ before)%list, after.
        rewrite Heq, <- List.app_assoc. repeat split; auto.
        apply Forall_app. split; assumption.
      * apply Forall_app. split; assumption.
      * destruct IH as (-> & c & Hc & Hinh). split; [reflexivity|].
        exists c. split; [|exact Hinh]. apply elem_of_cons. by right.
  - split; [reflexivity|]. exists cat. split; [|exact Hget]. apply elem_of_cons. by left.
  - destruct Hread as [-> _]. change (default [] None) with (@nil string). cbn [app].
    destruct (scan_categories used rest) as [[p|]|e]; [exact IH | exact IH |].
    destruct IH as (-> & c & Hc & Hinh). split; [reflexivity|].
    exists c. split; [|exact Hinh]. apply elem_of_cons. by right.
Qed.

Lemma priority_chain_buckets (category : option string) :
  priority_chain category
  = concat (map bucket [lower_category (default "nyc" category); "nyc"; "real-estate"]).
Proof. unfold priority_chain. cbn [map concat]. by rewrite app_nil_r. Qed.

(** The only name of [Object.prototype] that a normalised category can be
    is ["constructor"]: every other one holds a capital letter or an
    underscore. *)
Lemma lower_category_inherited (category : string) :
  Js.get_property COVER_PHOTO_LIBRARY (lower_category category) = Js.inherited
  ↔ lower_category category = "constructor".
Proof.
  split.
  - intros Hget.
    pose proof (JsFacts.get_property_cases COVER_PHOTO_LIBRARY (lower_category category))
      as Hread.
    rewrite Hget in Hread. destruct Hread as [_ Hin].
    pose proof (JsFacts.keep_chars_forallb
                  (fun c => Js.is_lower c || Ascii.eqb c "-")
                  (Js.toLowerCase category)) as Hclass.
    fold (Js.strip_outside (fun c => Js.is_lower c || Ascii.eqb c "-")
                           (Js.toLowerCase category)) in Hclass.
    fold (lower_category category) in Hclass.
    unfold Js.Object_prototype_names in Hin.
    repeat (apply elem_of_cons in Hin as [Heq | Hin];
            [first [ exact Heq | rewrite Heq in Hclass; vm_compute in Hclass; discriminate ]|]).
    by apply elem_of_nil in Hin.
  - intros ->. vm_compute. reflexivity.
Qed.

(** When every entry is passed over, none is available. *)
Lemma all_unavailable_none_available (used chain : list string) :
  Forall (unavailable used) chain → ¬ some_available used chain.
Proof.
  intros Hall (q & Hin & Hu & Hb).
  rewrite Forall_forall in Hall. destruct (Hall q Hin); contradiction.
Qed.

(** The first available entry of a chain is unique. *)
Lemma first_available_unique (used chain : list string) (p q : string) :
  first_available used chain p → first_available used chain q → p = q.
Proof.
  intros (b1 & a1 & H1 & Hb1 & Hu1 & Hall1) (b2 & a2 & H2 & Hb2 & Hu2 & Hall2).
  revert b2 H2 Hall2. subst chain.
  induction b1 as [|x b1 IH]; intros [|y b2] H2 Hall2; simpl in *.
  - congruence.
  - injection H2 as -> _. inversion Hall2 as [|? ? Hy _]; subst.
    destruct Hy; contradiction.
  - injection H2 as <- _. inversion Hall1 as [|? ? Hx _]; subst.
    destruct Hx; contradiction.
  - injection H2 as _ H2. inversion Hall1; inversion Hall2; subst.
    eapply IH; eauto.
Qed.

Lemma bucket_values (category x : string) :
  x ∈ bucket category → x ∈ values_flat COVER_PHOTO_LIBRARY.
Proof.
  unfold bucket, values_flat.
  induction COVER_PHOTO_LIBRARY as [|[k v] rest IH];
    cbn [List.filter map snd concat fst]; [by rewrite elem_of_nil|].
  destruct (String.eqb category k); cbn [map snd concat]; rewrite !elem_of_app; tauto.
Qed.

Lemma chain_in_library (category : option string) (x : string) :
  x ∈ priority_chain category → x ∈ values_flat COVER_PHOTO_LIBRARY.
Proof.
  unfold priority_chain. rewrite !elem_of_app.
  intros [H | [H | H]]; by eapply bucket_values.
Qed.

(** The pattern with which the registry reads a photo id out of a URL
    recovers the id from the URL built for it, for every catalogued photo. *)
Lemma library_ids_round_trip (photoId : string) :
  photoId ∈ values_flat COVER_PHOTO_LIBRARY →
  match_photo_id (photo_url photoId) = Some photoId.
Proof.
  assert (Hall : forallb
                   (fun id => bool_decide (match_photo_id (photo_url id) = Some id))
                   (values_flat COVER_PHOTO_LIBRARY) = true)
    by (vm_compute; reflexivity).
  rewrite forallb_forall in Hall. intros Hin.
  apply list_elem_of_In in Hin. apply Hall in Hin.
  by apply bool_decide_eq_true in Hin.
Qed.

Lemma index_text_in_range (arr : list string) (i : Z) :
  (0 <= i < Z.of_nat (List.length arr))%Z → index_text arr i ∈ arr.
Proof.
  intros [Hlo Hhi]. unfold index_text.
  destruct (Z.ltb_spec i 0) as [Hneg|_]; [lia|].
  destruct (arr !! Z.to_nat i) as [x|] eqn:Hlook.
  - by eapply list_elem_of_lookup_2.
  - apply lookup_ge_None in Hlook. lia.
Qed.

Lemma index_text_cases (arr : list string) (i : Z) :
  index_text arr i ∈ arr ∨ index_text arr i = "undefined".
Proof.
  unfold index_text. destruct (i <? 0)%Z; [by right|].
  destruct (arr !! Z.to_nat i) as [x|] eqn:Hlook; [left | by right].
  by eapply list_elem_of_lookup_2.
Qed.

(** [Math.floor(random * n)] is an index below [n] for [0 <= random < 1]. *)
Lemma random_index_in_range (random : Q) (n : nat) :
  (0 <= random)%Q → (random < 1)%Q → (0 < n)%nat →
  (0 <= Qfloor (random * inject_Z (Z.of_nat n)) < Z.of_nat n)%Z.
Proof.
  intros Hlo Hhi Hn.
  assert (Hpos : (0 < inject_Z (Z.of_nat n))%Q).
  { change 0%Q with (inject_Z 0). rewrite <- Zlt_Qlt. lia. }
  split.
  - change 0%Z with (Qfloor (inject_Z 0)).
    apply Qfloor_resp_le. change (inject_Z 0) with 0%Q.
    apply Qmult_le_0_compat; [exact Hlo | by apply Qlt_le_weak].
  - rewrite Zlt_Qlt.
    eapply Qle_lt_trans; [apply Qfloor_le|].
    rewrite <- (Qmult_1_l (inject_Z (Z.of_nat n))) at 2.
    apply Qmult_lt_compat_r; assumption.
Qed.

Lemma fallback_pool_not_blocked (x : string) :
  x ∈ List.filter (fun p => negb (Js.arr_includes BLOCKED_PHOTO_IDS p))
                  (values_flat COVER_PHOTO_LIBRARY) →
  (x ∉ BLOCKED_PHOTO_IDS) ∧ x ∈ values_flat COVER_PHOTO_LIBRARY.
Proof.
  rewrite list_elem_of_In, filter_In, <- list_elem_of_In.
  intros [Hin Hnb]. split; [|exact Hin].
  apply negb_true_iff in Hnb. by apply JsFacts.arr_includes_false.
Qed.

(** The call as a whole: the registry is read and handed back as it is. *)
Lemma getUniqueCoverPhoto_run (category : option string) (random : Q)
      (this : BlogRegistry) :
  let allPhotos :=
    List.filter (fun p => negb (Js.arr_includes BLOCKED_PHOTO_IDS p))
                (values_flat COVER_PHOTO_LIBRARY) in
  getUniqueCoverPhoto category random this
  = (match scan_categories (usedCoverPhotos (data this))
                           [lower_category (default "nyc" category); "nyc"; "real-estate"]
     with
     | Eff.Ok (Some photoId) => Eff.Ok (photo_url photoId)
     | Eff.Ok None =>
         Eff.Ok (photo_url
                   (index_text allPhotos
                      (Qfloor (random * inject_Z (Z.of_nat (List.length allPhotos))))))
     | Eff.Throw e => Eff.Throw e
     end, this).
Proof.
  intros allPhotos. unfold getUniqueCoverPhoto, Eff.bind, Eff.get, Eff.of_result, Eff.ret.
  destruct (scan_categories _ _) as [[photoId|]|e]; reflexivity.
Qed.

Lemma getUniqueCoverPhoto_exec (category : option string) (random : Q)
      (this : BlogRegistry) :
  snd (getUniqueCoverPhoto category random this) = this.
Proof. by rewrite getUniqueCoverPhoto_run. Qed.

(** The loop over the chain of a category throws exactly for the category
    ["constructor"]. *)
Lemma scan_chain_throws (used : list string) (category : string) :
  lower_category category = "constructor"
  → scan_categories used [lower_category category; "nyc"; "real-estate"]
    = Eff.Throw not_iterable.
Proof. intros ->. reflexivity. Qed.

Lemma scan_chain_thrown (used : list string) (category : string) (e : Eff.JsError) :
  scan_categories used [lower_category category; "nyc"; "real-estate"] = Eff.Throw e
  → e = not_iterable ∧ lower_category category = "constructor".
Proof.
  intros Hscan.
  pose proof (scan_categories_cases
                used [lower_category category; "nyc"; "real-estate"]) as Hcases.
  rewrite Hscan in Hcases. destruct Hcases as (-> & cat & Hin & Hinh).
  split; [reflexivity|].
  apply elem_of_cons in Hin as [-> | Hin]; [by apply lower_category_inherited|].
  exfalso. apply elem_of_cons in Hin as [-> | Hin]; [vm_compute in Hinh; discriminate|].
  apply elem_of_cons in Hin as [-> | Hin]; [vm_compute in Hinh; discriminate|].
  by apply elem_of_nil in Hin.
Qed.

Lemma getUniqueCoverPhoto_throws (category : option string) (random : Q)
      (this : BlogRegistry) :
  lower_category (default "nyc" category) = "constructor" →
  getUniqueCoverPhoto category random this = (Eff.Throw not_iterable, this).
Proof.
  intros Hnorm. rewrite getUniqueCoverPhoto_run. cbv zeta.
  by rewrite (scan_chain_throws _ _ Hnorm).
Qed.

Lemma getUniqueCoverPhoto_eval_available (category : option string) (random : Q)
      (this : BlogRegistry) :
  lower_category (default "nyc" category) ≠ "constructor" →
  some_available (usedCoverPhotos (data this)) (priority_chain category) →
  ∃ photoId,
    fst (getUniqueCoverPhoto category random this) = Eff.Ok (photo_url photoId)
    ∧ first_available (usedCoverPhotos (data this)) (priority_chain category) photoId.
Proof.
  intros Hnorm Hsome. rewrite getUniqueCoverPhoto_run. cbv zeta. cbn [fst].
  pose proof (scan_categories_cases
                (usedCoverPhotos (data this))
                [lower_category (default "nyc" category); "nyc"; "real-estate"])
    as Hcases.
  rewrite <- priority_chain_buckets in Hcases.
  destruct (scan_categories _ _) as [[photoId|]|e] eqn:Hscan.
  - by exists photoId.
  - by apply all_unavailable_none_available in Hcases.
  - by apply scan_chain_thrown in Hscan as [_ Hctor].
Qed.

(** For any other category the call returns the URL of a photo that is not
    blocked. *)
Lemma getUniqueCoverPhoto_returns (category : option string) (random : Q)
      (this : BlogRegistry) :
  lower_category (default "nyc" category) ≠ "constructor" →
  ∃ photoId,
    fst (getUniqueCoverPhoto category random this) = Eff.Ok (photo_url photoId)
    ∧ (photoId ∉ BLOCKED_PHOTO_IDS).
Proof.
  intros Hown. rewrite getUniqueCoverPhoto_run. cbv zeta. cbn [fst].
  pose proof (scan_categories_cases
                (usedCoverPhotos (data this))
                [lower_category (default "nyc" category); "nyc"; "real-estate"])
    as Hcases.
  destruct (scan_categories _ _) as [[photoId|]|e] eqn:Hscan.
  - exists photoId. split; [reflexivity|]. by destruct Hcases as (_ & _ & _ & Hb & _).
  - eexists. split; [reflexivity|].
    match goal with
    | |- index_text ?pool ?i ∉ _ => destruct (index_text_cases pool i) as [Hin | ->]
    end.
    + by apply fallback_pool_not_blocked in Hin as [Hnb _].
    + apply JsFacts.arr_includes_false. reflexivity.
  - by apply scan_chain_thrown in Hscan as [_ Hctor].
Qed.

(** C1. For the category ['constructor'] the call throws: the read
    [COVER_PHOTO_LIBRARY['constructor']] finds the member that every object
    inherits, and the loop over it fails with a [TypeError], in every
    registry and for every draw. On the empty registry the first photo of
    ['nyc'] is the first available entry of the priority chain of that
    category, which is the photo that the call should have returned. *)
Theorem getUniqueCoverPhoto_constructor_throws (this : BlogRegistry) (random : Q) :
  getUniqueCoverPhoto (Some "constructor") random this
  = (Eff.Throw (Eff.TypeError "photos is not iterable"), this)
  ∧ first_available (usedCoverPhotos (data Examples.empty_registry))
                    (priority_chain (Some "constructor"))
                    "photo-1534430480872-3498386e7856".
Proof.
  split; [by apply getUniqueCoverPhoto_throws|].
  eexists [], _. split; [vm_compute; reflexivity|].
  split; [|split; [|constructor]];
    refine (bool_decide_unpack _ _); vm_compute; exact I.
Qed.

(** Every category that the pattern of the normalisation turns into
    ['constructor'] has the same fate. *)
Example getUniqueCoverPhoto_constructor_variants :
  map (fun category => fst (getUniqueCoverPhoto (Some category) 0 Examples.empty_registry))
      ["constructor"; "Constructor"; "CONSTRUCTOR 2"; "__constructor__"]
  = [Eff.Throw not_iterable; Eff.Throw not_iterable;
     Eff.Throw not_iterable; Eff.Throw not_iterable].
Proof. vm_compute. reflexivity. Qed.

(** C10. Two successive calls for the category ['constructor'] both throw
    the [TypeError] of the inherited member, in every registry and for all
    draws, where the claim has them return the same URL: on the empty
    registry the priority chain of that category has photos that are
    neither used nor blocked. The registry is the same after both calls. *)
Theorem getUniqueCoverPhoto_constructor_twice
        (this : BlogRegistry) (random random' : Q) :
  let first := getUniqueCoverPhoto (Some "constructor") random this in
  let second := getUniqueCoverPhoto (Some "constructor") random' (snd first) in
  fst first = Eff.Throw (Eff.TypeError "photos is not iterable")
  ∧ fst second = Eff.Throw (Eff.TypeError "photos is not iterable")
  ∧ snd second = this
  ∧ some_available (usedCoverPhotos (data Examples.empty_registry))
                   (priority_chain (Some "constructor")).
Proof.
  cbv zeta.
  rewrite !(getUniqueCoverPhoto_throws (Some "constructor")) by reflexivity.
  cbn [fst snd]. split; [reflexivity|]. split; [reflexivity|]. split; [reflexivity|].
  exists "photo-1534430480872-3498386e7856".
  split; [|split]; refine (bool_decide_unpack _ _); vm_compute; exact I.
Qed.

(** X28. The outcome of [getUniqueCoverPhoto] for every category hint,
    registry and draw. It throws exactly when the normalised category is
    ['constructor']. Otherwise it returns the URL of a photo id that is
    never on the block-list, in the scan and in the random fallback alike;
    when some photo of the priority chain is neither used nor blocked, the
    id is the first such entry of the chain, and so not a used one; and for
    a draw in the unit interval the id is the one that the registry's own
    photo pattern reads back out of the URL. The registry is left as it
    was in every case. *)
Theorem getUniqueCoverPhoto_returns_unblocked
        (this : BlogRegistry) (category : option string) (random : Q) :
  let used := usedCoverPhotos (data this) in
  let chain := priority_chain category in
  match getUniqueCoverPhoto category random this with
  | (Eff.Throw e, after) =>
      after = this
      ∧ e = Eff.TypeError "photos is not iterable"
      ∧ lower_category (default "nyc" category) = "constructor"
  | (Eff.Ok url, after) =>
      after = this
      ∧ lower_category (default "nyc" category) ≠ "constructor"
      ∧ ∃ photoId,
          url = photo_url photoId
          ∧ (photoId ∉ BLOCKED_PHOTO_IDS)
          ∧ (some_available used chain → first_available used chain photoId)
          ∧ ((0 <= random)%Q ∧ (random < 1)%Q →
             match_photo_id url = Some photoId)
  end.
Proof.
  intros used chain. subst used chain.
  rewrite getUniqueCoverPhoto_run. cbv zeta.
  pose proof (scan_categories_cases
                (usedCoverPhotos (data this))
                [lower_category (default "nyc" category); "nyc"; "real-estate"])
    as Hcases.
  rewrite <- priority_chain_buckets in Hcases.
  assert (Hreturns : ∀ found,
             scan_categories (usedCoverPhotos (data this))
                             [lower_category (default "nyc" category); "nyc";
                              "real-estate"] = Eff.Ok found →
             lower_category (default "nyc" category) ≠ "constructor").
  { intros found Hscan Hctor. by rewrite (scan_chain_throws _ _ Hctor) in Hscan. }
  destruct (scan_categories _ _) as [[photoId|]|e] eqn:Hscan.
  - split; [reflexivity|]. split; [by eapply Hreturns|].
    exists photoId. pose proof Hcases as (before & after & Hchain & Hb & Hu & Hall).
    split; [reflexivity|]. split; [exact Hb|]. split; [intros _; exact Hcases|].
    intros _. apply library_ids_round_trip.
    apply (chain_in_library category). rewrite Hchain.
    apply elem_of_app. right. apply elem_of_cons. by left.
  - split; [reflexivity|]. split; [by eapply Hreturns|].
    set (allPhotos := List.filter _ _).
    set (idx := Qfloor _).
    exists (index_text allPhotos idx).
    split; [reflexivity|]. split; [|split].
    + destruct (index_text_cases allPhotos idx) as [Hin | ->].
      * by apply fallback_pool_not_blocked in Hin as [Hnb _].
      * apply JsFacts.arr_includes_false. reflexivity.
    + intros Hsome. by apply all_unavailable_none_available in Hcases.
    + intros [Hlo Hhi]. apply library_ids_round_trip.
      assert (Hlen : (0 < List.length allPhotos)%nat)
        by (subst allPhotos; vm_compute; lia).
      pose proof (random_index_in_range random _ Hlo Hhi Hlen) as Hidx.
      fold idx in Hidx. apply index_text_in_range in Hidx.
      by apply fallback_pool_not_blocked in Hidx as [_ Hlib].
  - apply scan_chain_thrown in Hscan as [-> Hctor]. by repeat split.
Qed.

(** X29. [getUniqueCoverPhoto] leaves the registry as it found it, whether
    it returns or throws. Hence, for a category other than ['constructor'] and
    while some photo of the priority chain is neither used nor blocked, a
    second call with the same category returns the same URL, whatever the
    random draws are, and it is [reserveCoverPhoto] on that URL that adds
    the photo to the used list. *)
Theorem getUniqueCoverPhoto_reads_only
        (this : BlogRegistry) (category : option string) (random random' : Q) :
  let first := getUniqueCoverPhoto category random this in
  let second := getUniqueCoverPhoto category random' (snd first) in
  snd first = this
  ∧ snd second = this
  ∧ (lower_category (default "nyc" category) ≠ "constructor" →
     some_available (usedCoverPhotos (data this)) (priority_chain category) →
     fst second = fst first
     ∧ ∃ photoId,
         fst first = Eff.Ok (photo_url photoId)
         ∧ (photoId ∉ usedCoverPhotos (data this))
         ∧ usedCoverPhotos (data (exec (reserveCoverPhoto (photo_url photoId)) this))
           = (usedCoverPhotos (data this) ++ [photoId])%list
         ∧ publishedBlogs (data (exec (reserveCoverPhoto (photo_url photoId)) this))
           = publishedBlogs (data this)).
Proof.
  cbv zeta. rewrite !getUniqueCoverPhoto_exec.
  split; [reflexivity|]. split; [reflexivity|].
  intros Hnorm Hsome.
  destruct (getUniqueCoverPhoto_eval_available category random this Hnorm Hsome)
    as (p & Hp & Hfirst).
  destruct (getUniqueCoverPhoto_eval_available category random' this Hnorm Hsome)
    as (p' & Hp' & Hfirst').
  split.
  - rewrite Hp, Hp'. do 2 f_equal.
    eapply first_available_unique; eassumption.
  - exists p. split; [exact Hp|].
    pose proof Hfirst as (before & after & Hchain & Hb & Hu & Hall).
    split; [exact Hu|].
    assert (Hid : match_photo_id (photo_url p) = Some p).
    { apply library_ids_round_trip.
      apply (chain_in_library category). rewrite Hchain.
      apply elem_of_app. right. apply elem_of_cons. by left. }
    unfold exec, reserveCoverPhoto. rewrite Hid.
    unfold bind, get, when, modify, ret.
    apply JsFacts.arr_includes_false in Hu. rewrite Hu. cbn. split; reflexivity.
Qed.

(** With every catalogued photo used, the draw picks among the non-blocked
    photos of the whole catalogue; a draw of one half picks the 28th of 54. *)
Example getUniqueCoverPhoto_exhausted :
  let this := {| data := {| version := "1.0.0"; lastUpdated := "";
                            publishedBlogs := [];
                            usedCoverPhotos := values_flat COVER_PHOTO_LIBRARY |};
                 dirty := false |} in
  fst (getUniqueCoverPhoto (Some "queens") (1 # 2) this)
  = Eff.Ok (photo_url "photo-1567684014761-b65e2e59b9eb").
Proof. vm_compute. reflexivity. Qed.

End CoverPhotoFacts.

(** ** The registry: slugs and locations *)

Module RegistryFacts.
Import StateM BlogRegistry Specification Examples.

Lemma hasSlug_eval (s : string) (this : BlogRegistry) :
  eval (hasSlug s) this
  = existsb (fun blog => String.eqb (lower_slug (slug blog)) (lower_slug s))
            (publishedBlogs (data this)).
Proof. reflexivity. Qed.

Lemma registerBlog_exec (blog : PublishedBlog) (this : BlogRegistry) :
  exec (registerBlog blog) this
  = set_dirty (publish_if_new blog (reserve_photo_of blog this)).
Proof.
  unfold exec, registerBlog, bind, when, get, modify, ret,
    publish_if_new, reserve_photo_of.
  rewrite hasSlug_eval. unfold hasSlug, bind, get, ret.
  destruct (truthy (coverPhotoId blog)); cbn [andb];
    [destruct (negb (Js.arr_includes _ _))|]; cbn;
    destruct (existsb _ _); reflexivity.
Qed.

Lemma reserve_photo_of_blogs (blog : PublishedBlog) (this : BlogRegistry) :
  publishedBlogs (data (reserve_photo_of blog this)) = publishedBlogs (data this).
Proof. unfold reserve_photo_of. destruct (_ && _); reflexivity. Qed.

Lemma publish_if_new_used (blog : PublishedBlog) (this : BlogRegistry) :
  usedCoverPhotos (data (publish_if_new blog this)) = usedCoverPhotos (data this).
Proof. unfold publish_if_new. destruct (eval _ _); reflexivity. Qed.

Lemma publish_if_new_known (blog : PublishedBlog) (this : BlogRegistry) (variant : string) :
  lower_slug variant = lower_slug (slug blog) →
  eval (hasSlug variant) (publish_if_new blog this) = true.
Proof.
  intros Hnorm. unfold publish_if_new.
  destruct (eval (hasSlug (slug blog)) this) eqn:Hknown.
  - rewrite hasSlug_eval in *. rewrite Hnorm. exact Hknown.
  - rewrite hasSlug_eval. cbn [push_publishedBlog data publishedBlogs].
    rewrite existsb_app. cbn [existsb with_source slug].
    rewrite Hnorm, String.eqb_refl. by rewrite orb_true_r.
Qed.

(** The normalisation of [hasSlug] is the normal form of the
    specification, character by character. *)
Lemma lower_slug_char (c : ascii) :
  (let c' := Js.lower_char c in
   if Js.is_lower c' || Js.is_digit c' || Ascii.eqb c' "-" then Some c' else None)
  = kept_as c.
Proof. destruct c as [[] [] [] [] [] [] [] []]; vm_compute; reflexivity. Qed.

Lemma lower_slug_normal_form (s : string) : lower_slug s = slug_normal_form s.
Proof.
  unfold lower_slug, Js.strip_outside.
  apply (JsFacts.toLowerCase_steps
           (fun s lowered =>
              Js.keep_chars
                (fun c => Js.is_lower c || Js.is_digit c || Ascii.eqb c "-") lowered
              = slug_normal_form s)).
  - reflexivity.
  - intros r IH.
    change (String "i" (Js.keep_chars
                          (fun c => Js.is_lower c || Js.is_digit c || Ascii.eqb c "-")
                          (Js.toLowerCase r))
            = String "i" (slug_normal_form r)).
    by rewrite IH.
  - intros r IH.
    change (String "k" (Js.keep_chars
                          (fun c => Js.is_lower c || Js.is_digit c || Ascii.eqb c "-")
                          (Js.toLowerCase r))
            = String "k" (slug_normal_form r)).
    by rewrite IH.
  - intros c r Hdot Hkelvin IH.
    cbn [Js.keep_chars slug_normal_form]. rewrite Hdot, Hkelvin, <- lower_slug_char.
    cbv zeta. destruct (_ || _); by rewrite IH.
Qed.

(** C5. After [registerBlog] of a document, [hasSlug] holds for its slug and
    for every variant with the same normal form (lower-case, without the
    characters outside [[a-z0-9-]]); registering a document whose slug is
    that slug, or a variant of it, again leaves the list of published blogs
    as it is; and a non-empty cover photo id of the document is in the used
    list afterwards, appended once when it was not there, with the list
    left alone when it was, also by a second registration; an empty id
    leaves the used list alone. *)
Theorem registerBlog_registers_slug_and_photo
        (this : BlogRegistry) (blog again : PublishedBlog) (variant : string) :
  slug_normal_form variant = slug_normal_form (slug blog) →
  slug_normal_form (slug again) = slug_normal_form (slug blog) →
  let this1 := exec (registerBlog blog) this in
  let used := usedCoverPhotos (data this) in
  let used1 := usedCoverPhotos (data this1) in
  eval (hasSlug (slug blog)) this1 = true
  ∧ eval (hasSlug variant) this1 = true
  ∧ publishedBlogs (data (exec (registerBlog again) this1))
    = publishedBlogs (data this1)
  ∧ (coverPhotoId blog ≠ "" →
     coverPhotoId blog ∈ used1
     ∧ (coverPhotoId blog ∉ used → used1 = (used ++ [coverPhotoId blog])%list)
     ∧ (coverPhotoId blog ∈ used → used1 = used)
     ∧ usedCoverPhotos (data (exec (registerBlog blog) this1)) = used1)
  ∧ (coverPhotoId blog = "" → used1 = used).
Proof.
  intros Hvariant Hagain this1 used used1.
  rewrite <- !lower_slug_normal_form in Hvariant, Hagain.
  assert (Hknown : ∀ other,
             lower_slug other = lower_slug (slug blog) →
             eval (hasSlug other) this1 = true).
  { intros other Hnorm. subst this1. rewrite registerBlog_exec.
    rewrite hasSlug_eval. cbn [set_dirty data].
    rewrite <- hasSlug_eval. by apply publish_if_new_known. }
  assert (Hused1 : used1 = usedCoverPhotos (data (reserve_photo_of blog this))).
  { subst used1 this1. rewrite registerBlog_exec. cbn [set_dirty data].
    apply publish_if_new_used. }
  split; [by apply Hknown|]. split; [by apply Hknown|]. split; [|split].
  - rewrite registerBlog_exec. cbn [set_dirty data].
    unfold publish_if_new.
    assert (Hfound : eval (hasSlug (slug again)) (reserve_photo_of again this1) = true).
    { rewrite hasSlug_eval, reserve_photo_of_blogs, <- hasSlug_eval.
      by apply Hknown. }
    rewrite Hfound. apply reserve_photo_of_blogs.
  - intros Hphoto. apply JsFacts.truthy_true in Hphoto.
    assert (Hcases :
              (coverPhotoId blog ∉ used → used1 = (used ++ [coverPhotoId blog])%list)
              ∧ (coverPhotoId blog ∈ used → used1 = used)).
    { rewrite Hused1. unfold reserve_photo_of. rewrite Hphoto. cbn [andb]. subst used.
      destruct (Js.arr_includes (usedCoverPhotos (data this)) (coverPhotoId blog))
        eqn:Hin; cbn [negb].
      - apply JsFacts.arr_includes_true in Hin. split; [contradiction | reflexivity].
      - apply JsFacts.arr_includes_false in Hin. split; [reflexivity | contradiction]. }
    destruct Hcases as [Hnew Hold].
    assert (Hin1 : coverPhotoId blog ∈ used1).
    { destruct (decide (coverPhotoId blog ∈ used)) as [Hin|Hnin].
      - by rewrite (Hold Hin).
      - rewrite (Hnew Hnin). apply elem_of_app. right. apply elem_of_cons. by left. }
    repeat split; try assumption.
    rewrite registerBlog_exec. cbn [set_dirty data]. rewrite publish_if_new_used.
    unfold reserve_photo_of. rewrite Hphoto. cbn [andb]. fold used1.
    apply JsFacts.arr_includes_true in Hin1. rewrite Hin1. reflexivity.
  - intros Hnone. rewrite Hused1. unfold reserve_photo_of. by rewrite Hnone.
Qed.

(** The post on Harlem, looked up under a variant that differs in casing
    and punctuation, and registered again under another such variant. *)
Lemma registerBlog_registers_slug_and_photo_witness :
  let again := with_source usta_react
                 {| slug := "Harlem-Manhattan-GEOGRAPHIC-Farming-Guide!?";
                    neighborhood := "Harlem"; borough := None; city := None;
                    state := "NY"; publishedAt := "2026-02-01";
                    coverPhotoId := ""; source := seo |} in
  let this1 := exec (registerBlog harlem) empty_registry in
  eval (hasSlug (slug harlem)) this1 = true
  ∧ eval (hasSlug "HARLEM-Manhattan-Geo_graphic-Farming-Guide!") this1 = true
  ∧ publishedBlogs (data (exec (registerBlog again) this1))
    = publishedBlogs (data this1)
  ∧ usedCoverPhotos (data this1) = [coverPhotoId harlem].
Proof.
  pose proof (registerBlog_registers_slug_and_photo
                empty_registry harlem
                (with_source usta_react
                   {| slug := "Harlem-Manhattan-GEOGRAPHIC-Farming-Guide!?";
                      neighborhood := "Harlem"; borough := None; city := None;
                      state := "NY"; publishedAt := "2026-02-01";
                      coverPhotoId := ""; source := seo |})
                "HARLEM-Manhattan-Geo_graphic-Farming-Guide!"
                ltac:(vm_compute; reflexivity) ltac:(vm_compute; reflexivity))
    as (Hslug & Hvariant & Hagain & Hphoto & _).
  split; [exact Hslug|]. split; [exact Hvariant|]. split; [exact Hagain|].
  destruct Hphoto as (_ & Hnew & _); [discriminate|].
  apply Hnew. cbn. apply not_elem_of_nil.
Defined.

(** A registered slug is found again under other casing and punctuation. *)
Example hasSlug_variants :
  map (fun s => eval (hasSlug s) harlem_registry)
      ["harlem-manhattan-geographic-farming-guide";
       "Harlem-Manhattan-Geographic-Farming-Guide";
       "harlem-manhattan-geographic-farming-guide!";
       " harlem-manhattan geographic-farming-guide"]
  = [true; true; true; false].
Proof. vm_compute. reflexivity. Qed.

Lemma field_guard (query stored : string) :
  truthy query && truthy stored && negb (String.eqb stored query) = false
  ↔ field_compatible query stored.
Proof.
  unfold field_compatible.
  destruct (truthy query) eqn:Hq; cbn [andb].
  - destruct (truthy stored) eqn:Hs; cbn [andb].
    + rewrite negb_false_iff, String.eqb_eq.
      apply JsFacts.truthy_true in Hq, Hs. tauto.
    + apply not_true_iff_false in Hs. rewrite JsFacts.truthy_true in Hs.
      destruct (decide (stored = "")); tauto.
  - apply not_true_iff_false in Hq. rewrite JsFacts.truthy_true in Hq.
    destruct (decide (query = "")); tauto.
Qed.

(** C6, as the code has it. [hasNeighborhood] holds exactly when some
    published blog has the same neighbourhood after lower-casing and
    stripping non-alphanumerics, and is compatible in borough (normalised
    the same way) and in state (lower-cased only); a field constrains the
    match only when both the query value and the stored value are
    non-empty. *)
Theorem hasNeighborhood_characterisation
        (this : BlogRegistry) (name : string) (qualifier region : option string) :
  eval (hasNeighborhood name qualifier region) this = true
  ↔ ∃ blog,
      blog ∈ publishedBlogs (data this)
      ∧ lower_alnum (neighborhood blog) = lower_alnum name
      ∧ field_compatible (opt_or_empty lower_alnum qualifier)
                         (opt_or_empty lower_alnum (borough blog))
      ∧ field_compatible (opt_or_empty Js.toLowerCase region)
                         (Js.toLowerCase (state blog)).
Proof.
  unfold eval, hasNeighborhood, bind, get, ret. cbn [fst].
  rewrite JsFacts.existsb_elem_of.
  split.
  - intros (blog & Hin & Hmatch). exists blog. split; [exact Hin|].
    destruct (String.eqb_spec (lower_alnum (neighborhood blog)) (lower_alnum name))
      as [Hname|Hname]; cbn [negb] in Hmatch; [|discriminate].
    split; [exact Hname|].
    destruct (truthy (opt_or_empty lower_alnum qualifier)
              && truthy (opt_or_empty lower_alnum (borough blog))
              && negb (String.eqb (opt_or_empty lower_alnum (borough blog))
                                  (opt_or_empty lower_alnum qualifier)))
      eqn:Hborough; [discriminate|].
    destruct (truthy (opt_or_empty Js.toLowerCase region)
              && truthy (Js.toLowerCase (state blog))
              && negb (String.eqb (Js.toLowerCase (state blog))
                                  (opt_or_empty Js.toLowerCase region)))
      eqn:Hstate; [discriminate|].
    split; by apply field_guard.
  - intros (blog & Hin & Hname & Hborough & Hstate). exists blog.
    split; [exact Hin|].
    apply field_guard in Hborough, Hstate.
    rewrite Hname, String.eqb_refl. cbn [negb].
    rewrite Hborough, Hstate. reflexivity.
Qed.

(** C6, counterexample. A blog stored for Harlem, Manhattan, NY is not
    found under the region "N.Y.": the code lower-cases the state and does
    not strip it, while the location query as specified matches. *)
Lemma hasNeighborhood_state_not_stripped :
  eval (hasNeighborhood "Harlem" (Some "Manhattan") (Some "N.Y.")) harlem_registry
  = false
  ∧ hasLocation_as_specified (publishedBlogs (data harlem_registry))
                             "Harlem" (Some "Manhattan") (Some "N.Y.")
    = true.
Proof. split; vm_compute; reflexivity. Qed.

(** The query of the usage note in the source file finds the blog. *)
Example hasNeighborhood_found :
  eval (hasNeighborhood "harlem" (Some "manhattan") (Some "ny")) harlem_registry = true
  ∧ eval (hasNeighborhood "HARLEM" None None) harlem_registry = true
  ∧ eval (hasNeighborhood "harlem" (Some "brooklyn") (Some "ny")) harlem_registry = false.
Proof. repeat split; vm_compute; reflexivity. Qed.

End RegistryFacts.

(** ** Phrase extraction *)

Module PhraseFacts.
Import Types UniquenessEngine.

(** The loop bound [words.length - 4] gives one phrase per word beyond the
    fourth. *)
Lemma extractKeyPhrases_length (content : string) :
  List.length (extractKeyPhrases content) = (List.length (key_words content) - 4)%nat.
Proof. unfold extractKeyPhrases. by rewrite length_map, length_seq. Qed.

(** Each phrase is a window of four consecutive words, in order of occurrence. *)
Lemma extractKeyPhrases_lookup (content : string) (i : nat) :
  (i < List.length (key_words content) - 4)%nat →
  extractKeyPhrases content !! i
  = Some (Js.join " " (take 4 (drop i (key_words content)))).
Proof.
  intros Hi. unfold extractKeyPhrases, Js.slice.
  rewrite list_lookup_fmap, lookup_seq_lt by exact Hi. cbn.
  by replace (i + 4 - i)%nat with 4%nat by lia.
Qed.

(** The last window of a text, the one that ends with its last word, is not
    among the phrases by position: there are only [n - 4] of them. *)
Lemma extractKeyPhrases_stops_before_last_window (content : string) :
  extractKeyPhrases content !! (List.length (key_words content) - 4)%nat = None.
Proof. apply lookup_ge_None. rewrite extractKeyPhrases_length. lia. Qed.

(** C2. A text of exactly four meaningful words yields no phrase, although
    its four words form one contiguous window of four. *)
Theorem extractKeyPhrases_four_words_no_phrase :
  key_words "alpha bravo charlie delta" = ["alpha"; "bravo"; "charlie"; "delta"]
  ∧ extractKeyPhrases "alpha bravo charlie delta" = []
  ∧ Js.join " " (Js.slice 0 4 (key_words "alpha bravo charlie delta"))
    = "alpha bravo charlie delta".
Proof. repeat split; vm_compute; reflexivity. Qed.

(** With five words there are two windows of four; only the first is
    returned. *)
Example extractKeyPhrases_five_words :
  extractKeyPhrases "Alpha bravo the charlie delta echos"
  = ["alpha bravo charlie delta"].
Proof. vm_compute. reflexivity. Qed.

(** Frontmatter and markdown characters do not reach the phrases. *)
Example extractKeyPhrases_markdown :
  extractKeyPhrases
    ("---" ++ String "010" ("title: x" ++ String "010" ("---" ++ String "010"
     "# Alpha the *bravo* (charlie) delta echos foxtrot")))
  = ["alpha bravo charlie delta"; "bravo charlie delta echos"].
Proof. vm_compute. reflexivity. Qed.

(** Fewer than four meaningful words give no phrase. *)
Lemma extractKeyPhrases_short (content : string) :
  (List.length (key_words content) < 4)%nat → extractKeyPhrases content = [].
Proof.
  intros Hshort. apply nil_length_inv. rewrite extractKeyPhrases_length. lia.
Qed.

End PhraseFacts.

(** ** Differentiation and quality scores *)

Module ScoreFacts.
Import Types.

Local Open Scope Q_scope.

(** The counting loop counts the data points whose leading characters occur
    in the text. *)
Lemma count_facts_filter (n : nat) (content : string) (dps : list DataPoint) :
  UniquenessEngine.count_facts n content dps
  = List.length
      (List.filter (fun dp => UniquenessEngine.leading_in n content (fact dp)) dps).
Proof.
  unfold UniquenessEngine.count_facts.
  assert (Hgen : ∀ acc,
             fold_left
               (fun count dp =>
                  if UniquenessEngine.leading_in n content (fact dp)
                  then S count else count) dps acc
             = (acc + List.length
                        (List.filter
                           (fun dp => UniquenessEngine.leading_in n content (fact dp))
                           dps))%nat).
  { induction dps as [|dp rest IH]; intros acc; cbn [fold_left List.filter].
    - cbn. lia.
    - rewrite IH. destruct (UniquenessEngine.leading_in n content (fact dp)); cbn; lia. }
  by rewrite Hgen.
Qed.

Lemma count_facts_le (n : nat) (content : string) (dps : list DataPoint) :
  (UniquenessEngine.count_facts n content dps <= List.length dps)%nat.
Proof. rewrite count_facts_filter. apply List.filter_length_le. Qed.

(** C3, as the code has it. Both generators compute
    [angleScore = 1 - maxSimilarity] and
    [dataScore = uniqueFactCount / max(|dataPoints|, 1)], where
    [uniqueFactCount] counts the data points whose leading characters occur
    in the text, case-insensitively. The local-model generator reads 30
    leading characters and scores the insight 1 when present and 0.5
    otherwise; the remote-model generator reads 50 leading characters and
    scores the insight 1 when present and 0 otherwise. *)
Theorem evaluateDifferentiation_component_scores
        (content : string) (brief : ContentBrief)
        (remote : ContentGenerator.t) (ollama : OllamaContentGenerator.t) :
  let facts n :=
    List.length
      (List.filter (fun dp => UniquenessEngine.leading_in n content (fact dp))
                   (dataPoints brief)) in
  let o := OllamaContentGenerator.evaluateDifferentiation content brief ollama in
  let r := ContentGenerator.evaluateDifferentiation content brief remote in
  (angleScore o
   = 1 - fst (OllamaContentGenerator.calculateOverallSimilarity
                content (OllamaContentGenerator.uniquenessEngine ollama))
   ∧ uniqueFactCount o = facts 30%nat
   ∧ dataScore o = ratio (facts 30%nat) (Nat.max (List.length (dataPoints brief)) 1)
   ∧ insightScore o
     = if UniquenessEngine.leading_in 30 content (uniqueInsight brief)
       then 1 else 5 # 10)
  ∧ (angleScore r
     = 1 - fst (UniquenessEngine.calculateOverallSimilarity
                  content (ContentGenerator.uniquenessEngine remote))
     ∧ uniqueFactCount r = facts 50%nat
     ∧ dataScore r = ratio (facts 50%nat) (Nat.max (List.length (dataPoints brief)) 1)
     ∧ insightScore r
       = if UniquenessEngine.leading_in 50 content (uniqueInsight brief)
         then 1 else 0).
Proof.
  intros facts o r. subst facts o r.
  unfold OllamaContentGenerator.evaluateDifferentiation,
    ContentGenerator.evaluateDifferentiation.
  destruct (OllamaContentGenerator.calculateOverallSimilarity _ _) as [simO slugO].
  destruct (UniquenessEngine.calculateOverallSimilarity _ _) as [simR slugR].
  cbn [angleScore uniqueFactCount dataScore insightScore fst].
  rewrite !count_facts_filter. repeat split; reflexivity.
Qed.

(** C3, counterexample. On the remote-model generator a text that holds the
    leading 30 characters of the insight, but not its leading 50, gets an
    insight score of 0 where the claim says 1, and a text without the insight
    gets 0 where the claim says 0.5. *)
Lemma remote_insightScore_is_zero :
  UniquenessEngine.leading_in
    30 Examples.text_with_insight_start (uniqueInsight Examples.sample_brief) = true
  ∧ insightScore (ContentGenerator.evaluateDifferentiation
                    Examples.text_with_insight_start Examples.sample_brief
                    Examples.fresh_remote) = 0
  ∧ UniquenessEngine.leading_in
      30 Examples.text_without_insight (uniqueInsight Examples.sample_brief) = false
  ∧ insightScore (ContentGenerator.evaluateDifferentiation
                    Examples.text_without_insight Examples.sample_brief
                    Examples.fresh_remote) = 0.
Proof. repeat split; vm_compute; reflexivity. Qed.

(** On the local-model generator the same two texts score 1 and 0.5. *)
Example ollama_insightScore_values :
  insightScore (OllamaContentGenerator.evaluateDifferentiation
                  Examples.text_with_insight_start Examples.sample_brief
                  Examples.fresh_ollama) = 1
  ∧ insightScore (OllamaContentGenerator.evaluateDifferentiation
                    Examples.text_without_insight Examples.sample_brief
                    Examples.fresh_ollama) = 5 # 10.
Proof. split; vm_compute; reflexivity. Qed.

Import Specification.

Lemma ratio_unit (a b : nat) :
  (a <= b)%nat → (0 < b)%nat → unit_interval (ratio a b).
Proof.
  intros Hab Hb. unfold unit_interval, ratio, Qle. cbn [Qnum Qden].
  assert (Hden : Z.pos (Pos.of_nat b) = Z.of_nat b).
  { rewrite <- positive_nat_Z, Nat2Pos.id by lia. reflexivity. }
  rewrite Hden. split; lia.
Qed.

Lemma overlap_ratio_unit (newPhrases existingSet : gset string) :
  unit_interval (UniquenessEngine.overlap_ratio newPhrases existingSet).
Proof.
  unfold UniquenessEngine.overlap_ratio. apply ratio_unit; [|lia].
  etransitivity; [apply List.filter_length_le|].
  change (size newPhrases) with (List.length (elements newPhrases)). lia.
Qed.

Lemma keep_max_unit (acc : Q * string) (similarity : Q) (slug : string) :
  unit_interval (fst acc) → unit_interval similarity →
  unit_interval (fst (UniquenessEngine.keep_max acc similarity slug)).
Proof.
  intros Hacc Hsim. unfold UniquenessEngine.keep_max.
  destruct (Qgtb similarity (fst acc)); assumption.
Qed.

(** The maximum kept by a similarity loop stays in the unit interval when
    every turn of the loop keeps it there. *)
Lemma fold_unit {A} (step : Q * string → A → Q * string)
      (entries : list A) (acc : Q * string) :
  (∀ acc entry, unit_interval (fst acc) → unit_interval (fst (step acc entry))) →
  unit_interval (fst acc) →
  unit_interval (fst (fold_left step entries acc)).
Proof.
  intros Hstep. revert acc.
  induction entries as [|entry rest IH]; intros acc Hacc; cbn [fold_left]; [exact Hacc|].
  apply IH. by apply Hstep.
Qed.

Lemma zero_unit : unit_interval 0.
Proof. split; discriminate. Qed.

Lemma calculateSimilarity_unit (newContent slug : string) (engine : UniquenessEngine.t) :
  unit_interval (UniquenessEngine.calculateSimilarity newContent slug engine).
Proof.
  unfold UniquenessEngine.calculateSimilarity.
  destruct (UniquenessEngine.content_get _ _); [apply overlap_ratio_unit | apply zero_unit].
Qed.

Lemma remote_maxSimilarity_unit (newContent : string) (engine : UniquenessEngine.t) :
  unit_interval (fst (UniquenessEngine.calculateOverallSimilarity newContent engine)).
Proof.
  unfold UniquenessEngine.calculateOverallSimilarity.
  apply fold_unit; [|apply zero_unit].
  intros acc entry Hacc.
  apply keep_max_unit; [exact Hacc | apply calculateSimilarity_unit].
Qed.

Lemma ollama_maxSimilarity_unit (newContent : string) (engine : UniquenessEngine.t) :
  unit_interval (fst (OllamaContentGenerator.calculateOverallSimilarity newContent engine)).
Proof.
  unfold OllamaContentGenerator.calculateOverallSimilarity.
  apply fold_unit; [|apply zero_unit].
  intros acc [slug existingPhrases] Hacc.
  apply keep_max_unit; [exact Hacc | apply overlap_ratio_unit].
Qed.

Lemma dataScore_unit (n : nat) (content : string) (dps : list DataPoint) :
  unit_interval
    (ratio (UniquenessEngine.count_facts n content dps) (Nat.max (List.length dps) 1)).
Proof.
  apply ratio_unit; [|lia].
  pose proof (count_facts_le n content dps). lia.
Qed.

(** The weighted sum of three scores of the unit interval is in it. *)
Lemma weighted_sum_unit (maxSimilarity data insight : Q) :
  unit_interval maxSimilarity → unit_interval data → unit_interval insight →
  unit_interval
    ((1 - maxSimilarity) * (4 # 10) + data * (35 # 100) + insight * (25 # 100)).
Proof. unfold unit_interval. intros [? ?] [? ?] [? ?]. split; lra. Qed.

Lemma bonus_nonneg (earned : bool) (score bonus : Q) :
  0 <= score → 0 <= bonus → 0 <= (if earned then score + bonus else score).
Proof. intros Hs Hb. destruct earned; [lra | exact Hs]. Qed.

(** The three word-count tiers exclude one another and add no negative
    amount. *)
Lemma tier_nonneg (top middle low : bool) :
  0 <= (if top then 0 + (3 # 10)
        else if middle then 0 + (2 # 10)
        else if low then 0 + (1 # 10)
        else 0).
Proof. destruct top, middle, low; discriminate. Qed.

Lemma evaluateQuality_unit (content : string) (brief : ContentBrief) :
  unit_interval (OllamaContentGenerator.evaluateQuality content brief).
Proof.
  unfold OllamaContentGenerator.evaluateQuality. cbv zeta. split.
  - apply Q.min_glb; [|discriminate].
    do 6 (apply bonus_nonneg; [|discriminate]).
    apply tier_nonneg.
  - apply Q.le_min_r.
Qed.

(** The overall score is the weighted sum of the three component scores. *)
Lemma overallScore_weights
      (content : string) (brief : ContentBrief)
      (remote : ContentGenerator.t) (ollama : OllamaContentGenerator.t) :
  let r := ContentGenerator.evaluateDifferentiation content brief remote in
  let o := OllamaContentGenerator.evaluateDifferentiation content brief ollama in
  overallScore r
  = angleScore r * (4 # 10) + dataScore r * (35 # 100) + insightScore r * (25 # 100)
  ∧ overallScore o
    = angleScore o * (4 # 10) + dataScore o * (35 # 100) + insightScore o * (25 # 100).
Proof.
  cbv zeta.
  unfold ContentGenerator.evaluateDifferentiation,
    OllamaContentGenerator.evaluateDifferentiation.
  destruct (UniquenessEngine.calculateOverallSimilarity _ _) as [simR slugR].
  destruct (OllamaContentGenerator.calculateOverallSimilarity _ _) as [simO slugO].
  split; reflexivity.
Qed.

(** C7. The overall differentiation score, the sum of 0.4 times the angle
    score, 0.35 times the data score and 0.25 times the insight score, lies
    between 0 and 1 for either generator, for every text, brief and loaded
    corpus; and so does the additive quality score, which is never negative
    and never above the cap of 1. *)
Theorem scores_in_unit_interval
        (content : string) (brief : ContentBrief)
        (remote : ContentGenerator.t) (ollama : OllamaContentGenerator.t) :
  let r := ContentGenerator.evaluateDifferentiation content brief remote in
  let o := OllamaContentGenerator.evaluateDifferentiation content brief ollama in
  (overallScore r
   = angleScore r * (4 # 10) + dataScore r * (35 # 100) + insightScore r * (25 # 100)
   ∧ unit_interval (overallScore r))
  ∧ (overallScore o
     = angleScore o * (4 # 10) + dataScore o * (35 # 100) + insightScore o * (25 # 100)
     ∧ unit_interval (overallScore o))
  ∧ unit_interval (OllamaContentGenerator.evaluateQuality content brief).
Proof.
  intros r o.
  destruct (overallScore_weights content brief remote ollama) as [Hr Ho].
  split; [|split].
  - split; [exact Hr|]. subst r.
    unfold ContentGenerator.evaluateDifferentiation.
    pose proof (remote_maxSimilarity_unit
                  content (ContentGenerator.uniquenessEngine remote)) as Hsim.
    destruct (UniquenessEngine.calculateOverallSimilarity _ _) as [sim slug].
    cbn [overallScore]. cbn [fst] in Hsim.
    apply weighted_sum_unit; [exact Hsim | apply dataScore_unit |].
    destruct (UniquenessEngine.leading_in _ _ _); split; discriminate.
  - split; [exact Ho|]. subst o.
    unfold OllamaContentGenerator.evaluateDifferentiation.
    pose proof (ollama_maxSimilarity_unit
                  content (OllamaContentGenerator.uniquenessEngine ollama)) as Hsim.
    destruct (OllamaContentGenerator.calculateOverallSimilarity _ _) as [sim slug].
    cbn [overallScore]. cbn [fst] in Hsim.
    apply weighted_sum_unit; [exact Hsim | apply dataScore_unit |].
    destruct (UniquenessEngine.leading_in _ _ _); split; discriminate.
  - apply evaluateQuality_unit.
Qed.

(** With every tier and bonus earned the score reaches the cap up to the
    rounding of the seven additions: it is above 0.99 and at most 1. *)
Example evaluateQuality_every_bonus :
  let score :=
    OllamaContentGenerator.evaluateQuality
      Examples.text_with_every_bonus Examples.sample_brief in
  99 # 100 < score ∧ score <= 1.
Proof. vm_compute. split; [reflexivity | discriminate]. Qed.

End ScoreFacts.

(** ** Angle rotation *)

Module AngleFacts.
Import Types Eff Specification.

Lemma registerAngle_used (topic angle other : string) (engine : UniquenessEngine.t) :
  used_for other (UniquenessEngine.registerAngle topic angle engine)
  = if decide (topic = other)
    then used_for other engine ∪ {[angle]}
    else used_for other engine.
Proof.
  unfold used_for, UniquenessEngine.registerAngle.
  cbn [UniquenessEngine.usedAngles].
  destruct (UniquenessEngine.usedAngles engine !! topic) as [used|] eqn:Hlook.
  - rewrite Hlook. destruct (decide (topic = other)) as [<-|Hne].
    + by rewrite lookup_insert_eq, Hlook.
    + by rewrite lookup_insert_ne.
  - rewrite lookup_insert_eq. destruct (decide (topic = other)) as [<-|Hne].
    + by rewrite lookup_insert_eq, Hlook.
    + by rewrite !lookup_insert_ne.
Qed.

(** Registration is idempotent and never forgets an angle. *)
Lemma registerAngle_keeps (topic angle other a : string) (engine : UniquenessEngine.t) :
  a ∈ used_for other engine →
  a ∈ used_for other (UniquenessEngine.registerAngle topic angle engine).
Proof. rewrite registerAngle_used. destruct (decide _); set_solver. Qed.

Lemma registerAngle_adds (topic angle : string) (engine : UniquenessEngine.t) :
  angle ∈ used_for topic (UniquenessEngine.registerAngle topic angle engine).
Proof. rewrite registerAngle_used. destruct (decide _); [set_solver | done]. Qed.

Lemma register_all_keeps (calls : list (string * string)) (other a : string)
      (engine : UniquenessEngine.t) :
  a ∈ used_for other engine → a ∈ used_for other (register_all calls engine).
Proof.
  revert engine. unfold register_all.
  induction calls as [|[topic angle] rest IH]; intros engine Hin; cbn [fold_left];
    [exact Hin|].
  apply IH. by apply registerAngle_keeps.
Qed.

Lemma register_all_adds (calls : list (string * string)) (topic angle : string)
      (engine : UniquenessEngine.t) :
  (topic, angle) ∈ calls → angle ∈ used_for topic (register_all calls engine).
Proof.
  revert engine. unfold register_all.
  induction calls as [|[topic' angle'] rest IH]; intros engine Hin.
  - by apply elem_of_nil in Hin.
  - cbn [fold_left fst snd]. apply elem_of_cons in Hin as [Heq|Hin].
    + injection Heq as <- <-.
      apply (register_all_keeps rest). apply registerAngle_adds.
    + by apply IH.
Qed.

Lemma available_in_nil (table : SearchIntent → option (list string))
      (topic : string) (intent : SearchIntent) (engine : UniquenessEngine.t) :
  (∀ angle,
      angle ∈ UniquenessEngine.angles_or_informational table intent →
      angle ∈ used_for topic engine) →
  UniquenessEngine.available_in table topic intent engine = [].
Proof.
  unfold UniquenessEngine.available_in. fold (used_for topic engine).
  generalize (UniquenessEngine.angles_or_informational table intent).
  intros angles Hall. induction angles as [|angle rest IH]; [reflexivity|].
  rewrite filter_cons_False.
  - apply IH. intros a Ha. apply Hall. by apply elem_of_cons; right.
  - intros Hnot. apply Hnot, Hall. by apply elem_of_cons; left.
Qed.

(** C8. Once [registerAngle] has been called, among any other calls, for
    every angle of the list of an intent and for a topic, no angle is
    available for that topic and intent, and [generateBrief] throws the error
    that says all content angles are exhausted for the topic; it does so
    before any request is sent and leaves the generator as it was. *)
Theorem angles_exhausted_after_registering_all
        (create : ContentGenerator.Prompt → Result string)
        (parse_differentiators : string → option (list string))
        (parse_dataPoints : string → option (list DataPoint))
        (this : ContentGenerator.t) (initial : UniquenessEngine.t)
        (calls : list (string * string))
        (topic keyword : string) (intent : SearchIntent) (audience : string) :
  (∀ angle,
      angle ∈ UniquenessEngine.angles_or_informational
                UniquenessEngine.CONTENT_ANGLES intent →
      (topic, angle) ∈ calls) →
  ContentGenerator.uniquenessEngine this = register_all calls initial →
  UniquenessEngine.getAvailableAngles
    topic intent (ContentGenerator.uniquenessEngine this) = []
  ∧ ContentGenerator.generateBrief
      create parse_differentiators parse_dataPoints topic keyword intent audience this
    = (Throw (Error (ContentGenerator.exhausted_message topic)), this).
Proof.
  intros Hcalls Hengine.
  assert (Hnone : UniquenessEngine.getAvailableAngles
                    topic intent (ContentGenerator.uniquenessEngine this) = []).
  { apply available_in_nil. intros angle Hangle. rewrite Hengine.
    apply register_all_adds. by apply Hcalls. }
  split; [exact Hnone|].
  unfold ContentGenerator.generateBrief, bind, get. rewrite Hnone. reflexivity.
Qed.

(** The scenario of the specification: ten informational angles, all
    registered for one topic. *)
Lemma angles_exhausted_witness :
  UniquenessEngine.getAvailableAngles
    "crm" informational (ContentGenerator.uniquenessEngine Examples.exhausted_remote) = []
  ∧ ContentGenerator.generateBrief
      Examples.canned_create Examples.parse_nothing Examples.parse_nothing
      "crm" "crm software" informational "agents" Examples.exhausted_remote
    = (Throw (Error (ContentGenerator.exhausted_message "crm")),
       Examples.exhausted_remote).
Proof.
  apply (angles_exhausted_after_registering_all
           Examples.canned_create Examples.parse_nothing Examples.parse_nothing
           Examples.exhausted_remote UniquenessEngine.empty Examples.crm_calls).
  - intros angle Hangle. unfold Examples.crm_calls.
    apply (list_elem_of_fmap_2 (fun a => ("crm", a))). exact Hangle.
  - reflexivity.
Defined.

(** While an angle is left, the brief takes the first one and marks it used. *)
Example getAvailableAngles_after_one :
  UniquenessEngine.getAvailableAngles
    "crm" commercial
    (UniquenessEngine.registerAngle "crm" "buyer-guide" UniquenessEngine.empty)
  = ["alternatives-analysis"; "pros-cons"; "industry-specific"].
Proof. vm_compute. reflexivity. Qed.

End AngleFacts.

(** ** Content generation with the local model *)

Module GenerateContentFacts.
Import Types Eff Specification OllamaContentGenerator.

(** A string is shorter than [n] when it has fewer than [n] units. *)
Lemma shorter_than_text (coerced_below : Json.t → nat → bool) (n : nat) (s : string) :
  Json.shorter_than coerced_below n (Json.text s) = (Js.length s <? n)%nat.
Proof.
  unfold Json.shorter_than, Json.length_of, Json.below.
  destruct (Nat.ltb_spec (Js.length s) n) as [Hlt | Hge].
  - apply negb_true_iff, not_true_iff_false. rewrite Qle_bool_iff, <- Zle_Qle. lia.
  - apply negb_false_iff. rewrite Qle_bool_iff, <- Zle_Qle. lia.
Qed.

(** The guard on a string: it is rejected exactly when it has fewer than
    500 units; the empty string is one of these. *)
Lemma content_rejected_text (coerced_below : Json.t → nat → bool) (s : string) :
  content_rejected coerced_below (Some (Json.text s)) = (Js.length s <? 500)%nat.
Proof.
  unfold content_rejected. rewrite shorter_than_text. cbn [Json.truthy].
  destruct (String.eqb_spec s "") as [-> | _]; reflexivity.
Qed.

Section LocalClient.

Variable chat : ContentBrief → Result string.
Variable JSON_parse : string → option Json.t.
Variable coerced_below : Json.t → nat → bool.
Variable sha256_hex : string → string.

(** What [generateContent] does with the value it works on. *)
Lemma generateContent_run (brief : ContentBrief) (this : t) (response : string) :
  chat brief = Ok response →
  let value := candidate JSON_parse brief response in
  generateContent chat JSON_parse coerced_below sha256_hex brief this
  = (match Json.field "content" value with
     | Throw e => Throw e
     | Ok content =>
         if content_rejected coerced_below content then Throw too_short
         else match content with
              | Some (Json.text text) => Ok (built sha256_hex brief this value text)
              | _ => Throw content_not_a_string
              end
     end, this).
Proof.
  intros Hchat value. subst value.
  unfold generateContent, candidate, bind, of_result, try_catch, ret, throw, get.
  rewrite Hchat.
  destruct (OllamaClient.extractJSON JSON_parse response) as [d|e];
    match goal with
    | |- context [Json.field "content" ?v] =>
        destruct (Json.field "content" v) as [content|err]; [|reflexivity]
    end;
    (destruct (content_rejected coerced_below content); [reflexivity|]);
    destruct content as [[| | |text| |]|]; reflexivity.
Qed.

(** The read of [content] throws for [null] alone, and finds the candidate
    content otherwise. *)
Lemma field_content (brief : ContentBrief) (response : string) :
  let value := candidate JSON_parse brief response in
  (value = Json.null
   ∧ Json.field "content" value
     = Throw (TypeError "Cannot read properties of null (reading 'content')"))
  ∨ (value ≠ Json.null
     ∧ Json.field "content" value = Ok (candidate_content JSON_parse brief response)).
Proof.
  intros value. unfold candidate_content. fold value.
  destruct value; [by left|..]; right; by split.
Qed.

(** C9. For the response [null], which [JSON.parse] turns into the value
    [null], [generateContent] does not reach its guard: the read of
    [generatedData.content] throws a [TypeError], where the claim, for a
    candidate content that is absent, has the "too short" error. The
    generator is left as it was. *)
Theorem generateContent_null_response (brief : ContentBrief) (this : t) :
  chat brief = Ok "null" →
  JSON_parse "null" = Some Json.null →
  generateContent chat JSON_parse coerced_below sha256_hex brief this
  = (Throw (TypeError "Cannot read properties of null (reading 'content')"), this)
  ∧ candidate_content JSON_parse brief "null" = None
  ∧ too_short ≠ TypeError "Cannot read properties of null (reading 'content')".
Proof.
  intros Hchat Hparse.
  assert (Hvalue : candidate JSON_parse brief "null" = Json.null).
  { unfold candidate, OllamaClient.extractJSON.
    change (OllamaClient.try_patterns JSON_parse OllamaClient.jsonPatterns "null")
      with (@None Json.t).
    change (Js.trim "null") with "null". by rewrite Hparse. }
  split; [|split; [|discriminate]].
  - rewrite (generateContent_run brief this "null" Hchat). cbv zeta. by rewrite Hvalue.
  - unfold candidate_content. by rewrite Hvalue.
Qed.

(** X30. The outcome of [generateContent] for a response of the model.
    The generator is never changed. The "too short" error is thrown exactly
    when the value worked on is not [null] and its candidate content (the
    [content] property of the extracted value or, when the extraction
    fails, the raw response) is absent, falsy or shorter than 500; for a
    string that is: has fewer than 500 UTF-16 units. A result is returned
    exactly when the candidate content is a string of at least 500 units,
    and it carries that content. Every other error is a [TypeError], of the
    value [null] or of a content that is no string. In particular a failed
    extraction with a response of at least 500 units returns the response
    as content. *)
Theorem generateContent_guard (brief : ContentBrief) (this : t) (response : string) :
  chat brief = Ok response →
  let run := generateContent chat JSON_parse coerced_below sha256_hex brief this in
  let value := candidate JSON_parse brief response in
  let content := candidate_content JSON_parse brief response in
  snd run = this
  ∧ (fst run = Throw too_short
     ↔ value ≠ Json.null
       ∧ (content = None
          ∨ ∃ v, content = Some v
                 ∧ (Json.truthy v = false
                    ∨ Json.shorter_than coerced_below 500 v = true)))
  ∧ (∀ text, Json.shorter_than coerced_below 500 (Json.text text) = true
             ↔ (Js.length text < 500)%nat)
  ∧ (∀ generated,
        fst run = Ok generated
        ↔ ∃ text,
            content = Some (Json.text text)
            ∧ (500 <= Js.length text)%nat
            ∧ generated = built sha256_hex brief this value text
            ∧ Js.own_property (data generated) "content" = Some (Json.text text))
  ∧ (∀ e, fst run = Throw e → e ≠ too_short →
          Eff.name e = "TypeError"
          ∧ (value = Json.null
             ∨ ∃ v, content = Some v ∧ ∀ text, v ≠ Json.text text))
  ∧ ((∃ e, OllamaClient.extractJSON JSON_parse response = Throw e) →
     (500 <= Js.length response)%nat →
     ∃ generated,
       fst run = Ok generated
       ∧ Js.own_property (data generated) "content" = Some (Json.text response)).
Proof.
  intros Hchat run value content. subst run.
  rewrite (generateContent_run brief this response Hchat). cbv zeta. cbn [fst snd].
  fold value.
  assert (Htext : ∀ text, Json.shorter_than coerced_below 500 (Json.text text) = true
                          ↔ (Js.length text < 500)%nat).
  { intros text. by rewrite shorter_than_text, Nat.ltb_lt. }
  assert (Hrejected : content_rejected coerced_below content = true
                      ↔ content = None
                        ∨ ∃ v, content = Some v
                               ∧ (Json.truthy v = false
                                  ∨ Json.shorter_than coerced_below 500 v = true)).
  { unfold content_rejected. destruct content as [v|].
    - rewrite orb_true_iff, negb_true_iff. split.
      + intros Hv. right. by exists v.
      + intros [Hnone | (v' & [= <-] & Hv)]; [discriminate | exact Hv].
    - split; [by left | reflexivity]. }
  assert (Hdata : ∀ v, content = Some v → Js.own_property (Json.spread value) "content" = Some v).
  { intros v. subst content. unfold candidate_content. fold value.
    destruct value; try discriminate. cbn [Json.spread]. auto. }
  assert (Hfallback : (∃ e, OllamaClient.extractJSON JSON_parse response = Throw e) →
                      value ≠ Json.null ∧ content = Some (Json.text response)).
  { intros [e He]. subst content value. unfold candidate_content, candidate.
    rewrite He. by split. }
  split; [reflexivity|].
  destruct (field_content brief response) as [[Hnull Hfield] | [Hvalue Hfield]];
    try fold value in Hnull; try fold value in Hvalue; fold value in Hfield;
    fold content in Hfield; rewrite Hfield.
  - assert (Hcontent : content = None).
    { subst content. unfold candidate_content. fold value. by rewrite Hnull. }
    split; [split; [discriminate | by intros [Hne _]]|]. split; [exact Htext|].
    split; [|split].
    + intros generated. split; [discriminate|].
      intros (text & Hsome & _). congruence.
    + intros e [= <-] _. split; [reflexivity | by left].
    + intros Hfail _. by destruct (Hfallback Hfail).
  - destruct (content_rejected coerced_below content) eqn:Hrej.
    + pose proof (proj1 Hrejected eq_refl) as Hcases.
      split; [by split|]. split; [exact Htext|]. split; [|split].
      * intros generated. split; [discriminate|].
        intros (text & Hsome & Hlong & _). exfalso.
        rewrite Hsome, content_rejected_text in Hrej. apply Nat.ltb_lt in Hrej. lia.
      * intros e [= <-] Hne. by destruct Hne.
      * intros Hfail Hlong. exfalso. destruct (Hfallback Hfail) as [_ Hsome].
        rewrite Hsome, content_rejected_text in Hrej. apply Nat.ltb_lt in Hrej. lia.
    + assert (Hkept : ¬ (content = None
                         ∨ ∃ v, content = Some v
                                ∧ (Json.truthy v = false
                                   ∨ Json.shorter_than coerced_below 500 v = true))).
      { intros Hcases. by apply Hrejected in Hcases. }
      destruct content as [v|] eqn:Hcontent; [|by destruct Hkept; left].
      assert (Hshape : (∃ text, v = Json.text text) ∨ ¬ ∃ text, v = Json.text text).
      { destruct v; try (right; by intros [text' Heq]). left. by eexists. }
      destruct Hshape as [[text ->] | Hother].
      * rewrite content_rejected_text in Hrej. apply Nat.ltb_ge in Hrej.
        split; [split; [discriminate | by intros [_ Hcases]]|].
        split; [exact Htext|]. split; [|split].
        -- intros generated. split.
           ++ intros [= <-]. exists text. repeat split; auto.
           ++ intros (text' & [= <-] & _ & -> & _). reflexivity.
        -- intros e [=].
        -- intros Hfail _. destruct (Hfallback Hfail) as [_ [= ->]].
           eexists. split; [reflexivity|]. by apply Hdata.
      * assert (Hthrown : match v with
                          | Json.text text => Ok (built sha256_hex brief this value text)
                          | _ => Throw content_not_a_string
                          end = Throw content_not_a_string).
        { destruct v; try reflexivity. destruct Hother. by eexists. }
        rewrite Hthrown.
        split; [split; [discriminate | by intros [_ Hcases]]|].
        split; [exact Htext|]. split; [|split].
        -- intros generated. split; [discriminate|].
           intros (text & [= ->] & _). destruct Hother. by eexists.
        -- intros e [= <-] _. split; [reflexivity|]. right. exists v.
           split; [reflexivity|]. intros text ->. destruct Hother. by eexists.
        -- intros Hfail _. destruct (Hfallback Hfail) as [_ [= ->]].
           destruct Hother. by eexists.
Qed.

End LocalClient.

(** The response [null], parsed as JSON does. *)
Lemma generateContent_null_response_witness :
  generateContent Examples.null_chat Examples.parse_literal (fun _ _ => false)
                  (fun s => s) Examples.sample_brief Examples.fresh_ollama
  = (Throw (TypeError "Cannot read properties of null (reading 'content')"),
     Examples.fresh_ollama)
  ∧ candidate_content Examples.parse_literal Examples.sample_brief "null" = None
  ∧ too_short ≠ TypeError "Cannot read properties of null (reading 'content')".
Proof.
  apply (generateContent_null_response
           Examples.null_chat Examples.parse_literal (fun _ _ => false) (fun s => s)
           Examples.sample_brief Examples.fresh_ollama); reflexivity.
Defined.

(** A response that cannot be parsed and is short: the error is thrown. *)
Lemma generateContent_guard_witness :
  let run :=
    generateContent Examples.canned_chat (@Examples.parse_nothing Json.t)
                    (fun _ _ => false) (fun s => s)
                    Examples.sample_brief Examples.fresh_ollama in
  fst run = Throw too_short ∧ snd run = Examples.fresh_ollama.
Proof.
  pose proof (generateContent_guard
                Examples.canned_chat (@Examples.parse_nothing Json.t)
                (fun _ _ => false) (fun s => s)
                Examples.sample_brief Examples.fresh_ollama "not json" eq_refl)
    as (Hstate & Hshort & _).
  split; [|exact Hstate]. apply Hshort. split; [discriminate|].
  right. eexists. split; [reflexivity|]. right. reflexivity.
Defined.

(** A reply of 500 characters that cannot be parsed is kept as the content
    of the result: the failed extraction alone does not throw. *)
Example generateContent_fallback_long :
  ∃ generated,
    fst (generateContent Examples.canned_long_chat
                         (@Examples.parse_nothing Json.t) (fun _ _ => false) (fun s => s)
                         Examples.sample_brief Examples.fresh_ollama)
    = Ok generated
    ∧ Js.own_property (data generated) "content" = Some (Json.text Examples.long_reply)
    ∧ wordCount generated = 101%nat.
Proof. eexists. vm_compute. repeat split; reflexivity. Qed.

(** Contents that are no string: a number passes the guard and fails in
    the evaluation; a short array is too short; text of 250 characters of
    four bytes each has 500 units and is long enough. *)
Example generateContent_other_contents :
  let run value :=
    fst (generateContent Examples.null_chat (fun _ => Some value) (fun _ _ => false)
                         (fun s => s) Examples.sample_brief Examples.fresh_ollama) in
  run (Json.object [("content", Json.number (Json.finite 5))])
  = Throw content_not_a_string
  ∧ run (Json.object [("content", Json.array [Json.null])]) = Throw too_short
  ∧ run (Json.text (Examples.copies 600 "a")) = Throw too_short
  ∧ (∃ generated,
        run (Json.object
               [("content",
                 Json.text (Examples.copies 250 (String "240" (String "159" (String "143"
                                                  (String "160" ""))))))])
        = Ok generated).
Proof.
  vm_compute. split; [reflexivity|]. split; [reflexivity|]. split; [reflexivity|].
  eexists. reflexivity.
Qed.

End GenerateContentFacts.

(** ** The registry over a session of operations *)

Module RegistryOpsFacts.
Import StateM BlogRegistry Specification RegistryOps.

Lemma reserveCoverPhoto_exec (photoUrl : string) (this : BlogRegistry) :
  exec (reserveCoverPhoto photoUrl) this
  = match match_photo_id photoUrl with
    | Some photoId =>
        if Js.arr_includes (usedCoverPhotos (data this)) photoId then this
        else set_dirty (push_usedCoverPhoto photoId this)
    | None => this
    end.
Proof.
  unfold exec, reserveCoverPhoto.
  destruct (match_photo_id photoUrl) as [photoId|]; [|reflexivity].
  unfold bind, get, when, modify, ret. cbn.
  destruct (Js.arr_includes _ _); reflexivity.
Qed.

(** What one operation does to the two lists of the registry. *)
Lemma apply_operation_lists (op : Operation) (this : BlogRegistry) :
  let after := exec (apply_operation op) this in
  (usedCoverPhotos (data after) = usedCoverPhotos (data this)
   ∨ ∃ photoId,
       (photoId ∉ usedCoverPhotos (data this))
       ∧ usedCoverPhotos (data after)
         = (usedCoverPhotos (data this) ++ [photoId])%list)
  ∧ (publishedBlogs (data after) = publishedBlogs (data this)
     ∨ ∃ blog,
         publishedBlogs (data after) = (publishedBlogs (data this) ++ [blog])%list).
Proof.
  destruct op as [category random | photoUrl | blog]; intros after; subst after;
    cbn [apply_operation].
  - unfold exec. cbn [snd]. rewrite CoverPhotoFacts.getUniqueCoverPhoto_exec.
    split; by left.
  - rewrite reserveCoverPhoto_exec.
    destruct (match_photo_id photoUrl) as [photoId|]; [|split; by left].
    destruct (Js.arr_includes _ _) eqn:Hin; [split; by left|].
    split; [|by left]. right. exists photoId.
    split; [by apply JsFacts.arr_includes_false | reflexivity].
  - rewrite RegistryFacts.registerBlog_exec. cbn [set_dirty data].
    split.
    + rewrite RegistryFacts.publish_if_new_used. unfold reserve_photo_of.
      destruct (truthy (coverPhotoId blog)); cbn [andb]; [|by left].
      destruct (Js.arr_includes _ _) eqn:Hin; cbn [negb]; [by left|].
      right. exists (coverPhotoId blog).
      split; [by apply JsFacts.arr_includes_false | reflexivity].
    + unfold publish_if_new.
      destruct (eval _ _); rewrite ?RegistryFacts.reserve_photo_of_blogs; [by left|].
      right. exists (with_source seo blog). cbn [push_publishedBlog data publishedBlogs].
      by rewrite RegistryFacts.reserve_photo_of_blogs.
Qed.

Lemma run_cons (op : Operation) (ops : list Operation) (this : BlogRegistry) :
  exec (run (op :: ops)) this = exec (run ops) (exec (apply_operation op) this).
Proof.
  unfold exec. cbn [run]. unfold bind.
  destruct (apply_operation op this) as [[] mid]. reflexivity.
Qed.

(** X1. The list of used cover photos never gets a duplicate: when it has
    none, it has none after any sequence of allocations, reservations and
    registrations. *)
Theorem session_keeps_used_photos_distinct
        (ops : list Operation) (this : BlogRegistry) :
  NoDup (usedCoverPhotos (data this)) →
  NoDup (usedCoverPhotos (data (exec (run ops) this))).
Proof.
  revert this. induction ops as [|op rest IH]; intros this Hnodup; [exact Hnodup|].
  rewrite run_cons. apply IH.
  destruct (apply_operation_lists op this) as [[Hsame | (photoId & Hnew & Happ)] _].
  - by rewrite Hsame.
  - rewrite Happ. apply NoDup_app. repeat split; [exact Hnodup | | apply NoDup_singleton].
    intros x Hx Hx'. apply list_elem_of_singleton in Hx'. by subst x.
Qed.

Lemma session_keeps_used_photos_distinct_witness :
  NoDup (usedCoverPhotos
           (data (exec (run [Register Examples.harlem;
                             Reserve (photo_url (coverPhotoId Examples.harlem));
                             Allocate (Some "manhattan") 0;
                             Register Examples.harlem])
                       Examples.empty_registry))).
Proof.
  apply (session_keeps_used_photos_distinct
           [Register Examples.harlem;
            Reserve (photo_url (coverPhotoId Examples.harlem));
            Allocate (Some "manhattan") 0;
            Register Examples.harlem]
           Examples.empty_registry).
  cbn. apply NoDup_nil_2.
Defined.

(** X2. A session only appends: the used photos and the published blogs of
    the start are a prefix of those of the end, so a slug that [hasSlug]
    finds and a photo that [isPhotoUsed] reports stay found and reported
    after any sequence of operations. *)
Theorem session_only_appends (ops : list Operation) (this : BlogRegistry) :
  let after := exec (run ops) this in
  usedCoverPhotos (data this) `prefix_of` usedCoverPhotos (data after)
  ∧ publishedBlogs (data this) `prefix_of` publishedBlogs (data after)
  ∧ (∀ slug, eval (hasSlug slug) this = true → eval (hasSlug slug) after = true)
  ∧ (∀ photoId,
        eval (isPhotoUsed photoId) this = true →
        eval (isPhotoUsed photoId) after = true).
Proof.
  intros after.
  assert (Hprefix : usedCoverPhotos (data this) `prefix_of` usedCoverPhotos (data after)
                    ∧ publishedBlogs (data this) `prefix_of` publishedBlogs (data after)).
  { subst after. revert this.
    induction ops as [|op rest IH]; intros this; [split; reflexivity|].
    rewrite run_cons.
    destruct (IH (exec (apply_operation op) this)) as [Hused Hblogs].
    destruct (apply_operation_lists op this) as [Hu Hb].
    split.
    - etransitivity; [|exact Hused].
      destruct Hu as [-> | (photoId & _ & ->)]; [reflexivity | by apply prefix_app_r].
    - etransitivity; [|exact Hblogs].
      destruct Hb as [-> | (blog & ->)]; [reflexivity | by apply prefix_app_r]. }
  destruct Hprefix as [[moreUsed Hused] [moreBlogs Hblogs]].
  split; [by exists moreUsed|]. split; [by exists moreBlogs|]. split.
  - intros s. rewrite !RegistryFacts.hasSlug_eval, Hblogs, existsb_app.
    intros ->. reflexivity.
  - intros photoId. unfold eval, isPhotoUsed, bind, get, ret. cbn [fst].
    rewrite !orb_true_iff, !JsFacts.arr_includes_true, Hused, elem_of_app. tauto.
Qed.

Lemma append_length (a b : string) :
  String.length (a ++ b) = (String.length a + String.length b)%nat.
Proof.
  induction a as [|c a IH]; [reflexivity|].
  change (S (String.length (a ++ b)) = S (String.length a + String.length b)).
  by rewrite IH.
Qed.

Lemma append_inj_r (a b s : string) : a ++ s = b ++ s → a = b.
Proof.
  revert b. induction a as [|c a IH]; intros [|d b] Heq.
  - reflexivity.
  - apply (f_equal String.length) in Heq. rewrite !append_length in Heq.
    cbn in Heq. lia.
  - apply (f_equal String.length) in Heq. rewrite !append_length in Heq.
    cbn in Heq. lia.
  - cbn in Heq. injection Heq as -> Heq. f_equal. by apply IH.
Qed.

Lemma append_inj_l (s a b : string) : s ++ a = s ++ b → a = b.
Proof. induction s as [|c s IH]; cbn; [auto|]. intros Heq. injection Heq as Heq. auto. Qed.

(** Different photo ids give different URLs. *)
Lemma photo_url_inj (a b : string) : photo_url a = photo_url b → a = b.
Proof.
  unfold photo_url. intros Heq.
  apply append_inj_l in Heq. by apply append_inj_r in Heq.
Qed.

(** One step of allocation and reservation while the chain is not
    exhausted, for a category that is not read as an inherited member. *)
Lemma allocate_and_reserve_available
      (category : option string) (random : Q) (this : BlogRegistry) :
  ¬ reads_inherited (category, random) →
  some_available (usedCoverPhotos (data this)) (priority_chain category) →
  ∃ photoId,
    allocate_and_reserve category random this
    = (Eff.Ok (photo_url photoId), set_dirty (push_usedCoverPhoto photoId this))
    ∧ (photoId ∉ BLOCKED_PHOTO_IDS)
    ∧ (photoId ∉ usedCoverPhotos (data this)).
Proof.
  intros Hown Hsome.
  destruct (CoverPhotoFacts.getUniqueCoverPhoto_eval_available
              category random this Hown Hsome) as (photoId & Heval & Hfirst).
  pose proof (CoverPhotoFacts.getUniqueCoverPhoto_exec category random this) as Hexec.
  pose proof Hfirst as (before & after & Hchain & Hb & Hu & Hall).
  exists photoId. split; [|split; assumption].
  unfold allocate_and_reserve, Eff.bind, Eff.lift, Eff.ret.
  destruct (getUniqueCoverPhoto category random this) as [result mid].
  cbn [fst snd] in Heval, Hexec. subst result mid.
  pose proof (reserveCoverPhoto_exec (photo_url photoId) this) as Hres.
  unfold exec in Hres.
  destruct (reserveCoverPhoto (photo_url photoId) this) as [[] final].
  cbn [snd] in Hres. rewrite Hres.
  rewrite CoverPhotoFacts.library_ids_round_trip.
  - apply JsFacts.arr_includes_false in Hu. by rewrite Hu.
  - apply (CoverPhotoFacts.chain_in_library category). rewrite Hchain.
    apply elem_of_app. right. apply elem_of_cons. by left.
Qed.

(** A step for the category ['constructor'] throws and reserves nothing. *)
Lemma allocate_and_reserve_throws
      (category : option string) (random : Q) (this : BlogRegistry) :
  reads_inherited (category, random) →
  allocate_and_reserve category random this = (Eff.Throw not_iterable, this).
Proof.
  intros Hctor. unfold allocate_and_reserve, Eff.bind.
  by rewrite (CoverPhotoFacts.getUniqueCoverPhoto_throws category random this Hctor).
Qed.

Lemma allocate_all_cons
      (category : option string) (random : Q)
      (rest : list (option string * Q)) (this : BlogRegistry) :
  allocate_all ((category, random) :: rest) this
  = match allocate_and_reserve category random this with
    | (Eff.Ok url, mid) =>
        match allocate_all rest mid with
        | (Eff.Ok urls, final) => (Eff.Ok (url :: urls), final)
        | (Eff.Throw e, final) => (Eff.Throw e, final)
        end
    | (Eff.Throw e, mid) => (Eff.Throw e, mid)
    end.
Proof.
  cbn [allocate_all]. unfold Eff.bind at 1.
  destruct (allocate_and_reserve category random this) as [[url|e] mid]; [|reflexivity].
  unfold Eff.bind, Eff.ret.
  destruct (allocate_all rest mid) as [[urls|e] final]; reflexivity.
Qed.

(** One step keeps what was used before it, whether it returns or throws. *)
Lemma allocate_and_reserve_keeps_used
      (category : option string) (random : Q) (this : BlogRegistry) (photoId : string) :
  photoId ∈ usedCoverPhotos (data this) →
  photoId ∈ usedCoverPhotos (data (snd (allocate_and_reserve category random this))).
Proof.
  intros Hin. unfold allocate_and_reserve, Eff.bind, Eff.lift, Eff.ret.
  pose proof (CoverPhotoFacts.getUniqueCoverPhoto_exec category random this) as Hexec.
  destruct (getUniqueCoverPhoto category random this) as [[u|e] m];
    cbn [snd] in Hexec; subst m; [|exact Hin].
  pose proof (reserveCoverPhoto_exec u this) as Hres. unfold exec in Hres.
  destruct (reserveCoverPhoto u this) as [[] m]. cbn [snd] in *. rewrite Hres.
  destruct (match_photo_id u) as [p|]; [|exact Hin].
  destruct (Js.arr_includes _ _); [exact Hin|].
  cbn. apply elem_of_app. by left.
Qed.

(** A sequence of steps keeps what was used before it. *)
Lemma allocate_all_keeps_used
      (calls : list (option string * Q)) (this : BlogRegistry) (photoId : string) :
  photoId ∈ usedCoverPhotos (data this) →
  photoId ∈ usedCoverPhotos (data (snd (allocate_all calls this))).
Proof.
  revert this. induction calls as [|[category random] rest IH]; intros this Hin;
    [exact Hin|].
  rewrite allocate_all_cons.
  pose proof (allocate_and_reserve_keeps_used category random this photoId Hin) as Hmid.
  destruct (allocate_and_reserve category random this) as [[url|e] mid];
    cbn [snd] in Hmid; [|exact Hmid].
  specialize (IH mid Hmid).
  destruct (allocate_all rest mid) as [[urls|e] final]; exact IH.
Qed.

(** X3. Photo uniqueness under normal operation: in a sequence of
    allocate-then-reserve steps none of which finds its priority chain
    exhausted, the sequence runs to its end exactly when no category is read
    as the inherited member ['constructor']; then it returns one URL per
    step, the URLs are pairwise distinct, and each carries a photo id that
    is not blocked, was not used before the sequence and is used after it.
    Otherwise it stops with the [TypeError] of the first such step. *)
Theorem allocate_all_distinct
        (calls : list (option string * Q)) (this : BlogRegistry) :
  never_exhausted calls this →
  match allocate_all calls this with
  | (Eff.Ok urls, after) =>
      Forall (fun call => ¬ reads_inherited call) calls
      ∧ List.length urls = List.length calls
      ∧ NoDup urls
      ∧ ∀ url,
          url ∈ urls →
          ∃ photoId,
            url = photo_url photoId
            ∧ (photoId ∉ BLOCKED_PHOTO_IDS)
            ∧ (photoId ∉ usedCoverPhotos (data this))
            ∧ photoId ∈ usedCoverPhotos (data after)
  | (Eff.Throw e, after) =>
      e = Eff.TypeError "photos is not iterable"
      ∧ Exists reads_inherited calls
  end.
Proof.
  revert this. induction calls as [|[category random] rest IH]; intros this Hnever.
  - cbn. split; [constructor|]. split; [reflexivity|]. split; [apply NoDup_nil_2|].
    intros url Hin. by apply elem_of_nil in Hin.
  - destruct Hnever as [Hsome Hrest]. rewrite allocate_all_cons.
    destruct (String.eqb_spec (lower_category (default "nyc" category)) "constructor")
      as [Hctor | Hown].
    { rewrite (allocate_and_reserve_throws category random this Hctor).
      split; [reflexivity|]. by apply Exists_cons_hd. }
    destruct (allocate_and_reserve_available category random this Hown Hsome)
      as (photoId & Hstep & Hb & Hu).
    rewrite Hstep in Hrest |- *. cbn [snd] in Hrest.
    pose proof (allocate_all_keeps_used
                  rest (set_dirty (push_usedCoverPhoto photoId this)) photoId) as Hkept.
    specialize (IH _ Hrest).
    destruct (allocate_all rest (set_dirty (push_usedCoverPhoto photoId this)))
      as [[urls|e] final] eqn:Hall; cbn [snd] in Hkept.
    + destruct IH as (Hnone & Hlen & Hnodup & Hids).
      assert (Hstart : photoId ∈ usedCoverPhotos
                                   (data (set_dirty (push_usedCoverPhoto photoId this)))).
      { cbn. apply elem_of_app. right. apply elem_of_cons. by left. }
      split; [by apply Forall_cons|]. split; [cbn; by rewrite Hlen|]. split.
      * apply NoDup_cons. split; [|exact Hnodup].
        intros Hin. destruct (Hids _ Hin) as (other & Hurl & _ & Hfresh & _).
        apply photo_url_inj in Hurl. subst other. apply Hfresh, Hstart.
      * intros url Hin. apply elem_of_cons in Hin as [-> | Hin].
        -- exists photoId. repeat split; auto.
        -- destruct (Hids _ Hin) as (other & Hurl & Hob & Hfresh & Hfinal).
           exists other. repeat split; auto.
           intros Hold. apply Hfresh. cbn. apply elem_of_app. by left.
    + destruct IH as [-> Hsome']. split; [reflexivity|]. by apply Exists_cons_tl.
Qed.

(** Three photos for Queens from an empty registry. *)
Lemma allocate_all_distinct_witness :
  match allocate_all [(Some "queens", 0%Q); (Some "Queens", (1 # 2)%Q); (None, 0%Q)]
                     Examples.empty_registry with
  | (Eff.Ok urls, after) =>
      Forall (fun call => ¬ reads_inherited call)
             [(Some "queens", 0%Q); (Some "Queens", (1 # 2)%Q); (None, 0%Q)]
      ∧ List.length urls = 3%nat
      ∧ NoDup urls
      ∧ ∀ url,
          url ∈ urls →
          ∃ photoId,
            url = photo_url photoId
            ∧ (photoId ∉ BLOCKED_PHOTO_IDS)
            ∧ (photoId ∉ usedCoverPhotos (data Examples.empty_registry))
            ∧ photoId ∈ usedCoverPhotos (data after)
  | (Eff.Throw e, after) =>
      e = Eff.TypeError "photos is not iterable"
      ∧ Exists reads_inherited
               [(Some "queens", 0%Q); (Some "Queens", (1 # 2)%Q); (None, 0%Q)]
  end.
Proof.
  apply (allocate_all_distinct
           [(Some "queens", 0%Q); (Some "Queens", (1 # 2)%Q); (None, 0%Q)]
           Examples.empty_registry).
  split; [|split; [|split; [|exact I]]].
  - exists "photo-1570168007204-dfb528c6958f".
    split; [|split]; refine (bool_decide_unpack _ _); vm_compute; exact I.
  - exists "photo-1583608205776-bfd35f0d9f83".
    split; [|split]; refine (bool_decide_unpack _ _); vm_compute; exact I.
  - exists "photo-1534430480872-3498386e7856".
    split; [|split]; refine (bool_decide_unpack _ _); vm_compute; exact I.
Defined.

Example allocate_all_queens :
  fst (allocate_all [(Some "queens", 0%Q); (Some "Queens", (1 # 2)%Q); (None, 0%Q)]
                    Examples.empty_registry)
  = Eff.Ok [photo_url "photo-1570168007204-dfb528c6958f";
            photo_url "photo-1583608205776-bfd35f0d9f83";
            photo_url "photo-1534430480872-3498386e7856"].
Proof. vm_compute. reflexivity. Qed.

(** A step for ['Constructor'] ends the sequence; the photo of the step
    before it stays reserved. *)
Example allocate_all_stops :
  let run := allocate_all [(Some "queens", 0%Q); (Some "Constructor", 0%Q); (None, 0%Q)]
                          Examples.empty_registry in
  fst run = Eff.Throw not_iterable
  ∧ usedCoverPhotos (data (snd run)) = ["photo-1570168007204-dfb528c6958f"].
Proof. vm_compute. split; reflexivity. Qed.

End RegistryOpsFacts.

(** ** Strings: prefixes and occurrences *)

Module StringFacts.

Lemma append_cons (c : ascii) (a b : string) : String c a ++ b = String c (a ++ b).
Proof. reflexivity. Qed.

Lemma append_nil_l (a : string) : "" ++ a = a.
Proof. reflexivity. Qed.

Lemma prefix_append (a b : string) : String.prefix a (a ++ b) = true.
Proof.
  induction a as [|c a IH]; [by destruct b|].
  rewrite append_cons. cbn [String.prefix].
  destruct (ascii_dec c c); [exact IH|congruence].
Qed.

Lemma prefix_split (a s : string) :
  String.prefix a s = true → s = a ++ Js.drop_chars (String.length a) s.
Proof.
  revert s. induction a as [|c a IH]; intros s Hpre; [reflexivity|].
  destruct s as [|d s]; cbn in Hpre; [discriminate|].
  destruct (ascii_dec c d) as [->|]; [|discriminate].
  cbn [String.length Js.drop_chars]. rewrite append_cons. f_equal. by apply IH.
Qed.

Lemma append_assoc (a b c : string) : (a ++ b) ++ c = a ++ (b ++ c).
Proof.
  induction a as [|x a IH]; [reflexivity|]. by rewrite !append_cons, IH.
Qed.

Lemma append_nil_r (a : string) : a ++ "" = a.
Proof.
  induction a as [|x a IH]; [reflexivity|]. by rewrite append_cons, IH.
Qed.

(** [hay.includes(needle)] holds exactly when [needle] occurs in [hay]. *)
Lemma includes_occurs (hay needle : string) :
  Js.includes hay needle = true ↔ ∃ before after, hay = before ++ needle ++ after.
Proof.
  split.
  - induction hay as [|c hay IH]; cbn [Js.includes]; intros Hin;
      apply orb_true_iff in Hin as [Hpre | Hrest].
    + exists "", (Js.drop_chars (String.length needle) ""). by apply prefix_split.
    + discriminate.
    + exists "", (Js.drop_chars (String.length needle) (String c hay)).
      by apply prefix_split.
    + destruct (IH Hrest) as (before & after & ->).
      by exists (String c before), after.
  - intros (before & after & ->).
    induction before as [|c before IH].
    + rewrite append_nil_l. destruct (needle ++ after) eqn:Heq; cbn [Js.includes];
        rewrite <- Heq, prefix_append; reflexivity.
    + rewrite append_cons. cbn [Js.includes]. rewrite IH. apply orb_true_r.
Qed.

Lemma keep_chars_length (p : ascii → bool) (s : string) :
  (String.length (Js.keep_chars p s) <= String.length s)%nat.
Proof.
  induction s as [|c s IH]; cbn; [lia|]. destruct (p c); cbn; lia.
Qed.

(** A string that the filter leaves alone holds only characters of the class. *)
Lemma keep_chars_fixed (p : ascii → bool) (c : ascii) (s : string) :
  Js.keep_chars p (String c s) = String c s →
  p c = true ∧ Js.keep_chars p s = s.
Proof.
  cbn. destruct (p c) eqn:Hc.
  - intros [= Hs]. auto.
  - intros Heq. pose proof (keep_chars_length p s) as Hlen.
    rewrite Heq in Hlen. cbn in Hlen. lia.
Qed.

End StringFacts.

(** ** Reserving a photo *)

Module ReserveFacts.
Import StateM BlogRegistry Specification RegistryOps.

Lemma take_while_run (run rest : string) (c : ascii) :
  Js.keep_chars photo_id_char run = run →
  photo_id_char c = false →
  take_while photo_id_char (run ++ String c rest) = run.
Proof.
  intros Hrun Hc. induction run as [|d run IH].
  - rewrite StringFacts.append_nil_l. cbn [take_while]. by rewrite Hc.
  - apply StringFacts.keep_chars_fixed in Hrun as [Hd Hrun].
    rewrite StringFacts.append_cons. cbn [take_while].
    rewrite Hd. f_equal. by apply IH.
Qed.

Lemma take_while_prefix (p : ascii → bool) (s : string) :
  ∃ rest, s = take_while p s ++ rest.
Proof.
  induction s as [|c s [rest IH]]; cbn [take_while]; [by exists ""|].
  destruct (p c); [|by exists (String c s)].
  exists rest. rewrite StringFacts.append_cons. by rewrite <- IH.
Qed.

Lemma match_photo_id_skip (c : ascii) (s : string) :
  match_photo_id_here (String c s) = None →
  match_photo_id (String c s) = match_photo_id s.
Proof. intros Hnone. cbn [match_photo_id]. by rewrite Hnone. Qed.

Lemma match_photo_id_found (s m : string) :
  match_photo_id_here s = Some m → match_photo_id s = Some m.
Proof. intros Hsome. destruct s; cbn [match_photo_id]; by rewrite Hsome. Qed.

Lemma match_photo_id_here_run (run rest : string) (c : ascii) :
  Js.keep_chars photo_id_char run = run →
  run ≠ "" →
  photo_id_char c = false →
  match_photo_id_here ("photo-" ++ run ++ String c rest) = Some ("photo-" ++ run).
Proof.
  intros Hrun Hne Hc. unfold match_photo_id_here.
  rewrite StringFacts.prefix_append.
  rewrite !StringFacts.append_cons, StringFacts.append_nil_l. cbn [Js.drop_chars].
  rewrite (take_while_run run rest c Hrun Hc).
  apply JsFacts.truthy_true in Hne. by rewrite Hne.
Qed.

(** The pattern recovers every well-formed id from the URL built for it. *)
Lemma match_photo_id_photo_url (photoId : string) :
  well_formed_photo_id photoId → match_photo_id (photo_url photoId) = Some photoId.
Proof.
  intros (run & -> & Hne & Hrun). unfold photo_url.
  rewrite StringFacts.append_assoc.
  pose proof (match_photo_id_here_run run "w=1200&auto=format&fit=crop" "?"
                                      Hrun Hne eq_refl) as Hhere.
  apply match_photo_id_found in Hhere.
  change (String "?" "w=1200&auto=format&fit=crop")
    with "?w=1200&auto=format&fit=crop" in Hhere.
  revert Hhere. generalize ("photo-" ++ run ++ "?w=1200&auto=format&fit=crop").
  intros s Hs.
  rewrite !StringFacts.append_cons, StringFacts.append_nil_l.
  repeat (rewrite match_photo_id_skip by (vm_compute; reflexivity)).
  exact Hs.
Qed.

(** What the pattern finds starts with ["photo-"] and occurs in the text. *)
Lemma match_photo_id_occurs (s m : string) :
  match_photo_id s = Some m →
  String.prefix "photo-" m = true ∧ Js.includes s m = true.
Proof.
  revert m. induction s as [|c s IH]; intros m Hm.
  - cbn in Hm. discriminate.
  - cbn [match_photo_id] in Hm.
    destruct (match_photo_id_here (String c s)) as [found|] eqn:Hhere.
    + injection Hm as ->. unfold match_photo_id_here in Hhere.
      destruct (String.prefix "photo-" (String c s)) eqn:Hpre; [|discriminate].
      destruct (truthy _); [|discriminate]. injection Hhere as <-.
      split; [apply (StringFacts.prefix_append "photo-")|].
      apply StringFacts.includes_occurs.
      apply StringFacts.prefix_split in Hpre.
      change (String.length "photo-") with 6%nat in Hpre.
      destruct (take_while_prefix photo_id_char (Js.drop_chars 6 (String c s)))
        as [rest Hrest].
      exists "", rest. rewrite StringFacts.append_nil_l, StringFacts.append_assoc.
      etrans; [exact Hpre|]. f_equal. exact Hrest.
    + destruct (IH _ Hm) as [Hpre Hin]. split; [exact Hpre|].
      cbn [Js.includes]. rewrite Hin. apply orb_true_r.
Qed.

Lemma match_photo_id_none (s : string) :
  Js.includes s "photo-" = false → match_photo_id s = None.
Proof.
  intros Hno. destruct (match_photo_id s) as [m|] eqn:Hm; [|reflexivity].
  apply match_photo_id_occurs in Hm as [Hpre Hin].
  apply StringFacts.prefix_split in Hpre.
  apply StringFacts.includes_occurs in Hin as (before & after & Hs).
  assert (Hyes : Js.includes s "photo-" = true).
  { apply StringFacts.includes_occurs.
    exists before, (Js.drop_chars (String.length "photo-") m ++ after).
    rewrite Hs, Hpre at 1. by rewrite StringFacts.append_assoc. }
  congruence.
Qed.

(** X4. Reserving the URL of a well-formed photo id marks exactly that id as
    used: afterwards [isPhotoUsed] holds for it, nothing else was added, the
    published blogs are untouched, and reserving the same URL again changes
    nothing. *)
Theorem reserveCoverPhoto_round_trip (photoId : string) (this : BlogRegistry) :
  well_formed_photo_id photoId →
  let after := exec (reserveCoverPhoto (photo_url photoId)) this in
  eval (isPhotoUsed photoId) after = true
  ∧ (∀ other, other ∈ usedCoverPhotos (data after) →
              other = photoId ∨ other ∈ usedCoverPhotos (data this))
  ∧ publishedBlogs (data after) = publishedBlogs (data this)
  ∧ exec (reserveCoverPhoto (photo_url photoId)) after = after.
Proof.
  intros Hwf after. subst after.
  rewrite !RegistryOpsFacts.reserveCoverPhoto_exec, (match_photo_id_photo_url _ Hwf).
  destruct (Js.arr_includes (usedCoverPhotos (data this)) photoId) eqn:Hin.
  - rewrite Hin. repeat split; auto.
    unfold eval, isPhotoUsed, bind, get, ret. cbn [fst]. by rewrite Hin.
  - assert (Hnow : Js.arr_includes
                     (usedCoverPhotos (data (set_dirty (push_usedCoverPhoto photoId this))))
                     photoId = true).
    { apply JsFacts.arr_includes_true. cbn. apply elem_of_app. right.
      apply elem_of_cons. by left. }
    rewrite Hnow. repeat split; auto.
    + unfold eval, isPhotoUsed, bind, get, ret. cbn [fst]. by rewrite Hnow.
    + cbn. intros other Hother. apply elem_of_app in Hother as [Hold | Hnew]; [by right|].
      left. apply elem_of_cons in Hnew as [-> | Hnil]; [reflexivity|].
      by apply elem_of_nil in Hnil.
Qed.

(** The id of a library photo, reserved on an empty registry. *)
Lemma reserveCoverPhoto_round_trip_witness :
  let after := exec (reserveCoverPhoto (photo_url "photo-1555883006-0f5a0915a80f"))
                    Examples.empty_registry in
  eval (isPhotoUsed "photo-1555883006-0f5a0915a80f") after = true
  ∧ (∀ other, other ∈ usedCoverPhotos (data after) →
              other = "photo-1555883006-0f5a0915a80f"
              ∨ other ∈ usedCoverPhotos (data Examples.empty_registry))
  ∧ publishedBlogs (data after) = publishedBlogs (data Examples.empty_registry)
  ∧ exec (reserveCoverPhoto (photo_url "photo-1555883006-0f5a0915a80f")) after = after.
Proof.
  apply (reserveCoverPhoto_round_trip "photo-1555883006-0f5a0915a80f"
                                      Examples.empty_registry).
  exists "1555883006-0f5a0915a80f".
  split; [reflexivity|]. split; [discriminate|]. vm_compute. reflexivity.
Defined.

(** X5. [reserveCoverPhoto] adds nothing but an occurrence of the pattern:
    whatever is new in the used list starts with ["photo-"] and occurs in the
    URL; for a URL in which ["photo-"] does not occur, such as the URLs that
    the photo search builds from the identifiers of the image service, the
    registry is left exactly as it was. *)
Theorem reserveCoverPhoto_adds_only_pattern (photoUrl : string) (this : BlogRegistry) :
  (∀ photoId,
      photoId ∈ usedCoverPhotos (data (exec (reserveCoverPhoto photoUrl) this)) →
      photoId ∈ usedCoverPhotos (data this)
      ∨ (String.prefix "photo-" photoId = true ∧ Js.includes photoUrl photoId = true))
  ∧ (Js.includes photoUrl "photo-" = false →
     exec (reserveCoverPhoto photoUrl) this = this).
Proof.
  rewrite RegistryOpsFacts.reserveCoverPhoto_exec. split.
  - intros photoId. destruct (match_photo_id photoUrl) as [found|] eqn:Hm; [|by left].
    destruct (Js.arr_includes _ _); [by left|].
    cbn. intros Hin. apply elem_of_app in Hin as [Hold | Hnew]; [by left|].
    right. apply elem_of_cons in Hnew as [-> | Hnil]; [|by apply elem_of_nil in Hnil].
    by apply match_photo_id_occurs.
  - intros Hno. by rewrite (match_photo_id_none _ Hno).
Qed.

Example reserveCoverPhoto_search_result :
  exec (reserveCoverPhoto "https://images.unsplash.com/LNRyGwIJr5c?w=1200&h=630&fit=crop")
       Examples.harlem_registry
  = Examples.harlem_registry.
Proof. vm_compute. reflexivity. Qed.

End ReserveFacts.

(** ** Lists *)

Module ListFacts.

Lemma elem_of_filter_bool {A} (f : A → bool) (l : list A) (x : A) :
  x ∈ List.filter f l ↔ x ∈ l ∧ f x = true.
Proof. rewrite !list_elem_of_In. apply filter_In. Qed.

End ListFacts.

(** ** Published neighbourhoods *)

Module NeighborhoodFacts.
Import StateM BlogRegistry Specification RegistryOps.

Lemma guard_same (stored : string) :
  truthy stored && truthy stored && negb (String.eqb stored stored) = false.
Proof. rewrite String.eqb_refl. by destruct (truthy stored). Qed.

Lemma guard_unconstrained (stored : string) :
  truthy "" && truthy stored && negb (String.eqb stored "") = false.
Proof. reflexivity. Qed.

(** X6. A blog registered under a slug that was not yet known is found by
    the duplicate check afterwards: [hasNeighborhood] holds for every
    spelling of its neighbourhood with the same normal form, both with the
    blog's own borough and state and without any borough or state. *)
Theorem registerBlog_then_hasNeighborhood
        (blog : PublishedBlog) (this : BlogRegistry) (name : string) :
  eval (hasSlug (slug blog)) this = false →
  lower_alnum name = lower_alnum (neighborhood blog) →
  eval (hasNeighborhood name (borough blog) (Some (state blog)))
       (exec (registerBlog blog) this) = true
  ∧ eval (hasNeighborhood name None None) (exec (registerBlog blog) this) = true.
Proof.
  intros Hnew Hname. rewrite RegistryFacts.registerBlog_exec.
  assert (Hblogs : publishedBlogs
                     (data (set_dirty (publish_if_new blog (reserve_photo_of blog this))))
                   = (publishedBlogs (data this) ++ [with_source seo blog])%list).
  { cbn [set_dirty data]. unfold publish_if_new.
    rewrite RegistryFacts.hasSlug_eval, RegistryFacts.reserve_photo_of_blogs.
    rewrite RegistryFacts.hasSlug_eval in Hnew. rewrite Hnew.
    cbn [push_publishedBlog data publishedBlogs].
    by rewrite RegistryFacts.reserve_photo_of_blogs. }
  unfold eval, hasNeighborhood, bind, get, ret. cbn [fst]. rewrite Hblogs.
  rewrite !existsb_app. cbn [existsb with_source neighborhood borough state].
  rewrite Hname, String.eqb_refl. cbn [negb].
  rewrite !guard_same. cbn [opt_or_empty]. rewrite !guard_unconstrained.
  by rewrite !orb_true_r.
Qed.

(** Harlem, registered on an empty registry, is found as "HARLEM!". *)
Lemma registerBlog_then_hasNeighborhood_witness :
  eval (hasNeighborhood "HARLEM!" (borough Examples.harlem)
                        (Some (state Examples.harlem)))
       (exec (registerBlog Examples.harlem) Examples.empty_registry) = true
  ∧ eval (hasNeighborhood "HARLEM!" None None)
         (exec (registerBlog Examples.harlem) Examples.empty_registry) = true.
Proof.
  apply (registerBlog_then_hasNeighborhood Examples.harlem Examples.empty_registry
                                           "HARLEM!");
    vm_compute; reflexivity.
Defined.

Lemma getPublishedNeighborhoods_eval (borough state : option string)
      (this : BlogRegistry) (name : string) :
  name ∈ eval (getPublishedNeighborhoods borough state) this →
  ∃ blog,
    blog ∈ publishedBlogs (data this)
    ∧ neighborhood blog = name
    ∧ match state with
      | Some st =>
          truthy st
          && negb (String.eqb (Js.toLowerCase (BlogRegistry.state blog))
                              (Js.toLowerCase st))
      | None => false
      end = false.
Proof.
  unfold eval, getPublishedNeighborhoods, bind, get, ret. cbn [fst].
  intros Hin. apply list_elem_of_fmap in Hin as (blog & -> & Hblog).
  apply ListFacts.elem_of_filter_bool in Hblog as [Hblog Hkeep].
  exists blog. split; [exact Hblog|]. split; [reflexivity|].
  destruct (match state with Some _ => _ | None => _ end); [discriminate|reflexivity].
Qed.

(** X7. The listing of published neighbourhoods agrees with the duplicate
    check: a borough filter only narrows the listing for a state, and every
    name listed for a state is one that [hasNeighborhood] finds in that
    state. *)
Theorem getPublishedNeighborhoods_are_found
        (borough state : option string) (this : BlogRegistry) :
  (∀ name, name ∈ eval (getPublishedNeighborhoods borough state) this →
           name ∈ eval (getPublishedNeighborhoods None state) this)
  ∧ (∀ name, name ∈ eval (getPublishedNeighborhoods None state) this →
             eval (hasNeighborhood name None state) this = true).
Proof.
  split; intros name Hin.
  - apply getPublishedNeighborhoods_eval in Hin as (blog & Hblog & <- & Hstate).
    unfold eval, getPublishedNeighborhoods, bind, get, ret. cbn [fst].
    apply list_elem_of_fmap_2. apply ListFacts.elem_of_filter_bool.
    split; [exact Hblog|]. rewrite Hstate. reflexivity.
  - apply getPublishedNeighborhoods_eval in Hin as (blog & Hblog & <- & Hstate).
    unfold eval, hasNeighborhood, bind, get, ret. cbn [fst].
    apply JsFacts.existsb_elem_of. exists blog. split; [exact Hblog|].
    rewrite String.eqb_refl. cbn [negb opt_or_empty]. rewrite guard_unconstrained.
    destruct state as [st|]; cbn [opt_or_empty]; [|reflexivity].
    destruct (truthy st) eqn:Hst; cbn [andb] in *.
    + apply negb_false_iff, String.eqb_eq in Hstate. rewrite Hstate.
      by rewrite guard_same.
    + unfold truthy in Hst. apply negb_false_iff, String.eqb_eq in Hst. subst st.
      reflexivity.
Qed.

End NeighborhoodFacts.

(** ** The registry rebuilt from the blog directories *)

Module SyncFacts.
Import StateM BlogRegistry RegistrySync.

Lemma set_add_elem (seen : list string) (x y : string) :
  y ∈ set_add seen x ↔ y ∈ seen ∨ y = x.
Proof.
  unfold set_add. destruct (Js.arr_includes seen x) eqn:Hin.
  - apply JsFacts.arr_includes_true in Hin. split; [by left|].
    intros [H | ->]; assumption.
  - rewrite elem_of_app, list_elem_of_singleton. tauto.
Qed.

Lemma set_add_NoDup (seen : list string) (x : string) :
  NoDup seen → NoDup (set_add seen x).
Proof.
  intros Hnd. unfold set_add. destruct (Js.arr_includes seen x) eqn:Hin; [exact Hnd|].
  apply JsFacts.arr_includes_false in Hin.
  apply NoDup_app. split; [exact Hnd|]. split; [|apply NoDup_singleton].
  intros y Hy Hyx. apply list_elem_of_singleton in Hyx. by subst y.
Qed.

Lemma fold_set_add_elem (arr seen : list string) (y : string) :
  y ∈ fold_left set_add arr seen ↔ y ∈ seen ∨ y ∈ arr.
Proof.
  revert seen. induction arr as [|x arr IH]; intros seen; cbn [fold_left].
  - rewrite elem_of_nil. tauto.
  - rewrite IH, set_add_elem, elem_of_cons. tauto.
Qed.

Lemma fold_set_add_NoDup (arr seen : list string) :
  NoDup seen → NoDup (fold_left set_add arr seen).
Proof.
  revert seen. induction arr as [|x arr IH]; intros seen Hnd; cbn [fold_left];
    [exact Hnd|]. by apply IH, set_add_NoDup.
Qed.

Section Filesystem.

Variable extractBlogInfo : string -> string -> Source -> option PublishedBlog.

Lemma recorded_nil (photoId : string) : ¬ recorded [] photoId.
Proof. intros (b & Hb & _). by apply elem_of_nil in Hb. Qed.

Lemma recorded_cons (blogInfo : PublishedBlog) (infos : list PublishedBlog)
      (photoId : string) :
  recorded (blogInfo :: infos) photoId
  ↔ (coverPhotoId blogInfo = photoId ∧ photoId ≠ "") ∨ recorded infos photoId.
Proof.
  unfold recorded. split.
  - intros (b & Hb & H). apply elem_of_cons in Hb as [-> | Hb]; [by left|].
    right. by exists b.
  - intros [H | (b & Hb & H)].
    + exists blogInfo. split; [apply elem_of_cons; by left|exact H].
    + exists b. split; [apply elem_of_cons; by right|exact H].
Qed.

Lemma scan_usta_fold (files : list File) (blogs : list PublishedBlog)
      (photos : list string) :
  let result := fold_left (scan_usta extractBlogInfo) files (blogs, photos) in
  fst result = (blogs ++ records extractBlogInfo usta_react files)%list
  ∧ ∀ photoId,
      photoId ∈ snd result
      ↔ photoId ∈ photos
        ∨ recorded (records extractBlogInfo usta_react files) photoId.
Proof.
  revert blogs photos. induction files as [|file files IH]; intros blogs photos.
  - cbn. rewrite app_nil_r. split; [reflexivity|].
    intros photoId. pose proof (recorded_nil photoId). tauto.
  - cbn [fold_left records].
    change (scan_usta extractBlogInfo (blogs, photos) file)
      with (match extractBlogInfo (text file) (name file) usta_react with
            | Some blogInfo =>
                ((blogs ++ [blogInfo])%list,
                 if truthy (coverPhotoId blogInfo)
                 then (photos ++ [coverPhotoId blogInfo])%list else photos)
            | None => (blogs, photos)
            end).
    destruct (extractBlogInfo (text file) (name file) usta_react) as [blogInfo|];
      [|apply IH].
    specialize (IH (blogs ++ [blogInfo])%list
                   (if truthy (coverPhotoId blogInfo)
                    then (photos ++ [coverPhotoId blogInfo])%list else photos)).
    cbn zeta in *. destruct IH as [IHb IHp]. split.
    + rewrite IHb, <- app_assoc. reflexivity.
    + intros photoId. rewrite IHp, recorded_cons.
      destruct (truthy (coverPhotoId blogInfo)) eqn:Hcover.
      * apply JsFacts.truthy_true in Hcover.
        rewrite elem_of_app, list_elem_of_singleton.
        split; [intros [[H | ->] | H]; auto|intros [H | [[<- _] | H]]; auto].
      * unfold truthy in Hcover. apply negb_false_iff, String.eqb_eq in Hcover.
        split; [intros [H | H]; auto|intros [H | [[Heq Hne] | H]]; auto].
        congruence.
Qed.

Lemma scan_seo_fold (files : list File) (blogs : list PublishedBlog)
      (photos : list string) :
  let result := fold_left (scan_seo extractBlogInfo) files (blogs, photos) in
  (∀ blog, blog ∈ blogs → blog ∈ fst result)
  ∧ (∀ blog, blog ∈ fst result →
             blog ∈ blogs ∨ blog ∈ records extractBlogInfo seo files)
  ∧ (∀ blogInfo, blogInfo ∈ records extractBlogInfo seo files →
                 ∃ blog, blog ∈ fst result ∧ slug blog = slug blogInfo)
  ∧ ∀ photoId,
      photoId ∈ snd result
      ↔ photoId ∈ photos ∨ recorded (records extractBlogInfo seo files) photoId.
Proof.
  revert blogs photos. induction files as [|file files IH]; intros blogs photos.
  - cbn. repeat split; auto.
    + intros blogInfo Hin. by apply elem_of_nil in Hin.
    + intros [H | H]; [exact H|]. by apply recorded_nil in H.
  - cbn [fold_left records].
    change (scan_seo extractBlogInfo (blogs, photos) file)
      with (match extractBlogInfo (text file) (name file) seo with
            | Some blogInfo =>
                (if negb (existsb (fun b => String.eqb (slug b) (slug blogInfo)) blogs)
                 then (blogs ++ [blogInfo])%list else blogs,
                 if truthy (coverPhotoId blogInfo)
                    && negb (Js.arr_includes photos (coverPhotoId blogInfo))
                 then (photos ++ [coverPhotoId blogInfo])%list else photos)
            | None => (blogs, photos)
            end).
    destruct (extractBlogInfo (text file) (name file) seo) as [blogInfo|];
      [|apply IH].
    set (known := existsb (fun b => String.eqb (slug b) (slug blogInfo)) blogs).
    set (blogs' := if negb known then (blogs ++ [blogInfo])%list else blogs).
    set (photos' := if truthy (coverPhotoId blogInfo)
                       && negb (Js.arr_includes photos (coverPhotoId blogInfo))
                    then (photos ++ [coverPhotoId blogInfo])%list else photos).
    specialize (IH blogs' photos'). cbn zeta in *.
    destruct IH as (IHkeep & IHfrom & IHall & IHp).
    assert (Hold : ∀ blog, blog ∈ blogs → blog ∈ blogs').
    { intros blog Hin. subst blogs'. destruct (negb known); [|exact Hin].
      apply elem_of_app. by left. }
    assert (Hnew : ∀ blog, blog ∈ blogs' → blog ∈ blogs ∨ blog = blogInfo).
    { intros blog Hin. subst blogs'. destruct (negb known); [|by left].
      apply elem_of_app in Hin as [H | H]; [by left|].
      right. by apply list_elem_of_singleton in H. }
    assert (Hslug : ∃ blog, blog ∈ blogs' ∧ slug blog = slug blogInfo).
    { subst blogs'. destruct known eqn:Hknown; cbn [negb].
      - subst known. apply JsFacts.existsb_elem_of in Hknown as (b & Hb & Heq).
        apply String.eqb_eq in Heq. by exists b.
      - exists blogInfo. split; [|reflexivity]. apply elem_of_app. right.
        by apply list_elem_of_singleton. }
    assert (Hphotos : ∀ photoId,
               photoId ∈ photos'
               ↔ photoId ∈ photos
                 ∨ (coverPhotoId blogInfo = photoId ∧ photoId ≠ "")).
    { intros photoId. subst photos'.
      destruct (truthy (coverPhotoId blogInfo)) eqn:Hcover; cbn [andb].
      - apply JsFacts.truthy_true in Hcover.
        destruct (Js.arr_includes photos (coverPhotoId blogInfo)) eqn:Hin; cbn [negb].
        + apply JsFacts.arr_includes_true in Hin. split; [by left|].
          intros [H | [<- _]]; assumption.
        + rewrite elem_of_app, list_elem_of_singleton. split.
          * intros [H | ->]; [by left|by right].
          * intros [H | [<- _]]; [by left|by right].
      - unfold truthy in Hcover. apply negb_false_iff, String.eqb_eq in Hcover.
        split; [by left|]. intros [H | [Heq Hne]]; [exact H|]. congruence. }
    split; [|split; [|split]].
    + intros blog Hin. by apply IHkeep, Hold.
    + intros blog Hin. apply IHfrom in Hin as [Hin | Hin].
      * apply Hnew in Hin as [Hin | ->]; [by left|].
        right. apply elem_of_cons. by left.
      * right. apply elem_of_cons. by right.
    + intros info Hin. apply elem_of_cons in Hin as [-> | Hin]; [|by apply IHall].
      destruct Hslug as (b & Hb & Heq). exists b. split; [by apply IHkeep|exact Heq].
    + intros photoId. rewrite IHp, Hphotos, recorded_cons. tauto.
Qed.

Lemma recorded_app (xs ys : list PublishedBlog) (photoId : string) :
  recorded (xs ++ ys) photoId ↔ recorded xs photoId ∨ recorded ys photoId.
Proof.
  unfold recorded. split.
  - intros (b & Hb & H). apply elem_of_app in Hb as [Hb | Hb]; [left|right];
      by exists b.
  - intros [(b & Hb & H) | (b & Hb & H)]; exists b; (split; [|exact H]);
      apply elem_of_app; [by left|by right].
Qed.

(** What the scan collects, in terms of the records read from the files. *)
Lemma scan_collects (ustaDir seoDir : option (list File)) :
  let result := scan extractBlogInfo ustaDir seoDir in
  (∀ blog, blog ∈ fst result → blog ∈ scanned extractBlogInfo ustaDir seoDir)
  ∧ (∀ blogInfo, blogInfo ∈ scanned extractBlogInfo ustaDir seoDir →
                 ∃ blog, blog ∈ fst result ∧ slug blog = slug blogInfo)
  ∧ ∀ photoId,
      photoId ∈ snd result
      ↔ recorded (scanned extractBlogInfo ustaDir seoDir) photoId.
Proof.
  intros result. subst result. unfold scan, scanned.
  pose proof (scan_usta_fold (listing usta_file ustaDir) [] []) as Husta.
  cbn zeta in Husta. destruct Husta as [Hub Hup].
  destruct (fold_left (scan_usta extractBlogInfo) (listing usta_file ustaDir) ([], []))
    as [ustaBlogs ustaPhotos].
  pose proof (scan_seo_fold (listing seo_file seoDir) ustaBlogs ustaPhotos) as Hseo.
  cbn zeta in Hseo. destruct Hseo as (Hkeep & Hfrom & Hall & Hsp).
  cbn [fst snd] in Hub, Hup. rewrite app_nil_l in Hub.
  split; [|split].
  - intros blog Hin. apply Hfrom in Hin. rewrite Hub in Hin.
    apply elem_of_app. exact Hin.
  - intros info Hin. apply elem_of_app in Hin as [Hin | Hin]; [|by apply Hall].
    exists info. split; [|reflexivity]. apply Hkeep. by rewrite Hub.
  - intros photoId. rewrite Hsp, Hup, recorded_app, elem_of_nil. tauto.
Qed.

Lemma constructor_lists (stored : option BlogRegistryData)
      (ustaDir seoDir : option (list File)) (loadedAt savedAt : string) :
  let this := constructor extractBlogInfo stored ustaDir seoDir loadedAt savedAt in
  publishedBlogs (data this) = fst (scan extractBlogInfo ustaDir seoDir)
  ∧ usedCoverPhotos (data this)
    = set_of_array (snd (scan extractBlogInfo ustaDir seoDir))
  ∧ dirty this = false.
Proof.
  intros this. subst this. unfold constructor, syncWithFilesystem.
  destruct (scan extractBlogInfo ustaDir seoDir) as [blogs photos].
  repeat split.
Qed.

(** X8. A registry is rebuilt from the blog files each time it is
    constructed: its lists do not depend on what the registry file held (so a
    reservation that no blog file carries is forgotten); the used photos are
    exactly the non-empty cover photos of the records read, without
    duplicates; every published blog is one of the records read, and every
    record read has its slug among the published blogs; and the registry is
    saved, hence not dirty. *)
Theorem constructor_rebuilds_from_files
        (stored stored' : option BlogRegistryData)
        (ustaDir seoDir : option (list File))
        (loadedAt savedAt : string) :
  let this := constructor extractBlogInfo stored ustaDir seoDir loadedAt savedAt in
  let this' := constructor extractBlogInfo stored' ustaDir seoDir loadedAt savedAt in
  publishedBlogs (data this) = publishedBlogs (data this')
  ∧ usedCoverPhotos (data this) = usedCoverPhotos (data this')
  ∧ NoDup (usedCoverPhotos (data this))
  ∧ (∀ photoId,
        photoId ∈ usedCoverPhotos (data this)
        ↔ recorded (scanned extractBlogInfo ustaDir seoDir) photoId)
  ∧ (∀ blog, blog ∈ publishedBlogs (data this) →
             blog ∈ scanned extractBlogInfo ustaDir seoDir)
  ∧ (∀ blogInfo, blogInfo ∈ scanned extractBlogInfo ustaDir seoDir →
                 ∃ blog, blog ∈ publishedBlogs (data this)
                         ∧ slug blog = slug blogInfo)
  ∧ dirty this = false.
Proof.
  intros this this'.
  destruct (constructor_lists stored ustaDir seoDir loadedAt savedAt)
    as (Hblogs & Hused & Hdirty).
  destruct (constructor_lists stored' ustaDir seoDir loadedAt savedAt)
    as (Hblogs' & Hused' & _).
  destruct (scan_collects ustaDir seoDir) as (Hfrom & Hall & Hphotos).
  fold this in Hblogs, Hused, Hdirty. fold this' in Hblogs', Hused'.
  split; [congruence|]. split; [congruence|]. rewrite Hblogs, Hused.
  split; [apply fold_set_add_NoDup, NoDup_nil_2|].
  split; [|repeat split; auto].
  intros photoId. unfold set_of_array. rewrite fold_set_add_elem, elem_of_nil.
  rewrite <- Hphotos. tauto.
Qed.

End Filesystem.

End SyncFacts.

(** ** The checks before publishing *)

Module ContentChecksFacts.
Import ContentValidation ContentChecks.

Lemma filter_excluded_ext (excluded excluded' l : list string) :
  (∀ y, y ∈ l → (y ∈ excluded ↔ y ∈ excluded')) →
  filter (fun t => t ∉ excluded) l = filter (fun t => t ∉ excluded') l.
Proof.
  induction l as [|x l IH]; intros Hsame; [reflexivity|].
  assert (Hl : ∀ y, y ∈ l → (y ∈ excluded ↔ y ∈ excluded')).
  { intros y Hy. apply Hsame. apply elem_of_cons. by right. }
  assert (Hx : x ∈ excluded ↔ x ∈ excluded').
  { apply Hsame. apply elem_of_cons. by left. }
  destruct (decide (x ∈ excluded)) as [Hin | Hout].
  - rewrite !filter_cons_False by tauto. by apply IH.
  - rewrite !filter_cons_True by tauto. f_equal. by apply IH.
Qed.

(** Excluding the members of a list from a list without duplicates removes
    at most as many entries as the excluded list has. *)
Lemma filter_excluded_length (excluded l : list string) :
  NoDup l →
  (List.length l <= List.length (filter (fun t => t ∉ excluded) l)
                    + List.length excluded)%nat.
Proof.
  revert excluded. induction l as [|x l IH]; intros excluded Hnd; [cbn; lia|].
  apply NoDup_cons in Hnd as [Hx Hnd].
  destruct (decide (x ∈ excluded)) as [Hin | Hout].
  - rewrite filter_cons_False by tauto.
    apply elem_of_Permutation in Hin as [rest Hperm].
    assert (Hsame : filter (fun t => t ∉ excluded) l = filter (fun t => t ∉ rest) l).
    { apply filter_excluded_ext. intros y Hy.
      rewrite Hperm, elem_of_cons.
      assert (y ≠ x) by (intros ->; contradiction). tauto. }
    rewrite Hsame, Hperm. specialize (IH rest Hnd). cbn [List.length]. lia.
  - rewrite filter_cons_True by exact Hout.
    specialize (IH excluded Hnd). cbn [List.length]. lia.
Qed.

Lemma slice_last_length {A} (n : nat) (l : list A) :
  (List.length (Js.slice_last n l) <= n)%nat.
Proof. unfold Js.slice_last. rewrite length_drop. lia. Qed.

(** X9. Template rotation never runs out: whatever the history, at least
    four of the six templates are available, the available list has no
    duplicates and holds only known templates, and a template is accepted
    exactly when it is in the available list reported for that history. *)
Theorem validateTemplateSelection_never_deadlocks
        (selected : string) (history : list string) :
  let result := validateTemplateSelection selected history in
  (4 <= List.length (available result))%nat
  ∧ NoDup (available result)
  ∧ (∀ t, t ∈ available result → t ∈ TEMPLATE_IDS)
  ∧ ∀ t, valid (validateTemplateSelection t history) = true ↔ t ∈ available result.
Proof.
  intros result. subst result. unfold validateTemplateSelection. cbn [available valid].
  assert (Hids : NoDup TEMPLATE_IDS).
  { refine (bool_decide_unpack _ _). vm_compute. exact I. }
  split; [|split; [|split]].
  - pose proof (filter_excluded_length (Js.slice_last 2 history) TEMPLATE_IDS Hids) as H.
    pose proof (slice_last_length 2 history) as Hlast.
    change (List.length TEMPLATE_IDS) with 6%nat in H. lia.
  - by apply NoDup_filter.
  - intros t Hin. by apply list_elem_of_filter in Hin as [_ Hin].
  - intros t. apply JsFacts.arr_includes_true.
Qed.

Section Checks.

Variable countWords : string -> N.
Variable validatePhotoUrl : string -> bool.

Lemma validateWordCount_fields (content : string) :
  let result := validateWordCount countWords content in
  WordCountValidation.valid result = (2000 <=? countWords content)%N
  ∧ WordCountValidation.rating result
    = (if (3000 <=? countWords content)%N then excellent
       else if (2000 <=? countWords content)%N then good
       else if (1600 <=? countWords content)%N then acceptable
       else too_short)
  ∧ WordCountValidation.deficit result = (2000 - countWords content)%N.
Proof.
  intros result. subst result. unfold validateWordCount.
  change TARGET_WORD_COUNT.optimal with 3000%N.
  change MINIMUM_WORD_COUNT with 2000%N.
  generalize (countWords content). intros n.
  destruct (N.leb_spec 3000 n); [repeat split|].
  destruct (N.leb_spec 2000 n); [repeat split|].
  destruct (N.leb_spec (2000 * 8) (n * 10)); destruct (N.leb_spec 1600 n);
    try lia; repeat split.
Qed.

Lemma validateCoverPhoto_valid (photoUrl : string) :
  BlogRegistry.truthy photoUrl = true →
  PhotoValidation.valid (validateCoverPhoto validatePhotoUrl photoUrl)
  = validatePhotoUrl photoUrl.
Proof. intros Hurl. unfold validateCoverPhoto. by rewrite Hurl. Qed.

Lemma photo_request_truthy (options : option Options) (photoUrl : string) :
  photo_request options = Some photoUrl → BlogRegistry.truthy photoUrl = true.
Proof.
  unfold photo_request. destruct options as [o|]; [|discriminate].
  destruct (coverPhotoUrl o) as [u|]; [|discriminate].
  destruct (BlogRegistry.truthy u) eqn:Hu; [|discriminate]. by intros [= <-].
Qed.

(** The errors of [validateContent], check by check. *)
Lemma validateContent_errors (content : string) (options : option Options) :
  ContentValidationResult.errors
    (validateContent countWords validatePhotoUrl content options)
  = ((if (2000 <=? countWords content)%N then []
      else [WordCountValidation.message (validateWordCount countWords content)])
     ++ match template_request options with
        | Some (id, recent) =>
            if valid (validateTemplateSelection id recent) then []
            else [message (validateTemplateSelection id recent)]
        | None => []
        end
     ++ match photo_request options with
        | Some photoUrl =>
            if validatePhotoUrl photoUrl then []
            else [PhotoValidation.message
                    (validateCoverPhoto validatePhotoUrl photoUrl)]
        | None => []
        end)%list.
Proof.
  unfold validateContent.
  destruct (validateWordCount_fields content) as (Hvalid & _ & _).
  cbn zeta in Hvalid. rewrite Hvalid.
  destruct (photo_request options) as [photoUrl|] eqn:Hphoto.
  - rewrite (validateCoverPhoto_valid _ (photo_request_truthy _ _ Hphoto)).
    destruct (2000 <=? countWords content)%N;
      [destruct (rating_is_good _)|];
      (destruct (template_request options) as [[id recent]|];
       [destruct (valid (validateTemplateSelection id recent))|]);
      destruct (validatePhotoUrl photoUrl); reflexivity.
  - destruct (2000 <=? countWords content)%N;
      [destruct (rating_is_good _)|];
      (destruct (template_request options) as [[id recent]|];
       [destruct (valid (validateTemplateSelection id recent))|]);
      reflexivity.
Qed.

Lemma validateContent_warnings (content : string) (options : option Options) :
  ContentValidationResult.warnings
    (validateContent countWords validatePhotoUrl content options)
  = if (2000 <=? countWords content)%N && (countWords content <? 3000)%N
    then [expand_warning] else [].
Proof.
  unfold validateContent.
  destruct (validateWordCount_fields content) as (Hvalid & Hrating & _).
  cbn zeta in Hvalid, Hrating. rewrite Hvalid, Hrating.
  destruct (N.leb_spec 2000 (countWords content));
    destruct (N.leb_spec 3000 (countWords content));
    destruct (N.ltb_spec (countWords content) 3000); try lia; reflexivity.
Qed.

Lemma validateContent_valid (content : string) (options : option Options) :
  ContentValidationResult.valid
    (validateContent countWords validatePhotoUrl content options) = true
  ↔ ContentValidationResult.errors
      (validateContent countWords validatePhotoUrl content options) = [].
Proof.
  assert (Hshape : ContentValidationResult.valid
                     (validateContent countWords validatePhotoUrl content options)
                   = (List.length
                        (ContentValidationResult.errors
                           (validateContent countWords validatePhotoUrl content options))
                      =? 0)%nat).
  { unfold validateContent.
    destruct (negb _); [|destruct (rating_is_good _)]; reflexivity. }
  rewrite Hshape, Nat.eqb_eq. split; [apply nil_length_inv|by intros ->].
Qed.

(** X10. [validateContent] accepts a text exactly when it has at least 2000
    words, the template, if one is to be checked, is a known template outside
    the last two of the history, and the cover photo, if one is given, is
    accessible; it is valid exactly when it reports no error, it reports at
    most three errors, and it warns exactly when the word count is at least
    2000 and below 3000. *)
Theorem validateContent_valid_iff (content : string) (options : option Options) :
  let result := validateContent countWords validatePhotoUrl content options in
  (ContentValidationResult.valid result = true
   ↔ (2000 <= countWords content)%N
     ∧ (∀ id recent, template_request options = Some (id, recent) →
                     id ∈ TEMPLATE_IDS ∧ id ∉ Js.slice_last 2 recent)
     ∧ (∀ photoUrl, photo_request options = Some photoUrl →
                    validatePhotoUrl photoUrl = true))
  ∧ (ContentValidationResult.valid result = true
     ↔ ContentValidationResult.errors result = [])
  ∧ (List.length (ContentValidationResult.errors result) <= 3)%nat
  ∧ (ContentValidationResult.warnings result
     = if (2000 <=? countWords content)%N && (countWords content <? 3000)%N
       then [expand_warning] else []).
Proof.
  intros result. subst result.
  split; [|split; [apply validateContent_valid|split;
                   [|apply validateContent_warnings]]].
  - rewrite validateContent_valid, validateContent_errors.
    rewrite !app_nil. 
    assert (Hwords : (if (2000 <=? countWords content)%N then []
                      else [WordCountValidation.message
                              (validateWordCount countWords content)]) = []
                     ↔ (2000 <= countWords content)%N).
    { destruct (N.leb_spec 2000 (countWords content)); split;
        try reflexivity; try discriminate; lia. }
    assert (Htemplate :
              match template_request options with
              | Some (id, recent) =>
                  if valid (validateTemplateSelection id recent) then []
                  else [message (validateTemplateSelection id recent)]
              | None => []
              end = []
              ↔ ∀ id recent, template_request options = Some (id, recent) →
                             id ∈ TEMPLATE_IDS ∧ id ∉ Js.slice_last 2 recent).
    { destruct (template_request options) as [[id recent]|].
      - pose proof (ContentValidationFacts.valid_iff id recent) as Hiff.
        destruct (valid (validateTemplateSelection id recent)); split.
        + intros _ ? ? [= <- <-]. by apply Hiff.
        + reflexivity.
        + discriminate.
        + intros H. specialize (H _ _ eq_refl). apply Hiff in H. discriminate.
      - split; [intros _ ? ? [=]|reflexivity]. }
    assert (Hphoto :
              match photo_request options with
              | Some photoUrl =>
                  if validatePhotoUrl photoUrl then []
                  else [PhotoValidation.message
                          (validateCoverPhoto validatePhotoUrl photoUrl)]
              | None => []
              end = []
              ↔ ∀ photoUrl, photo_request options = Some photoUrl →
                            validatePhotoUrl photoUrl = true).
    { destruct (photo_request options) as [photoUrl|].
      - destruct (validatePhotoUrl photoUrl) eqn:Hok; split.
        + by intros _ ? [= <-].
        + reflexivity.
        + discriminate.
        + intros H. specialize (H _ eq_refl). congruence.
      - split; [intros _ ? [=]|reflexivity]. }
    rewrite Hwords, Htemplate, Hphoto. reflexivity.
  - rewrite validateContent_errors, !length_app.
    destruct (2000 <=? countWords content)%N;
      (destruct (template_request options) as [[id recent]|];
       [destruct (valid (validateTemplateSelection id recent))|]);
      (destruct (photo_request options) as [photoUrl|];
       [destruct (validatePhotoUrl photoUrl)|]); cbn [List.length]; lia.
Qed.

(** A text of 2400 words, checked with a template used two blogs ago and a
    cover photo that answers: the template is the only error. *)
Example validateContent_recent_template :
  let result :=
    validateContent (fun _ => 2400%N) (fun _ => true) "text"
                    (Some {| templateId := Some "COMPASS";
                             recentTemplates := Some ["ATLAS"; "COMPASS"; "CATALYST"];
                             coverPhotoUrl :=
                               Some (BlogRegistry.photo_url
                                       "photo-1555883006-0f5a0915a80f") |}) in
  ContentValidationResult.valid result = false
  ∧ ContentValidationResult.errors result
    = ["❌ Template COMPASS was used recently! Use one of: ATLAS, PERSONA, PLAYBOOK, BLUEPRINT"]
  ∧ ContentValidationResult.warnings result
    = ["Consider expanding content to 3000+ words for better SEO"].
Proof. vm_compute. repeat split. Qed.

End Checks.

End ContentChecksFacts.

(** ** Similarity against the stored posts *)

Module SimilarityFacts.
Import Types UniquenessEngine ContentLoading Specification.

Local Open Scope Q_scope.

Lemma Qgtb_true (a b : Q) : Qgtb a b = true ↔ b < a.
Proof.
  unfold Qgtb. rewrite negb_true_iff, <- not_true_iff_false, Qle_bool_iff.
  split; [apply Qnot_le_lt|apply Qlt_not_le].
Qed.

Lemma Qgtb_false (a b : Q) : Qgtb a b = false ↔ a <= b.
Proof. unfold Qgtb. by rewrite negb_false_iff, Qle_bool_iff. Qed.

(** The loop that keeps the maximum: the result is at least the start value
    and at least every score met, and it is either the start pair or the
    pair of an entry that beat the start value. *)
Lemma keep_max_fold {A} (score : A → Q) (label : A → string)
      (entries : list A) (acc : Q * string) :
  let result := fold_left (fun acc e => keep_max acc (score e) (label e)) entries acc in
  fst acc <= fst result
  ∧ (∀ e, e ∈ entries → score e <= fst result)
  ∧ (result = acc
     ∨ ∃ e, e ∈ entries ∧ result = (score e, label e) ∧ fst acc < score e).
Proof.
  revert acc. induction entries as [|entry rest IH]; intros acc; cbn [fold_left].
  - split; [apply Qle_refl|]. split; [|by left].
    intros e He. by apply elem_of_nil in He.
  - specialize (IH (keep_max acc (score entry) (label entry))).
    cbn zeta in IH. destruct IH as (Hge & Hall & Hfrom).
    assert (Hstep : fst acc <= fst (keep_max acc (score entry) (label entry))
                    ∧ score entry <= fst (keep_max acc (score entry) (label entry))).
    { unfold keep_max. destruct (Qgtb (score entry) (fst acc)) eqn:Hgt; cbn [fst].
      - apply Qgtb_true in Hgt. split; [by apply Qlt_le_weak|apply Qle_refl].
      - apply Qgtb_false in Hgt. split; [apply Qle_refl|exact Hgt]. }
    destruct Hstep as [Hacc Hentry].
    split; [by eapply Qle_trans|]. split.
    + intros e He. apply elem_of_cons in He as [-> | He]; [|by apply Hall].
      by eapply Qle_trans.
    + destruct Hfrom as [Hsame | (e & He & Hres & Hlt)].
      * rewrite Hsame. unfold keep_max.
        destruct (Qgtb (score entry) (fst acc)) eqn:Hgt; [|by left].
        apply Qgtb_true in Hgt. right. exists entry.
        split; [apply elem_of_cons; by left|]. by split.
      * right. exists e. split; [apply elem_of_cons; by right|].
        split; [exact Hres|]. by eapply Qle_lt_trans.
Qed.

(** X11. [calculateOverallSimilarity] reports the largest similarity: no
    stored post is more similar to the new text than [maxSimilarity]; and
    either nothing is similar at all and the report is [(0, "")], or
    [mostSimilarTo] is a stored slug whose similarity is [maxSimilarity],
    which is then positive. *)
Theorem calculateOverallSimilarity_is_maximum (newContent : string) (this : t) :
  let report := calculateOverallSimilarity newContent this in
  (∀ slug, slug ∈ stored_slugs this →
           calculateSimilarity newContent slug this <= fst report)
  ∧ (report = (0, "")
     ∨ (snd report ∈ stored_slugs this
        ∧ fst report = calculateSimilarity newContent (snd report) this
        ∧ 0 < fst report)).
Proof.
  intros report. subst report. unfold calculateOverallSimilarity.
  pose proof (keep_max_fold
                (fun entry : string * list string =>
                   calculateSimilarity newContent (fst entry) this)
                fst (existingContent this) (0, "")) as Hfold.
  cbn zeta in Hfold. destruct Hfold as (_ & Hall & Hfrom). split.
  - intros slug Hin. apply list_elem_of_fmap in Hin as (entry & -> & Hentry).
    by apply Hall.
  - destruct Hfrom as [Hsame | (entry & Hentry & Hres & Hlt)]; [by left|].
    right. rewrite Hres. cbn [fst snd]. split; [|by split].
    by apply list_elem_of_fmap_2.
Qed.

Lemma fold_left_agree {A B} (f g : A → B → A) (l : list B) (acc : A) :
  (∀ a b, b ∈ l → f a b = g a b) → fold_left f l acc = fold_left g l acc.
Proof.
  revert acc. induction l as [|b l IH]; intros acc Hsame; [reflexivity|].
  cbn [fold_left]. rewrite (Hsame acc b) by (apply elem_of_cons; by left).
  apply IH. intros a b' Hb'. apply Hsame. apply elem_of_cons. by right.
Qed.

(** With distinct keys, [get] finds the value of every entry met in the
    iteration. *)
Lemma content_get_entry (m : list (string * list string)) (slug : string)
      (phrases : list string) :
  NoDup (map fst m) → (slug, phrases) ∈ m → content_get m slug = Some phrases.
Proof.
  induction m as [|[k v] rest IH]; intros Hnd Hin; [by apply elem_of_nil in Hin|].
  cbn [map fst] in Hnd. apply NoDup_cons in Hnd as [Hk Hnd].
  cbn [content_get]. apply elem_of_cons in Hin as [[= -> ->] | Hin].
  - by rewrite String.eqb_refl.
  - destruct (String.eqb_spec k slug) as [-> | _]; [|by apply IH].
    exfalso. apply Hk. change slug with (fst (slug, phrases)).
    by apply list_elem_of_fmap_2.
Qed.

Lemma content_set_slugs (m : list (string * list string)) (key : string)
      (value : list string) :
  map fst (content_set m key value)
  = if bool_decide (key ∈ map fst m) then map fst m else (map fst m ++ [key])%list.
Proof.
  induction m as [|[k v] rest IH]; [reflexivity|].
  cbn [content_set map fst]. destruct (String.eqb_spec k key) as [-> | Hne].
  - rewrite bool_decide_eq_true_2 by (apply elem_of_cons; by left). reflexivity.
  - cbn [map fst]. rewrite IH.
    destruct (bool_decide (key ∈ map fst rest)) eqn:Hin.
    + apply bool_decide_eq_true in Hin.
      rewrite bool_decide_eq_true_2 by (apply elem_of_cons; by right). reflexivity.
    + apply bool_decide_eq_false in Hin.
      rewrite bool_decide_eq_false_2; [reflexivity|].
      intros Hk. apply elem_of_cons in Hk as [-> | Hk]; [by apply Hne|by apply Hin].
Qed.

Lemma content_set_NoDup (m : list (string * list string)) (key : string)
      (value : list string) :
  NoDup (map fst m) → NoDup (map fst (content_set m key value)).
Proof.
  intros Hnd. rewrite content_set_slugs.
  destruct (bool_decide (key ∈ map fst m)) eqn:Hin; [exact Hnd|].
  apply bool_decide_eq_false in Hin.
  apply NoDup_app. split; [exact Hnd|]. split; [|apply NoDup_singleton].
  intros x Hx Hxk. apply list_elem_of_singleton in Hxk. by subst x.
Qed.

Lemma content_get_set (m : list (string * list string)) (key other : string)
      (value : list string) :
  content_get (content_set m key value) other
  = if String.eqb key other then Some value else content_get m other.
Proof.
  induction m as [|[k v] rest IH]; cbn [content_set content_get].
  - reflexivity.
  - destruct (String.eqb_spec k key) as [-> | Hne]; cbn [content_get].
    + by destruct (String.eqb key other).
    + rewrite IH. destruct (String.eqb_spec k other) as [-> | _]; [|reflexivity].
      destruct (String.eqb_spec key other) as [-> | _]; [contradiction|reflexivity].
Qed.

Lemma store_files_NoDup (files : list RegistrySync.File) (this : t) :
  NoDup (stored_slugs this) →
  NoDup (stored_slugs (fold_left store_file files this)).
Proof.
  revert this. induction files as [|file files IH]; intros this Hnd; [exact Hnd|].
  cbn [fold_left]. apply IH. unfold stored_slugs, store_file. cbn [existingContent].
  by apply content_set_NoDup.
Qed.

(** X12. The two copies of the similarity loop agree: on stored posts with
    distinct slugs, which is what [loadExistingContent] keeps, the loop of
    content-generator-ollama.ts, which reads the phrases of the entry it
    iterates, and the loop of content-generator.ts, which looks the slug up
    again, return the same report for every text. *)
Theorem similarity_loops_agree
        (dir : option (list RegistrySync.File)) (newContent : string) (this : t) :
  NoDup (stored_slugs this) →
  let loaded := Ollama.loadExistingContent dir this in
  NoDup (stored_slugs loaded)
  ∧ OllamaContentGenerator.calculateOverallSimilarity newContent loaded
    = calculateOverallSimilarity newContent loaded.
Proof.
  intros Hnd loaded.
  assert (Hloaded : NoDup (stored_slugs loaded)).
  { subst loaded. destruct dir as [files|]; [|exact Hnd].
    by apply store_files_NoDup. }
  split; [exact Hloaded|].
  unfold OllamaContentGenerator.calculateOverallSimilarity, calculateOverallSimilarity.
  apply fold_left_agree. intros acc [slug phrases] Hin. cbn [fst].
  unfold calculateSimilarity.
  by rewrite (content_get_entry _ _ _ Hloaded Hin).
Qed.

(** Two posts loaded into an empty engine. *)
Lemma similarity_loops_agree_witness :
  let loaded :=
    Ollama.loadExistingContent
      (Some [{| RegistrySync.name := "2026-01-06-harlem-guide.md";
                RegistrySync.text := "alpha bravo charlie delta echoes foxtrot" |};
             {| RegistrySync.name := "notes.txt"; RegistrySync.text := "ignored" |};
             {| RegistrySync.name := "harlem-guide.md";
                RegistrySync.text := "golf hotel india juliet kilos limas" |}])
      empty in
  NoDup (stored_slugs loaded)
  ∧ OllamaContentGenerator.calculateOverallSimilarity
      "alpha bravo charlie delta echoes foxtrot" loaded
    = calculateOverallSimilarity "alpha bravo charlie delta echoes foxtrot" loaded.
Proof.
  apply (similarity_loops_agree
           (Some [{| RegistrySync.name := "2026-01-06-harlem-guide.md";
                     RegistrySync.text := "alpha bravo charlie delta echoes foxtrot" |};
                  {| RegistrySync.name := "notes.txt"; RegistrySync.text := "ignored" |};
                  {| RegistrySync.name := "harlem-guide.md";
                     RegistrySync.text := "golf hotel india juliet kilos limas" |}])
           "alpha bravo charlie delta echoes foxtrot" empty).
  apply NoDup_nil_2.
Defined.

Lemma content_get_stored (m : list (string * list string)) (slug : string)
      (phrases : list string) :
  content_get m slug = Some phrases → slug ∈ map fst m.
Proof.
  induction m as [|[k v] rest IH]; cbn [content_get map fst]; [discriminate|].
  destruct (String.eqb_spec k slug) as [-> | _]; intros Hget.
  - apply elem_of_cons. by left.
  - apply elem_of_cons. right. by apply IH.
Qed.

Lemma ratio_same (n : nat) : (0 < n)%nat → ratio n (Nat.max n 1) == 1.
Proof.
  intros Hn. replace (Nat.max n 1) with n by lia.
  assert (Hden : Z.pos (Pos.of_nat n) = Z.of_nat n).
  { rewrite <- positive_nat_Z, Nat2Pos.id by lia. reflexivity. }
  unfold ratio, Qeq. cbn [Qnum Qden]. rewrite Hden. lia.
Qed.

(** A non-empty set of phrases overlaps with itself completely. *)
Lemma overlap_ratio_same (phrases : list string) :
  phrases ≠ [] →
  overlap_ratio (list_to_set phrases) (list_to_set phrases) == 1.
Proof.
  intros Hne. unfold overlap_ratio.
  set (S := list_to_set phrases : gset string).
  assert (Hall : List.filter (fun phrase => bool_decide (phrase ∈ S)) (elements S)
                 = elements S).
  { apply forallb_filter_id. apply forallb_forall. intros x Hx.
    apply bool_decide_eq_true. apply list_elem_of_In in Hx. by apply elem_of_elements. }
  rewrite Hall. change (List.length (elements S)) with (size S).
  apply ratio_same.
  assert (Hsize : size S ≠ 0%nat); [|lia].
  apply size_non_empty_iff.
  destruct phrases as [|p rest]; [contradiction|].
  subst S. intros Hempty. apply (not_elem_of_empty (C := gset string) p).
  rewrite <- Hempty. set_solver.
Qed.

(** The last file of a listing is stored under its slug. *)
Lemma store_files_last (before : list RegistrySync.File) (file : RegistrySync.File)
      (this : t) :
  content_get
    (existingContent (fold_left store_file (before ++ [file])%list this))
    (slug_of_file (RegistrySync.name file))
  = Some (extractKeyPhrases (RegistrySync.text file)).
Proof.
  rewrite fold_left_app. cbn [fold_left store_file existingContent].
  by rewrite content_get_set, String.eqb_refl.
Qed.

Lemma markdown_files_last (before : list RegistrySync.File) (file : RegistrySync.File) :
  RegistrySync.ends_with (RegistrySync.name file) ".md" = true →
  markdown_files (before ++ [file])%list = (markdown_files before ++ [file])%list.
Proof.
  intros Hmd. unfold markdown_files. rewrite List.filter_app. cbn [List.filter].
  by rewrite Hmd.
Qed.

(** The engine after the loading of content-generator.ts is the engine
    that the loop over the files builds. *)
Lemma remote_load_engine (files : list RegistrySync.File) (this : ContentGenerator.t) :
  ContentGenerator.uniquenessEngine
    (fold_left Remote.store_file_and_fingerprint files this)
  = fold_left store_file files (ContentGenerator.uniquenessEngine this).
Proof.
  revert this. induction files as [|file files IH]; intros this; [reflexivity|].
  cbn [fold_left]. by rewrite IH.
Qed.

(** X13. Similarity at its two ends. After [initialize], a post that was
    loaded last under its slug and has at least five key words is a complete
    match of itself: its similarity to its own slug is 1, and so is
    [maxSimilarity]. A text with at most four key words yields no phrase, so
    that the report for it is [(0, "")] although the same text is stored. *)
Theorem similarity_of_a_stored_post
        (before : list RegistrySync.File) (file : RegistrySync.File)
        (this : ContentGenerator.t) :
  RegistrySync.ends_with (RegistrySync.name file) ".md" = true →
  let loaded :=
    ContentGenerator.uniquenessEngine
      (snd (Remote.initialize (Some (before ++ [file])%list) this)) in
  let text := RegistrySync.text file in
  ((5 <= List.length (key_words text))%nat →
   calculateSimilarity text (slug_of_file (RegistrySync.name file)) loaded == 1
   ∧ fst (calculateOverallSimilarity text loaded) == 1)
  ∧ ((List.length (key_words text) <= 4)%nat →
     calculateOverallSimilarity text loaded = (0, "")).
Proof.
  intros Hmd loaded text.
  assert (Hstored : content_get (existingContent loaded)
                                (slug_of_file (RegistrySync.name file))
                    = Some (extractKeyPhrases text)).
  { subst loaded. unfold Remote.initialize, Remote.loadExistingContent, Eff.modify.
    cbn [snd]. rewrite remote_load_engine, (markdown_files_last _ _ Hmd).
    apply store_files_last. }
  pose proof (keep_max_fold
                (fun entry : string * list string =>
                   calculateSimilarity text (fst entry) loaded)
                fst (existingContent loaded) (0, "")) as Hfold.
  cbn zeta in Hfold. destruct Hfold as (_ & Hall & Hfrom).
  fold (calculateOverallSimilarity text loaded) in Hall, Hfrom.
  split.
  - intros Hwords.
    assert (Hself : calculateSimilarity text (slug_of_file (RegistrySync.name file))
                                        loaded == 1).
    { unfold calculateSimilarity. rewrite Hstored. apply overlap_ratio_same.
      intros Hnil. apply (f_equal List.length) in Hnil.
      rewrite PhraseFacts.extractKeyPhrases_length in Hnil. cbn in Hnil. lia. }
    split; [exact Hself|]. apply Qle_antisym.
    + apply ScoreFacts.remote_maxSimilarity_unit.
    + rewrite <- Hself.
      pose proof (content_get_stored _ _ _ Hstored) as Hin.
      apply list_elem_of_fmap in Hin as ([slug phrases] & Hslug & Hentry).
      cbn [fst] in Hslug. rewrite Hslug. apply (Hall _ Hentry).
  - intros Hwords. destruct Hfrom as [Hsame | (entry & _ & _ & Hlt)]; [exact Hsame|].
    exfalso. cbn [fst] in Hlt. unfold calculateSimilarity in Hlt.
    assert (Hnone : extractKeyPhrases text = []).
    { apply nil_length_inv. rewrite PhraseFacts.extractKeyPhrases_length. lia. }
    rewrite Hnone in Hlt.
    destruct (content_get (existingContent loaded) (fst entry)); [|by apply Qlt_irrefl in Hlt].
    unfold overlap_ratio in Hlt. cbn [list_to_set foldr] in Hlt.
    rewrite elements_empty, size_empty in Hlt. cbn in Hlt.
    by apply Qlt_irrefl in Hlt.
Qed.

(** The post "harlem-guide", loaded after another one. *)
Lemma similarity_of_a_stored_post_witness :
  let file := {| RegistrySync.name := "2026-01-06-harlem-guide.md";
                 RegistrySync.text := "alpha bravo charlie delta echoes foxtrot" |} in
  let loaded :=
    ContentGenerator.uniquenessEngine
      (snd (Remote.initialize
              (Some ([{| RegistrySync.name := "astoria.md";
                         RegistrySync.text := "golf hotel india juliet kilos limas" |}]
                     ++ [file])%list)
              Examples.fresh_remote)) in
  let text := RegistrySync.text file in
  ((5 <= List.length (key_words text))%nat →
   calculateSimilarity text (slug_of_file (RegistrySync.name file)) loaded == 1
   ∧ fst (calculateOverallSimilarity text loaded) == 1)
  ∧ ((List.length (key_words text) <= 4)%nat →
     calculateOverallSimilarity text loaded = (0, "")).
Proof.
  apply (similarity_of_a_stored_post
           [{| RegistrySync.name := "astoria.md";
               RegistrySync.text := "golf hotel india juliet kilos limas" |}]
           {| RegistrySync.name := "2026-01-06-harlem-guide.md";
              RegistrySync.text := "alpha bravo charlie delta echoes foxtrot" |}
           Examples.fresh_remote).
  vm_compute. reflexivity.
Defined.

(** X26. Loading the published posts. Both generators build the same store
    from the same directory, and the generator of content-generator.ts
    keeps its fingerprints in step with it: when every stored post had its
    phrases as fingerprint before, so it is afterwards. They differ on a
    directory that does not exist: [initialize] of content-generator.ts
    throws the error of the directory listing and changes nothing, while
    the loading of content-generator-ollama.ts returns with the store as it
    was. *)
Theorem initialize_loads_the_posts
        (dir : option (list RegistrySync.File)) (this : ContentGenerator.t) :
  match Remote.initialize dir this with
  | (Eff.Ok _, after) =>
      dir ≠ None
      ∧ ContentGenerator.uniquenessEngine after
        = Ollama.loadExistingContent dir (ContentGenerator.uniquenessEngine this)
      ∧ ((∀ slug phrases,
             content_get (existingContent (ContentGenerator.uniquenessEngine this)) slug
             = Some phrases →
             ContentGenerator.contentFingerprints this !! slug
             = Some (list_to_set phrases)) →
         ∀ slug phrases,
           content_get (existingContent (ContentGenerator.uniquenessEngine after)) slug
           = Some phrases →
           ContentGenerator.contentFingerprints after !! slug
           = Some (list_to_set phrases))
  | (Eff.Throw e, after) =>
      dir = None ∧ after = this
      ∧ e = Remote.no_such_directory (ContentGenerator.blogDir this)
  end
  ∧ Ollama.loadExistingContent None (ContentGenerator.uniquenessEngine this)
    = ContentGenerator.uniquenessEngine this.
Proof.
  split; [|reflexivity].
  destruct dir as [files|]; [|by repeat split].
  unfold Remote.initialize, Remote.loadExistingContent, Eff.modify.
  split; [discriminate|]. split; [apply remote_load_engine|].
  cbn [Ollama.loadExistingContent].
  generalize (markdown_files files). clear files. intros files. revert this.
  induction files as [|file files IH]; intros this Hstep; cbn [fold_left]; [exact Hstep|].
  apply IH. intros slug phrases.
  cbn [Remote.store_file_and_fingerprint ContentGenerator.uniquenessEngine
       ContentGenerator.contentFingerprints store_file existingContent].
  rewrite content_get_set.
  destruct (String.eqb_spec (slug_of_file (RegistrySync.name file)) slug) as [-> | Hne].
  - intros [= <-]. by rewrite lookup_insert_eq.
  - intros Hget. rewrite lookup_insert_ne by exact Hne. by apply Hstep.
Qed.

Example four_key_words_match_nothing :
  let loaded :=
    Ollama.loadExistingContent
      (Some [{| RegistrySync.name := "short.md";
                RegistrySync.text := "alpha bravo charlie delta" |}]) empty in
  content_get (existingContent loaded) "short" = Some []
  ∧ calculateOverallSimilarity "alpha bravo charlie delta" loaded = (0, "").
Proof. vm_compute. split; reflexivity. Qed.

End SimilarityFacts.

(** ** Angles: what a registration and a brief consume *)

Module AngleUseFacts.
Import Types Eff UniquenessEngine Specification.

Lemma available_in_after_register
      (table : SearchIntent → option (list string))
      (topic angle other : string) (intent : SearchIntent) (this : t) :
  available_in table other intent (registerAngle topic angle this)
  = if decide (topic = other)
    then filter (fun a => a ≠ angle) (available_in table other intent this)
    else available_in table other intent this.
Proof.
  unfold available_in.
  fold (used_for other (registerAngle topic angle this)). fold (used_for other this).
  rewrite AngleFacts.registerAngle_used.
  destruct (decide (topic = other)) as [_ | _]; [|reflexivity].
  rewrite list_filter_filter. apply list_filter_iff. intros a.
  rewrite not_elem_of_union, not_elem_of_singleton. tauto.
Qed.

(** X14. Registering an angle for a topic removes that angle, and nothing
    else, from the angles available for the topic, for every intent and for
    the angle tables of both generators; the angles available for any other
    topic are untouched. Topics are compared as they are written. *)
Theorem registerAngle_removes_exactly
        (topic angle other : string) (intent : SearchIntent) (this : t) :
  getAvailableAngles topic intent (registerAngle topic angle this)
  = filter (fun a => a ≠ angle) (getAvailableAngles topic intent this)
  ∧ OllamaContentGenerator.getAvailableAngles topic intent (registerAngle topic angle this)
    = filter (fun a => a ≠ angle)
             (OllamaContentGenerator.getAvailableAngles topic intent this)
  ∧ (topic ≠ other →
     getAvailableAngles other intent (registerAngle topic angle this)
     = getAvailableAngles other intent this
     ∧ OllamaContentGenerator.getAvailableAngles
         other intent (registerAngle topic angle this)
       = OllamaContentGenerator.getAvailableAngles other intent this).
Proof.
  unfold getAvailableAngles, OllamaContentGenerator.getAvailableAngles.
  split; [|split].
  - rewrite available_in_after_register. by destruct (decide (topic = topic)).
  - rewrite available_in_after_register. by destruct (decide (topic = topic)).
  - intros Hne. rewrite !available_in_after_register.
    by destruct (decide (topic = other)).
Qed.

Example registerAngle_topic_as_written :
  getAvailableAngles "crm" commercial (registerAngle "CRM" "buyer-guide" empty)
  = ["buyer-guide"; "alternatives-analysis"; "pros-cons"; "industry-specific"].
Proof. vm_compute. reflexivity. Qed.

Lemma angle_tables_NoDup (intent : SearchIntent) :
  NoDup (angles_or_informational CONTENT_ANGLES intent)
  ∧ NoDup (angles_or_informational OllamaContentGenerator.CONTENT_ANGLES intent).
Proof.
  destruct intent; split; refine (bool_decide_unpack _ _); vm_compute; exact I.
Qed.

(** In a list without duplicates, removing the head of what a filter keeps
    leaves the rest of what it keeps. *)
Lemma filter_head_removed (P : string → Prop) `{∀ x, Decision (P x)}
      (l : list string) (a : string) (rest : list string) :
  NoDup l → filter P l = a :: rest → filter (fun x => x ≠ a) (filter P l) = rest.
Proof.
  intros Hnd Hfilter.
  assert (Hkept : NoDup (filter P l)) by by apply NoDup_filter.
  rewrite Hfilter in *. apply NoDup_cons in Hkept as [Ha _].
  rewrite filter_cons_False by tauto.
  clear Hfilter. induction rest as [|x rest IH]; [reflexivity|].
  rewrite filter_cons_True.
  - f_equal. apply IH. intros Hin. apply Ha. apply elem_of_cons. by right.
  - intros ->. apply Ha. apply elem_of_cons. by left.
Qed.

Section RemoteClient.

Variable create : ContentGenerator.Prompt → Result string.
Variable parse_differentiators : string → option (list string).
Variable parse_dataPoints : string → option (list DataPoint).

(** X15. [generateBrief] of content-generator.ts uses up an angle only when it
    succeeds. A brief that is returned carries the first available angle of
    the topic, three requests were sent for it, and afterwards the available
    angles of the topic are the rest of the list, so that successive briefs
    for a topic walk down the angle list. A call that throws, because a
    request failed or a response did not parse, leaves the engine as it was:
    the angle is still available. *)
Theorem generateBrief_consumes_angle_on_success
        (topic keyword : string) (intent : SearchIntent) (audience : string)
        (this : ContentGenerator.t) :
  match ContentGenerator.generateBrief
          create parse_differentiators parse_dataPoints
          topic keyword intent audience this with
  | (Ok brief, after) =>
      ∃ rest,
        getAvailableAngles topic intent (ContentGenerator.uniquenessEngine this)
        = contentAngle brief :: rest
        ∧ getAvailableAngles topic intent (ContentGenerator.uniquenessEngine after)
          = rest
        ∧ ContentGenerator.uniquenessEngine after
          = registerAngle topic (contentAngle brief)
                          (ContentGenerator.uniquenessEngine this)
        ∧ List.length (ContentGenerator.requests after)
          = (List.length (ContentGenerator.requests this) + 3)%nat
  | (Throw _, after) =>
      ContentGenerator.uniquenessEngine after = ContentGenerator.uniquenessEngine this
  end.
Proof.
  unfold ContentGenerator.generateBrief, bind at 1, get.
  destruct (getAvailableAngles topic intent (ContentGenerator.uniquenessEngine this))
    as [|angle rest] eqn:Havailable; [reflexivity|].
  unfold ContentGenerator.ask, ContentGenerator.JSON_parse.
  unfold bind, modify, of_result, ret, throw. cbv beta iota.
  destruct (create (ContentGenerator.DifferentiatorPrompt _ _ _ _ _)) as [diff|];
    [|reflexivity].
  destruct (parse_differentiators diff) as [differentiators|]; [|reflexivity].
  destruct (create (ContentGenerator.DataPointPrompt _ _)) as [data|]; [|reflexivity].
  destruct (parse_dataPoints data) as [dataPoints|]; [|reflexivity].
  destruct (create (ContentGenerator.InsightPrompt _)) as [insight|]; [|reflexivity].
  cbn [contentAngle ContentGenerator.with_engine ContentGenerator.uniquenessEngine
       ContentGenerator.requests ContentGenerator.log_request].
  exists rest. split; [reflexivity|]. split; [|split; [reflexivity|]].
  - unfold getAvailableAngles in *. rewrite available_in_after_register.
    destruct (decide (topic = topic)); [|contradiction].
    unfold available_in in *.
    apply (filter_head_removed _ _ _ _ (proj1 (angle_tables_NoDup intent))).
    exact Havailable.
  - rewrite !length_app. cbn [List.length]. lia.
Qed.

End RemoteClient.

End AngleUseFacts.

(** ** The brief and the regeneration loop of the local-model generator *)

Module OllamaBriefFacts.
Import Types Eff OllamaContentGenerator OllamaBrief.

Lemma substring0_length (n : nat) (s : string) :
  (String.length (Js.substring0 n s) <= n)%nat.
Proof.
  unfold Js.substring0. revert s. induction n as [|n IH]; intros [|c s]; cbn; try lia.
  specialize (IH s). lia.
Qed.

Lemma slice_length {A} (n : nat) (l : list A) :
  (List.length (Js.slice 0 n l) <= n)%nat.
Proof. unfold Js.slice. rewrite length_take. lia. Qed.

Lemma slice5_cases (name : string) (value : Json.t) :
  match slice5 name value with
  | Ok sliced => sliceable value = true ∧ at_most 5 sliced
  | Throw e => sliceable value = false ∧ Eff.name e = "TypeError"
  end.
Proof.
  destruct value; cbn [slice5 sliceable at_most Eff.name TypeError];
    try (split; reflexivity).
  split; [reflexivity | apply slice_length].
Qed.

Section LocalClient.

Variable generate : Prompt → Result string.
Variable JSON_parse : string → option Json.t.

(** X16. [generateBrief] of content-generator-ollama.ts. A brief that is
    returned carries the first available angle, which is no longer
    available afterwards, at most five differentiators and data points
    (the first five items of the array, or units of the string, that was
    parsed, or of the default). The call throws in three ways. With no angle left, and when a request to the
    model fails, the generator is left as it was. When a response holds
    JSON that is neither an array nor a string, [slice] fails with a
    [TypeError] after the angle was registered: the angle is used up
    although no brief is returned. A response that holds no JSON never
    makes the call throw. *)
Theorem ollama_generateBrief_outcome
        (topic keyword : string) (intent : SearchIntent) (audience : string)
        (this : t) :
  let available := getAvailableAngles topic intent (uniquenessEngine this) in
  match generateBrief generate JSON_parse topic keyword intent audience this with
  | (Ok brief, after) =>
      at_most 5 (Built.differentiators brief)
      ∧ at_most 5 (Built.dataPoints brief)
      ∧ ∃ rest,
          available = Built.contentAngle brief :: rest
          ∧ getAvailableAngles topic intent (uniquenessEngine after) = rest
  | (Throw e, after) =>
      (after = this
       ∧ ((available = [] ∧ e = Error (exhausted_message topic))
          ∨ ∃ prompt, generate prompt = Throw e))
      ∨ (Eff.name e = "TypeError"
         ∧ (∃ prompt response value,
               generate prompt = Ok response
               ∧ OllamaClient.extractJSON JSON_parse response = Ok value
               ∧ sliceable value = false)
         ∧ ∃ angle rest,
             available = angle :: rest
             ∧ after = with_engine (UniquenessEngine.registerAngle topic angle) this
             ∧ getAvailableAngles topic intent (uniquenessEngine after) = rest)
  end.
Proof.
  intros available. subst available.
  unfold generateBrief, bind at 1, get.
  destruct (getAvailableAngles topic intent (uniquenessEngine this))
    as [|angle rest] eqn:Havailable.
  { left. split; [reflexivity|]. by left. }
  unfold bind, try_catch, modify, of_result, ret, throw. cbv beta iota.
  destruct (generate (DiffPrompt topic angle audience keyword intent))
    as [diffResponse|e] eqn:Hdiff;
    [|left; split; [reflexivity|]; right; by eexists].
  destruct (generate (DataPrompt topic keyword)) as [dataResponse|e] eqn:Hdata;
    [|destruct (OllamaClient.extractJSON JSON_parse diffResponse);
      (left; split; [reflexivity|]; right; by eexists)].
  destruct (generate (InsightPrompt topic)) as [insight|e] eqn:Hinsight;
    [|destruct (OllamaClient.extractJSON JSON_parse diffResponse);
      destruct (OllamaClient.extractJSON JSON_parse dataResponse);
      (left; split; [reflexivity|]; right; by eexists)].
  assert (Hrest : getAvailableAngles
                    topic intent
                    (UniquenessEngine.registerAngle topic angle (uniquenessEngine this))
                  = rest).
  { unfold getAvailableAngles in *.
    rewrite AngleUseFacts.available_in_after_register.
    destruct (decide (topic = topic)); [|contradiction].
    unfold UniquenessEngine.available_in in *.
    apply (AngleUseFacts.filter_head_removed
             _ _ _ _ (proj2 (AngleUseFacts.angle_tables_NoDup intent))).
    exact Havailable. }
  assert (Hthrown : ∀ e prompt response (fallback : Json.t) name,
             generate prompt = Ok response →
             sliceable fallback = true →
             slice5 name match OllamaClient.extractJSON JSON_parse response with
                         | Ok value => value
                         | Throw _ => fallback
                         end = Throw e →
             Eff.name e = "TypeError"
             ∧ ∃ prompt response value,
                 generate prompt = Ok response
                 ∧ OllamaClient.extractJSON JSON_parse response = Ok value
                 ∧ sliceable value = false).
  { intros e prompt response fallback name Hsent Hfallback Hslice.
    pose proof (slice5_cases
                  name match OllamaClient.extractJSON JSON_parse response with
                       | Ok value => value
                       | Throw _ => fallback
                       end) as Hcases.
    rewrite Hslice in Hcases. destruct Hcases as [Hvalue Hname].
    split; [exact Hname|]. exists prompt, response.
    destruct (OllamaClient.extractJSON JSON_parse response) as [value|];
      [by exists value | congruence]. }
  pose proof (Hthrown) as Hdiffs. pose proof (Hthrown) as Hdatas.
  specialize (fun e => Hdiffs e _ _ default_differentiators "differentiators" Hdiff eq_refl).
  specialize (fun e => Hdatas e _ _ default_dataPoints "dataPoints" Hdata eq_refl).
  assert (Hsame : ∀ (fallback : Json.t) response,
             match OllamaClient.extractJSON JSON_parse response with
             | Ok value => value
             | Throw _ => fallback
             end
             = fst (match OllamaClient.extractJSON JSON_parse response with
                    | Ok value => (value, this)
                    | Throw _ => (fallback, this)
                    end)).
  { intros fallback response. by destruct (OllamaClient.extractJSON JSON_parse response). }
  rewrite (Hsame default_differentiators), (Hsame default_dataPoints) in *.
  clear Hsame Hthrown.
  destruct (OllamaClient.extractJSON JSON_parse diffResponse) as [v1|];
    destruct (OllamaClient.extractJSON JSON_parse dataResponse) as [v2|];
    cbn [fst] in *;
    match goal with
    | |- context [slice5 "differentiators" ?v] =>
        pose proof (slice5_cases "differentiators" v) as H1;
        destruct (slice5 "differentiators" v) as [s1|e1]
    end;
    try match goal with
    | |- context [slice5 "dataPoints" ?v] =>
        pose proof (slice5_cases "dataPoints" v) as H2;
        destruct (slice5 "dataPoints" v) as [s2|e2]
    end;
    first
      [ (* a brief *)
        cbn [Built.differentiators Built.dataPoints Built.uniqueInsight
             Built.contentAngle with_engine uniquenessEngine];
        split; [apply H1|]; split; [apply H2|];
        exists rest; by split
      | (* the data points cannot be sliced *)
        right; destruct (Hdatas e2 eq_refl) as [Hname Hwhy];
        split; [exact Hname|]; split; [exact Hwhy|];
        exists angle, rest; by repeat split
      | (* the differentiators cannot be sliced *)
        right; destruct (Hdiffs e1 eq_refl) as [Hname Hwhy];
        split; [exact Hname|]; split; [exact Hwhy|];
        exists angle, rest; by repeat split ].
Qed.

End LocalClient.

(** A response that is a JSON object: the angle is used up, no brief is
    returned. *)
Example ollama_generateBrief_object :
  let run :=
    generateBrief (fun _ => Ok "{}") (fun _ => Some (Json.object []))
                  "crm" "crm" informational "agents" Examples.fresh_ollama in
  fst run = Throw (TypeError "differentiators.slice is not a function")
  ∧ getAvailableAngles "crm" informational (uniquenessEngine Examples.fresh_ollama)
    = "beginner-guide"
      :: getAvailableAngles "crm" informational (uniquenessEngine (snd run)).
Proof. vm_compute. split; reflexivity. Qed.

Section Regenerate.

Variable chat : ContentBrief → Result string.
Variable JSON_parse : string → option Json.t.
Variable coerced_below : Json.t → nat → bool.
Variable sha256_hex : string → string.

(** [generateContent] reads the generator and does not change it. *)
Lemma generateContent_state (brief : ContentBrief) (this : t) :
  snd (generateContent chat JSON_parse coerced_below sha256_hex brief this) = this.
Proof.
  destruct (chat brief) as [response|e] eqn:Hchat.
  - by rewrite (GenerateContentFacts.generateContent_run
                  chat JSON_parse coerced_below sha256_hex brief this response Hchat).
  - unfold generateContent, bind, of_result. by rewrite Hchat.
Qed.

(** What the loop returns, for any number of attempts already made. *)
Lemma regenerate_loop_outcome (brief : ContentBrief) (this : t)
      (remaining attempts : nat) (current : GeneratedContent) :
  let attempt k := generateContent chat JSON_parse coerced_below sha256_hex (variant brief k) this in
  match regenerate_loop chat JSON_parse coerced_below sha256_hex brief remaining attempts current this with
  | (Ok result, after) =>
      after = this
      ∧ ((result = current
          ∧ (passesThreshold (differentiationReport current) = true
             ∨ remaining = 0%nat))
         ∨ ∃ k, (attempts < k <= attempts + remaining)%nat
                ∧ attempt k = (Ok result, this)
                ∧ (passesThreshold (differentiationReport result) = true
                   ∨ k = (attempts + remaining)%nat))
  | (Throw e, after) =>
      after = this
      ∧ ∃ k, (attempts < k <= attempts + remaining)%nat ∧ attempt k = (Throw e, this)
  end.
Proof.
  intros attempt. revert attempts current.
  induction remaining as [|remaining IH]; intros attempts current;
    cbn [regenerate_loop].
  - unfold ret. split; [reflexivity|]. left. split; [reflexivity|by right].
  - destruct (passesThreshold (differentiationReport current)) eqn:Hpass.
    + unfold ret. split; [reflexivity|]. left. split; [reflexivity|by left].
    + unfold bind.
      pose proof (generateContent_state (variant brief (S attempts)) this) as Hstate.
      destruct (generateContent chat JSON_parse coerced_below sha256_hex
                                (variant brief (S attempts)) this)
        as [[next|e] mid] eqn:Hnext; cbn [snd] in Hstate; subst mid.
      * specialize (IH (S attempts) next).
        destruct (regenerate_loop chat JSON_parse coerced_below sha256_hex brief remaining
                                  (S attempts) next this) as [[result|e] after].
        -- destruct IH as [-> IH]. split; [reflexivity|]. right.
           destruct IH as [[-> Hwhy] | (k & Hk & Hattempt & Hwhy)].
           ++ exists (S attempts). split; [lia|]. split; [exact Hnext|].
              destruct Hwhy as [Hok | ->]; [by left|right; lia].
           ++ exists k. split; [lia|]. split; [exact Hattempt|].
              destruct Hwhy as [Hok | ->]; [by left|right; lia].
        -- destruct IH as [-> (k & Hk & Hattempt)]. split; [reflexivity|].
           exists k. split; [lia|exact Hattempt].
      * split; [reflexivity|]. exists (S attempts). split; [lia|exact Hnext].
Qed.

(** X17. [regenerateIfNeeded] of content-generator-ollama.ts is lenient. A
    content that passes the differentiation threshold is returned as it is,
    without a new request. Otherwise the result is the content of one of the
    at most [maxAttempts] regenerations, each made with the angle of the
    brief followed by ["-variant-k"]; it is returned even when it fails the
    threshold, once the attempts are used up. The method throws only what a
    regeneration throws, and never changes the generator. *)
Theorem ollama_regenerateIfNeeded_lenient
        (content : GeneratedContent) (brief : ContentBrief) (maxAttempts : nat)
        (this : t) :
  let attempt k := generateContent chat JSON_parse coerced_below sha256_hex (variant brief k) this in
  (passesThreshold (differentiationReport content) = true →
   regenerateIfNeeded chat JSON_parse coerced_below sha256_hex content brief maxAttempts this
   = (Ok content, this))
  ∧ match regenerateIfNeeded chat JSON_parse coerced_below sha256_hex content brief maxAttempts this with
    | (Ok result, after) =>
        after = this
        ∧ (result = content
           ∨ ∃ k, (1 <= k <= maxAttempts)%nat ∧ attempt k = (Ok result, this))
        ∧ (passesThreshold (differentiationReport result) = false →
           (maxAttempts = 0%nat ∧ result = content)
           ∨ attempt maxAttempts = (Ok result, this))
    | (Throw e, after) =>
        after = this
        ∧ ∃ k, (1 <= k <= maxAttempts)%nat ∧ attempt k = (Throw e, this)
    end.
Proof.
  intros attempt. split.
  - intros Hpass. unfold regenerateIfNeeded.
    destruct maxAttempts as [|n]; cbn [regenerate_loop]; [reflexivity|].
    by rewrite Hpass.
  - unfold regenerateIfNeeded.
    pose proof (regenerate_loop_outcome brief this maxAttempts 0 content) as Hloop.
    cbn zeta in Hloop. fold attempt in Hloop.
    destruct (regenerate_loop chat JSON_parse coerced_below sha256_hex brief maxAttempts 0 content this)
      as [[result|e] after].
    + destruct Hloop as [-> Hloop]. split; [reflexivity|].
      destruct Hloop as [[-> Hwhy] | (k & Hk & Hattempt & Hwhy)].
      * split; [by left|]. intros Hfail. left.
        destruct Hwhy as [Hok | ->]; [congruence|by split].
      * split; [right; exists k; split; [lia|exact Hattempt]|].
        intros Hfail. right.
        destruct Hwhy as [Hok | ->]; [congruence|exact Hattempt].
    + destruct Hloop as [-> (k & Hk & Hattempt)]. split; [reflexivity|].
      exists k. split; [lia|exact Hattempt].
Qed.

End Regenerate.

End OllamaBriefFacts.

(** ** The regeneration loop of the remote-model generator *)

Module RemoteContentFacts.
Import Types Eff RemoteContent.

Section RemoteClient.

Variable create : nat → Request → Result string.
Variable parse_content : string → option Types.GeneratedData.
Variable parse_scores : string → option Scores.
Variable parse_dataPoints : string → option (list DataPoint).
Variable sha256_hex : string → string.
Variable issue_text : Issue → string.

Lemma getAlternativeDataPoints_sends (topic : string) :
  sends 1 1 (getAlternativeDataPoints create parse_dataPoints topic).
Proof.
  intros s. unfold getAlternativeDataPoints, bind, ask, JSON_parse, ret, throw.
  destruct (create (calls s) (AlternativeDataRequest topic)) as [response|];
    [destruct (parse_dataPoints response)|]; cbn; split; (reflexivity || lia).
Qed.

Lemma generateContent_sends (brief : ContentBrief) :
  sends 1 2 (generateContent create parse_content parse_scores sha256_hex brief).
Proof.
  intros s.
  unfold generateContent, evaluateQuality, bind, ask, JSON_parse, get, ret, throw.
  destruct (create (calls s) (ContentRequest brief)) as [response|];
    [|cbn; split; (reflexivity || lia)].
  destruct (parse_content response) as [generatedData|];
    [|cbn; split; (reflexivity || lia)].
  destruct (Types.content generatedData) as [text|];
    [|cbn; split; (reflexivity || lia)].
  cbn [calls generator].
  destruct (create (S (calls s)) (QualityRequest (Js.substring0 3000 text) brief))
    as [quality|]; [destruct (parse_scores quality)|];
    cbn; split; (reflexivity || lia).
Qed.

Lemma regenerate_loop_step (brief : ContentBrief)
      (remaining attempts : nat) (current : GeneratedContent) (s : Session) :
  regenerate_loop create parse_content parse_scores parse_dataPoints
                  sha256_hex brief (S remaining) attempts current s
  = if passesThreshold (differentiationReport current) then (Ok current, s)
    else
      match getAlternativeDataPoints create parse_dataPoints (topic brief) s with
      | (Ok alternatives, s1) =>
          match generateContent create parse_content parse_scores sha256_hex
                                (modified brief (S attempts) alternatives) s1 with
          | (Ok next, s2) =>
              regenerate_loop create parse_content parse_scores parse_dataPoints
                              sha256_hex brief remaining (S attempts) next s2
          | (Throw e, s2) => (Throw e, s2)
          end
      | (Throw e, s1) => (Throw e, s1)
      end.
Proof.
  cbn [regenerate_loop].
  destruct (passesThreshold (differentiationReport current)); [reflexivity|].
  unfold bind.
  destruct (getAlternativeDataPoints create parse_dataPoints (topic brief) s)
    as [[alternatives|e] s1]; [|reflexivity].
  destruct (generateContent create parse_content parse_scores sha256_hex
                            (modified brief (S attempts) alternatives) s1)
    as [[next|e] s2]; reflexivity.
Qed.

(** The loop: it keeps the generator, sends at most three requests for each
    remaining attempt, returns a passing content at once, and throws only
    for a content that did not pass. *)
Lemma regenerate_loop_session (brief : ContentBrief)
      (remaining attempts : nat) (current : GeneratedContent) (s : Session) :
  let run := regenerate_loop create parse_content parse_scores parse_dataPoints
                             sha256_hex brief remaining attempts current s in
  generator (snd run) = generator s
  ∧ (calls s <= calls (snd run) <= calls s + 3 * remaining)%nat
  ∧ (passesThreshold (differentiationReport current) = true →
     run = (Ok current, s))
  ∧ (remaining = 0%nat → run = (Ok current, s))
  ∧ match fst run with
    | Ok _ => True
    | Throw _ => passesThreshold (differentiationReport current) = false
    end.
Proof.
  revert attempts current s.
  induction remaining as [|remaining IH]; intros attempts current s run; subst run.
  - cbn. repeat split; auto; lia.
  - rewrite regenerate_loop_step.
    destruct (passesThreshold (differentiationReport current)) eqn:Hpass.
    + cbn. repeat split; auto; try lia; discriminate.
    + destruct (getAlternativeDataPoints_sends (topic brief) s) as [Hg1 Hc1].
      destruct (getAlternativeDataPoints create parse_dataPoints (topic brief) s)
        as [[alternatives|e] s1]; cbn [fst snd] in *.
      * destruct (generateContent_sends
                    (modified brief (S attempts) alternatives) s1) as [Hg2 Hc2].
        destruct (generateContent create parse_content parse_scores sha256_hex
                                  (modified brief (S attempts) alternatives) s1)
          as [[next|e] s2]; cbn [fst snd] in *.
        -- specialize (IH (S attempts) next s2). cbn zeta in IH.
           destruct IH as (Hg3 & Hc3 & _ & _ & Hthrow).
           split; [congruence|]. split; [lia|]. split; [discriminate|].
           split; [discriminate|].
           match goal with
           | |- match ?outcome with _ => _ end => destruct outcome
           end; [exact I|reflexivity].
        -- split; [congruence|]. split; [lia|]. repeat split; discriminate.
      * split; [congruence|]. split; [lia|]. repeat split; discriminate.
Qed.

(** A content that the loop hands over without passing is one for which no
    attempt is left. *)
Lemma regenerate_loop_exhausted (brief : ContentBrief)
      (remaining attempts : nat) (current result : GeneratedContent)
      (s after : Session) :
  regenerate_loop create parse_content parse_scores parse_dataPoints
                  sha256_hex brief remaining attempts current s = (Ok result, after) →
  passesThreshold (differentiationReport result) = false →
  passesThreshold (differentiationReport current) = false.
Proof.
  revert attempts current s.
  induction remaining as [|remaining IH]; intros attempts current s;
    cbn [regenerate_loop].
  - unfold ret. intros [= -> ->]. auto.
  - destruct (passesThreshold (differentiationReport current)) eqn:Hpass; [|auto].
    unfold ret. intros [= -> ->] Hfail. congruence.
Qed.

(** X18. [regenerateIfNeeded] of content-generator.ts is strict. Whatever the
    client answers, a content that it returns passes the differentiation
    threshold, and it throws only for a content that did not pass; a content
    that passes is returned as it is without any request; with no attempt
    allowed a failing content is answered by the "Failed to generate
    sufficiently unique content" error at once. The generator is never
    changed, and at most three requests are sent for each allowed attempt. *)
Theorem regenerateIfNeeded_strict
        (content : GeneratedContent) (brief : ContentBrief) (maxAttempts : nat)
        (s : Session) :
  let run := regenerateIfNeeded create parse_content parse_scores parse_dataPoints
                                sha256_hex issue_text content brief maxAttempts s in
  match fst run with
  | Ok result => passesThreshold (differentiationReport result) = true
  | Throw _ => passesThreshold (differentiationReport content) = false
  end
  ∧ (passesThreshold (differentiationReport content) = true → run = (Ok content, s))
  ∧ (passesThreshold (differentiationReport content) = false → maxAttempts = 0%nat →
     run = (Throw (not_unique_enough issue_text 0 content), s))
  ∧ generator (snd run) = generator s
  ∧ (calls s <= calls (snd run) <= calls s + 3 * maxAttempts)%nat.
Proof.
  intros run. subst run. unfold regenerateIfNeeded, bind.
  pose proof (regenerate_loop_session brief maxAttempts 0 content s) as Hloop.
  cbn zeta in Hloop. destruct Hloop as (Hgen & Hcalls & Hpass & Hzero & Hthrow).
  pose proof (fun result after =>
                regenerate_loop_exhausted brief maxAttempts 0 content result s after)
    as Hlast.
  destruct (regenerate_loop create parse_content parse_scores parse_dataPoints
                            sha256_hex brief maxAttempts 0 content s)
    as [[current|e] after]; cbn [fst snd] in *.
  - destruct (passesThreshold (differentiationReport current)) eqn:Hcurrent;
      cbn [negb]; unfold ret, throw; cbn [fst snd].
    + split; [exact Hcurrent|]. split; [exact Hpass|]. split; [|by split].
      intros Hfail ->. specialize (Hzero eq_refl). injection Hzero as -> ->. congruence.
    + split; [exact (Hlast _ _ eq_refl Hcurrent)|]. split; [|split; [|by split]].
      * intros Hok. specialize (Hpass Hok). injection Hpass as -> ->. congruence.
      * intros _ ->. specialize (Hzero eq_refl). by injection Hzero as -> ->.
  - split; [exact Hthrow|]. split; [|split; [|by split]].
    + intros Hok. by specialize (Hpass Hok).
    + intros _ ->. by specialize (Hzero eq_refl).
Qed.

End RemoteClient.

End RemoteContentFacts.

(** ** The library category of a location *)

Module CategoryFacts.
Import StateM BlogRegistry Specification.

Lemma getCategoryForLocation_cases (location : string) :
  getCategoryForLocation location
  ∈ ["brooklyn"; "manhattan"; "queens"; "seattle"; "nyc"; "real-estate"].
Proof.
  unfold getCategoryForLocation.
  repeat match goal with
         | |- context [if ?b then _ else _] => destruct b
         end;
    repeat first [ apply list_elem_of_here | apply list_elem_of_further ].
Qed.

(** X25. The category that [getCategoryForLocation] returns is always one
    that the library knows: it names a bucket that is not empty, which the
    property read finds as an own property, and it is its own normal form,
    so that [getUniqueCoverPhoto] starts its scan in that bucket; on a
    registry in which no photo is used yet, the photo returned for the
    category is one of that bucket. *)
Theorem getCategoryForLocation_names_a_bucket (location : string) :
  let category := getCategoryForLocation location in
  bucket category ≠ []
  ∧ Js.get_property COVER_PHOTO_LIBRARY category = Js.own (bucket category)
  ∧ lower_category category = category
  ∧ priority_chain (Some category)
    = (bucket category ++ bucket "nyc" ++ bucket "real-estate")%list
  ∧ ∀ (this : BlogRegistry) (random : Q),
      usedCoverPhotos (data this) = [] →
      ∃ photoId,
        fst (getUniqueCoverPhoto (Some category) random this)
        = Eff.Ok (photo_url photoId)
        ∧ photoId ∈ bucket category
        ∧ (photoId ∉ BLOCKED_PHOTO_IDS).
Proof.
  intros category. subst category.
  pose proof (getCategoryForLocation_cases location) as Hcases.
  generalize dependent (getCategoryForLocation location). intros category Hcases.
  assert (Hall : ∀ c,
             c ∈ ["brooklyn"; "manhattan"; "queens"; "seattle"; "nyc"; "real-estate"] →
             bucket c ≠ []
             ∧ Js.get_property COVER_PHOTO_LIBRARY c = Js.own (bucket c)
             ∧ lower_category c = c
             ∧ ∃ photoId,
                 scan_categories [] [c; "nyc"; "real-estate"] = Eff.Ok (Some photoId)
                 ∧ photoId ∈ bucket c
                 ∧ (photoId ∉ BLOCKED_PHOTO_IDS)).
  { intros c Hc.
    repeat (apply elem_of_cons in Hc as [-> | Hc]);
      [..|by apply elem_of_nil in Hc];
      (split; [discriminate|]; split; [vm_compute; reflexivity|];
       split; [vm_compute; reflexivity|];
       eexists; split; [vm_compute; reflexivity|];
       split; refine (bool_decide_unpack _ _); vm_compute; exact I). }
  destruct (Hall category Hcases)
    as (Hbucket & Hown & Hnormal & photoId & Hscan & Hin & Hfree).
  split; [exact Hbucket|]. split; [exact Hown|]. split; [exact Hnormal|]. split.
  - unfold priority_chain. change (default "nyc" (Some category)) with category.
    by rewrite Hnormal.
  - intros this random Hused. exists photoId.
    split; [|by split].
    rewrite CoverPhotoFacts.getUniqueCoverPhoto_run. cbv zeta. cbn [fst].
    change (default "nyc" (Some category)) with category.
    by rewrite Hnormal, Hused, Hscan.
Qed.

(** None of the six categories is read as an inherited member, so the
    library call for a location never throws. *)
Lemma getCategoryForLocation_own (location : string) :
  lower_category (getCategoryForLocation location) ≠ "constructor".
Proof.
  pose proof (getCategoryForLocation_cases location) as Hcases.
  generalize dependent (getCategoryForLocation location). intros c Hc.
  repeat (apply elem_of_cons in Hc as [-> | Hc]);
    [..|by apply elem_of_nil in Hc]; vm_compute; discriminate.
Qed.

Example getCategoryForLocation_precedence :
  map getCategoryForLocation
      ["Park Slope, Brooklyn, NY"; "Harlem, Manhattan"; "Capitol Hill, Seattle";
       "Albany, NY"; "Sunnyvale, CA"; "Austin, TX"]
  = ["brooklyn"; "manhattan"; "seattle"; "nyc"; "nyc"; "real-estate"].
Proof. vm_compute. reflexivity. Qed.

End CategoryFacts.

(** ** Photo discovery *)

Module PhotoDiscoveryFacts.
Import StateM PhotoDiscovery.
Import Eff (Result, Ok, Throw).

Lemma set_of_array_elem (arr : list string) (x : string) :
  x ∈ RegistrySync.set_of_array arr ↔ x ∈ arr.
Proof.
  unfold RegistrySync.set_of_array. rewrite SyncFacts.fold_set_add_elem, elem_of_nil.
  tauto.
Qed.

(** The two names are not keys of the tables. *)
Lemma tables_own_nothing_inherited :
  Forall (fun name =>
            Js.own_property NEIGHBORHOOD_VISUAL_THEMES name = None
            ∧ Js.own_property ARCHITECTURE_KEYWORDS name = None)
         ["constructor"; "__proto__"].
Proof. repeat constructor. Qed.

(** The keys of each table are distinct, so that the first entry under a
    key is the property of that name. *)
Lemma tables_keys_distinct :
  NoDup (map fst NEIGHBORHOOD_VISUAL_THEMES)
  ∧ NoDup (map fst ARCHITECTURE_KEYWORDS)
  ∧ NoDup (map fst CURATED_FALLBACK_PHOTOS).
Proof.
  split; [|split]; refine (bool_decide_unpack _ _); vm_compute; exact I.
Qed.

(** A lower-cased key reads an inherited member of one of the two tables
    exactly when it is one of the two names. *)
Lemma get_property_inherited (table : list (string * list string)) (text : string) :
  Js.own_property table "constructor" = None →
  Js.own_property table "__proto__" = None →
  Js.get_property table (Js.toLowerCase text) = Js.inherited ↔ inherited_name text.
Proof.
  intros Hctor Hproto. unfold inherited_name. rewrite <- JsFacts.toLowerCase_inherited.
  pose proof (JsFacts.get_property_cases table (Js.toLowerCase text)) as Hread.
  split.
  - intros Hget. rewrite Hget in Hread. by destruct Hread.
  - intros Hin.
    destruct (Js.get_property table (Js.toLowerCase text)) as [v| |]; [|reflexivity|].
    + apply JsFacts.toLowerCase_inherited in Hin as [Heq | Heq];
        rewrite Heq in Hread; congruence.
    + by destruct Hread.
Qed.

Lemma direct_keywords_cases (context : NeighborhoodContext) :
  match direct_keywords context with
  | Ok _ => ¬ inherited_name (neighborhood context)
  | Throw e => inherited_name (neighborhood context) ∧ Eff.name e = "TypeError"
  end.
Proof.
  unfold direct_keywords.
  pose proof (get_property_inherited
                NEIGHBORHOOD_VISUAL_THEMES (neighborhood context) eq_refl eq_refl)
    as Hinh.
  destruct (Js.get_property _ _).
  - intros Hname. by apply Hinh in Hname.
  - split; [by apply Hinh | reflexivity].
  - intros Hname. by apply Hinh in Hname.
Qed.

Lemma sliced_keywords_cases (table : list (string * list string)) (entry : string)
      (x : option string) :
  Js.own_property table "constructor" = None →
  Js.own_property table "__proto__" = None →
  match sliced_keywords table entry x with
  | Ok _ => ¬ ∃ text, x = Some text ∧ inherited_name text
  | Throw e => (∃ text, x = Some text ∧ inherited_name text) ∧ Eff.name e = "TypeError"
  end.
Proof.
  intros Hctor Hproto. unfold sliced_keywords.
  destruct x as [text|]; [|by intros (t & Ht & _)].
  pose proof (get_property_inherited table text Hctor Hproto) as Hinh.
  destruct (BlogRegistry.truthy text) eqn:Htruthy.
  - destruct (Js.get_property _ _).
    + intros (t & [= <-] & Ht). by apply Hinh in Ht.
    + split; [|reflexivity]. exists text. split; [reflexivity | by apply Hinh].
    + intros (t & [= <-] & Ht). by apply Hinh in Ht.
  - intros (t & [= <-] & [Ht | Ht]);
      apply not_true_iff_false in Htruthy; apply Htruthy, JsFacts.truthy_true;
      intros ->; vm_compute in Ht; discriminate.
Qed.

(** The keywords are pushed unless a field is read as an inherited member;
    what is pushed holds the two combined keywords and ends with the three
    generic ones. *)
Lemma pushed_keywords_cases (context : NeighborhoodContext) :
  match pushed_keywords context with
  | Ok pushed =>
      ¬ reads_inherited context
      ∧ (neighborhood context ++ " " ++ city context ++ " neighborhood") ∈ pushed
      ∧ (neighborhood context ++ " " ++ state context ++ " homes") ∈ pushed
      ∧ ∀ keyword, keyword ∈ generic_fallbacks → keyword ∈ pushed
  | Throw e => reads_inherited context ∧ Eff.name e = "TypeError"
  end.
Proof.
  unfold pushed_keywords, reads_inherited.
  pose proof (direct_keywords_cases context) as Hdirect.
  pose proof (sliced_keywords_cases
                NEIGHBORHOOD_VISUAL_THEMES "NEIGHBORHOOD_VISUAL_THEMES[boroughLower]"
                (borough context) eq_refl eq_refl) as Harea.
  pose proof (sliced_keywords_cases
                ARCHITECTURE_KEYWORDS "ARCHITECTURE_KEYWORDS[archLower]"
                (architecture context) eq_refl eq_refl) as Hstyle.
  destruct (direct_keywords context) as [direct|e]; cbn [Eff.and_then];
    [|destruct Hdirect; split; [by left | assumption]].
  destruct (sliced_keywords NEIGHBORHOOD_VISUAL_THEMES _ _) as [area|e];
    cbn [Eff.and_then]; [|destruct Harea; split; [right; by left | assumption]].
  destruct (sliced_keywords ARCHITECTURE_KEYWORDS _ _) as [style|e];
    cbn [Eff.and_then]; [|destruct Hstyle; split; [right; by right | assumption]].
  split; [tauto|].
  split; [|split].
  - rewrite !elem_of_app. do 2 right. left. apply elem_of_cons. by left.
  - rewrite !elem_of_app. do 2 right. left. apply elem_of_cons. right.
    apply elem_of_cons. by left.
  - intros keyword Hin. rewrite !elem_of_app. do 7 right. exact Hin.
Qed.

Lemma generateSearchKeywords_cases (context : NeighborhoodContext) :
  match generateSearchKeywords context with
  | Ok _ => ¬ reads_inherited context
  | Throw e => reads_inherited context ∧ Eff.name e = "TypeError"
  end.
Proof.
  unfold generateSearchKeywords.
  pose proof (pushed_keywords_cases context) as Hpushed.
  destruct (pushed_keywords context) as [pushed|e]; cbn [Eff.and_then]; tauto.
Qed.

(** X19. [generateSearchKeywords] throws a [TypeError] exactly when the
    neighbourhood, the borough or the architecture of the context is read
    as a member that the tables inherit (the names ['constructor'] and
    ['__proto__'], in any casing). Otherwise it returns every keyword it
    pushed exactly once: the list has no duplicates, it holds the two
    keywords built from the neighbourhood, city and state and the three
    generic fallbacks, so it is never empty, and it holds nothing that was
    not pushed. *)
Theorem generateSearchKeywords_distinct (context : NeighborhoodContext) :
  match generateSearchKeywords context with
  | Ok keywords =>
      ¬ reads_inherited context
      ∧ NoDup keywords
      ∧ (∃ pushed,
            pushed_keywords context = Ok pushed
            ∧ ∀ keyword, keyword ∈ keywords ↔ keyword ∈ pushed)
      ∧ (neighborhood context ++ " " ++ city context ++ " neighborhood") ∈ keywords
      ∧ (neighborhood context ++ " " ++ state context ++ " homes") ∈ keywords
      ∧ (∀ keyword, keyword ∈ generic_fallbacks → keyword ∈ keywords)
      ∧ (3 <= List.length keywords)%nat
  | Throw e => reads_inherited context ∧ Eff.name e = "TypeError"
  end.
Proof.
  unfold generateSearchKeywords.
  pose proof (pushed_keywords_cases context) as Hpushed.
  destruct (pushed_keywords context) as [pushed|e]; cbn [Eff.and_then]; [|exact Hpushed].
  destruct Hpushed as (Hown & Hcity & Hstate & Hgeneric).
  assert (Hgeneric' : ∀ keyword, keyword ∈ generic_fallbacks →
                                 keyword ∈ RegistrySync.set_of_array pushed).
  { intros keyword Hin. by apply set_of_array_elem, Hgeneric. }
  split; [exact Hown|].
  split; [apply SyncFacts.fold_set_add_NoDup, NoDup_nil_2|].
  split; [exists pushed; split; [reflexivity | apply set_of_array_elem]|].
  split; [by apply set_of_array_elem|]. split; [by apply set_of_array_elem|].
  split; [exact Hgeneric'|].
  change 3%nat with (List.length generic_fallbacks).
  apply submseteq_length, NoDup_submseteq; [|exact Hgeneric'].
  refine (bool_decide_unpack _ _). vm_compute. exact I.
Qed.

(** The keywords of Harlem, and of a neighbourhood named after an inherited
    member. *)
Example generateSearchKeywords_constructor :
  let context name :=
    {| neighborhood := name; borough := None; city := "New York"; state := "NY";
       county := None; medianPrice := None; characteristics := None;
       landmarks := None; architecture := None; vibe := None |} in
  (∃ keywords, generateSearchKeywords (context "Harlem") = Ok keywords)
  ∧ generateSearchKeywords (context "Constructor") = Throw spread_not_iterable
  ∧ generateSearchKeywords (context "__PROTO__") = Throw spread_not_iterable.
Proof. vm_compute. split; [eexists; reflexivity|]. split; reflexivity. Qed.

Lemma first_unused_some (usedPhotos : gset string) (photos : list string)
      (photoId : string) :
  first_unused usedPhotos photos = Some photoId →
  ∃ before after,
    photos = (before ++ photoId :: after)%list
    ∧ (photoId ∉ usedPhotos)
    ∧ ∀ earlier, earlier ∈ before → earlier ∈ usedPhotos.
Proof.
  induction photos as [|p rest IH]; cbn [first_unused]; [discriminate|].
  destruct (bool_decide (p ∈ usedPhotos)) eqn:Hused.
  - apply bool_decide_eq_true in Hused. intros Hfound.
    destruct (IH Hfound) as (before & after & -> & Hfree & Hbefore).
    exists (p :: before), after. split; [reflexivity|]. split; [exact Hfree|].
    intros earlier Hin. apply elem_of_cons in Hin as [-> | Hin]; auto.
  - apply bool_decide_eq_false in Hused. intros [= <-].
    exists [], rest. split; [reflexivity|]. split; [exact Hused|].
    intros earlier Hin. by apply elem_of_nil in Hin.
Qed.

Lemma first_unused_none (usedPhotos : gset string) (photos : list string) :
  first_unused usedPhotos photos = None →
  ∀ photoId, photoId ∈ photos → photoId ∈ usedPhotos.
Proof.
  induction photos as [|p rest IH]; cbn [first_unused]; intros Hnone photoId Hin.
  - by apply elem_of_nil in Hin.
  - destruct (bool_decide (p ∈ usedPhotos)) eqn:Hused; [|discriminate].
    apply bool_decide_eq_true in Hused.
    apply elem_of_cons in Hin as [-> | Hin]; auto.
Qed.

(** The category of the fallback is a key of the curated table. *)
Lemma fallback_category_known (context : NeighborhoodContext) :
  ∃ photos, lookup CURATED_FALLBACK_PHOTOS (fallback_category context) = Some photos.
Proof.
  unfold fallback_category.
  destruct (medianPrice context) as [p|];
    [destruct (number_truthy (Some p) && Qle_bool 1000000 p);
     [eexists; reflexivity|]|];
    repeat match goal with
           | |- context [if ?b then _ else _] => destruct b
           end; eexists; reflexivity.
Qed.

Lemma getCuratedFallback_shape
      (context : NeighborhoodContext) (usedPhotos : gset string)
      (fallback : DiscoveredPhoto) :
  getCuratedFallback context usedPhotos = Some fallback →
  (id fallback ∉ usedPhotos) ∧ url fallback = cover_url (id fallback).
Proof.
  unfold getCuratedFallback.
  destruct (first_unused usedPhotos _) as [photoId|] eqn:Hfirst; [|discriminate].
  intros [= <-]. apply first_unused_some in Hfirst as (_ & _ & _ & Hfree & _).
  by split.
Qed.

(** X20. [getCuratedFallback] never hands out a photo of the set it is given:
    the photo it returns is the first one of the list of its category whose
    id is not in [usedPhotos], with the cover URL of that id and score 0.5;
    it returns nothing exactly when every photo of the category is used. A
    median price of a million or more selects the ["luxury"] list. *)
Theorem getCuratedFallback_first_unused
        (context : NeighborhoodContext) (usedPhotos : gset string) :
  ∃ photos,
    lookup CURATED_FALLBACK_PHOTOS (fallback_category context) = Some photos
    ∧ match getCuratedFallback context usedPhotos with
      | Some photo =>
          photo = curated context (id photo)
          ∧ url photo = cover_url (id photo)
          ∧ (relevanceScore photo == 5 # 10)%Q
          ∧ (id photo ∉ usedPhotos)
          ∧ ∃ before after,
              photos = (before ++ id photo :: after)%list
              ∧ ∀ earlier, earlier ∈ before → earlier ∈ usedPhotos
      | None => ∀ photoId, photoId ∈ photos → photoId ∈ usedPhotos
      end
    ∧ (∀ price, medianPrice context = Some price → (1000000 <= price)%Q →
                fallback_category context = "luxury").
Proof.
  destruct (fallback_category_known context) as [photos Hphotos].
  exists photos. split; [exact Hphotos|]. split.
  - unfold getCuratedFallback. rewrite Hphotos.
    destruct (first_unused usedPhotos photos) as [photoId|] eqn:Hfirst.
    + apply first_unused_some in Hfirst as (before & after & -> & Hfree & Hbefore).
      cbn [curated id url relevanceScore].
      split; [reflexivity|]. split; [reflexivity|]. split; [reflexivity|].
      split; [exact Hfree|]. by exists before, after.
    + by apply first_unused_none.
  - intros price Hprice Hmillion. unfold fallback_category. rewrite Hprice.
    assert (Htruthy : number_truthy (Some price) = true).
    { unfold number_truthy. apply negb_true_iff, not_true_iff_false.
      rewrite Qeq_bool_iff. intros Hzero. rewrite Hzero in Hmillion.
      by apply Qle_not_lt in Hmillion. }
    apply Qle_bool_iff in Hmillion. by rewrite Htruthy, Hmillion.
Qed.

(** *** The sort *)

Lemma insert_by_score_elem (photo other : DiscoveredPhoto)
      (sorted : list DiscoveredPhoto) :
  other ∈ insert_by_score photo sorted ↔ other = photo ∨ other ∈ sorted.
Proof.
  induction sorted as [|first rest IH]; cbn [insert_by_score].
  - rewrite list_elem_of_singleton, elem_of_nil. tauto.
  - destruct (Qle_bool (relevanceScore photo) (relevanceScore first)).
    + rewrite !elem_of_cons, IH. tauto.
    + rewrite !elem_of_cons. tauto.
Qed.

Lemma insert_by_score_length (photo : DiscoveredPhoto) (sorted : list DiscoveredPhoto) :
  List.length (insert_by_score photo sorted) = S (List.length sorted).
Proof.
  induction sorted as [|first rest IH]; cbn [insert_by_score]; [reflexivity|].
  destruct (Qle_bool _ _); cbn; by rewrite ?IH.
Qed.

Lemma insert_by_score_descending (photo : DiscoveredPhoto)
      (sorted : list DiscoveredPhoto) :
  descending sorted → descending (insert_by_score photo sorted).
Proof.
  induction sorted as [|first rest IH]; cbn [insert_by_score descending].
  - intros _. split; [apply Forall_nil_2|exact I].
  - intros [Hfirst Hrest].
    destruct (Qle_bool (relevanceScore photo) (relevanceScore first)) eqn:Hle.
    + apply Qle_bool_iff in Hle. cbn [descending]. split; [|by apply IH].
      apply Forall_forall. intros later Hlater.
      apply insert_by_score_elem in Hlater as [-> | Hlater]; [exact Hle|].
      by eapply Forall_forall in Hfirst.
    + assert (Hlt : (relevanceScore first < relevanceScore photo)%Q).
      { apply Qnot_le_lt. intros Hle'. apply Qle_bool_iff in Hle'. congruence. }
      cbn [descending]. split; [|by split].
      apply Forall_cons. split; [by apply Qlt_le_weak|].
      apply Forall_forall. intros later Hlater.
      eapply Forall_forall in Hfirst; [|exact Hlater].
      eapply Qle_trans; [exact Hfirst|by apply Qlt_le_weak].
Qed.

Lemma sort_by_score_spec (photos : list DiscoveredPhoto) :
  descending (sort_by_score photos)
  ∧ (∀ photo, photo ∈ sort_by_score photos ↔ photo ∈ photos)
  ∧ List.length (sort_by_score photos) = List.length photos.
Proof.
  unfold sort_by_score.
  assert (Hgen : ∀ sorted,
             descending sorted →
             descending (fold_left (fun s p => insert_by_score p s) photos sorted)
             ∧ (∀ photo,
                   photo ∈ fold_left (fun s p => insert_by_score p s) photos sorted
                   ↔ photo ∈ sorted ∨ photo ∈ photos)
             ∧ List.length (fold_left (fun s p => insert_by_score p s) photos sorted)
               = (List.length sorted + List.length photos)%nat).
  { induction photos as [|p rest IH]; intros sorted Hsorted; cbn [fold_left].
    - split; [exact Hsorted|]. split; [|cbn; lia].
      intros photo. rewrite elem_of_nil. tauto.
    - destruct (IH (insert_by_score p sorted)
                   (insert_by_score_descending p sorted Hsorted))
        as (Hdesc & Helem & Hlen).
      split; [exact Hdesc|]. split.
      + intros photo. rewrite Helem, insert_by_score_elem, elem_of_cons. tauto.
      + rewrite Hlen, insert_by_score_length. cbn [List.length]. lia. }
  destruct (Hgen [] I) as (Hdesc & Helem & Hlen).
  split; [exact Hdesc|]. split; [|exact Hlen].
  intros photo. rewrite Helem, elem_of_nil. tauto.
Qed.

Lemma take_descending (n : nat) (photos : list DiscoveredPhoto) :
  descending photos → descending (take n photos).
Proof.
  revert n. induction photos as [|first rest IH]; intros [|n]; cbn; auto.
  intros [Hfirst Hrest]. split; [|by apply IH].
  apply Forall_forall. intros later Hlater.
  rewrite Forall_forall in Hfirst. apply Hfirst.
  apply elem_of_take in Hlater as (i & Hi & _). by eapply list_elem_of_lookup_2.
Qed.

Section Network.

Variable UNSPLASH_ACCESS_KEY : string.
Variable fetch_search : nat → string → nat → option (list ApiPhoto).
Variable head_ok : nat → string → bool.

Lemma searchUnsplash_urls (query : string) (perPage n : nat) :
  Forall (fun photo => url photo = cover_url (id photo))
         (fst (searchUnsplash UNSPLASH_ACCESS_KEY fetch_search query perPage n))
  ∧ (n <= snd (searchUnsplash UNSPLASH_ACCESS_KEY fetch_search query perPage n))%nat.
Proof.
  unfold searchUnsplash.
  destruct (negb (BlogRegistry.truthy UNSPLASH_ACCESS_KEY)).
  - cbn. split; [apply Forall_nil_2|lia].
  - unfold bind, request, ret.
    destruct (fetch_search n query perPage) as [results|]; cbn [fst snd].
    + split; [|lia]. apply Forall_forall. intros photo Hin.
      apply elem_of_lookup_imap in Hin as (i & api & -> & _). reflexivity.
    + split; [apply Forall_nil_2|lia].
Qed.

Lemma take_valid_admissible (usedPhotos : gset string) (maxResults : nat)
      (photos results : list DiscoveredPhoto) (n : nat) :
  Forall (fun photo => url photo = cover_url (id photo)) photos →
  Forall (admissible usedPhotos) results →
  Forall (admissible usedPhotos)
         (fst (take_valid head_ok usedPhotos maxResults photos results n))
  ∧ (n <= snd (take_valid head_ok usedPhotos maxResults photos results n))%nat.
Proof.
  revert results n. induction photos as [|photo rest IH]; intros results n Hurls Hres;
    cbn [take_valid].
  - cbn. split; [exact Hres|lia].
  - apply Forall_cons in Hurls as [Hurl Hurls].
    destruct (bool_decide (id photo ∈ usedPhotos)) eqn:Hused; [by apply IH|].
    apply bool_decide_eq_false in Hused.
    unfold bind, validatePhotoUrl, request. cbv beta iota.
    destruct (head_ok n (url photo)); cbn [negb].
    + destruct (maxResults <=? List.length (results ++ [photo]))%nat.
      * cbn. split; [|lia]. apply Forall_app. split; [exact Hres|].
        apply Forall_singleton. by split.
      * destruct (IH (results ++ [photo])%list (S n) Hurls) as [Hok Hn]; [|split; [exact Hok|lia]].
        apply Forall_app. split; [exact Hres|]. apply Forall_singleton. by split.
    + destruct (IH results (S n) Hurls Hres) as [Hok Hn]. split; [exact Hok|lia].
Qed.

Lemma try_keywords_admissible (usedPhotos : gset string) (maxResults : nat)
      (keywords : list string) (results : list DiscoveredPhoto) (n : nat) :
  Forall (admissible usedPhotos) results →
  Forall (admissible usedPhotos)
         (fst (try_keywords UNSPLASH_ACCESS_KEY fetch_search head_ok
                            usedPhotos maxResults keywords results n))
  ∧ (n <= snd (try_keywords UNSPLASH_ACCESS_KEY fetch_search head_ok
                            usedPhotos maxResults keywords results n))%nat.
Proof.
  revert results n. induction keywords as [|keyword rest IH]; intros results n Hres;
    cbn [try_keywords].
  - cbn. split; [exact Hres|lia].
  - unfold bind.
    destruct (searchUnsplash_urls keyword 5 n) as [Hurls Hn1].
    destruct (searchUnsplash UNSPLASH_ACCESS_KEY fetch_search keyword 5 n)
      as [photos n1]; cbn [fst snd] in *.
    destruct (take_valid_admissible usedPhotos maxResults photos results n1 Hurls Hres)
      as [Hok Hn2].
    destruct (take_valid head_ok usedPhotos maxResults photos results n1)
      as [found n2]; cbn [fst snd] in *.
    destruct (maxResults <=? List.length found)%nat.
    + cbn. split; [exact Hok|lia].
    + destruct (IH found n2 Hok) as [Hfinal Hn3]. split; [exact Hfinal|lia].
Qed.

(** What [discoverNeighborhoodPhotos] collects before it sorts, when the
    keywords are generated; it throws before any request when they are not. *)
Lemma discover_collects (context : NeighborhoodContext) (usedPhotos : gset string)
      (maxResults n : nat) :
  match generateSearchKeywords context with
  | Throw e =>
      discoverNeighborhoodPhotos UNSPLASH_ACCESS_KEY fetch_search head_ok
                                 context usedPhotos maxResults n
      = (Throw e, n)
  | Ok _ =>
      ∃ collected after,
        discoverNeighborhoodPhotos UNSPLASH_ACCESS_KEY fetch_search head_ok
                                   context usedPhotos maxResults n
        = (Ok (Js.slice 0 maxResults (sort_by_score collected)), after)
        ∧ Forall (admissible usedPhotos) collected
        ∧ (n <= after)%nat
        ∧ (BlogRegistry.truthy UNSPLASH_ACCESS_KEY = false →
           after = n
           ∧ collected
             = if (0 <? maxResults)%nat
               then match getCuratedFallback context usedPhotos with
                    | Some fallback => [fallback]
                    | None => []
                    end
               else [])
  end.
Proof.
  unfold discoverNeighborhoodPhotos, Eff.bind, Eff.of_result, Eff.lift, Eff.ret.
  destruct (generateSearchKeywords context) as [keywords|e]; [|reflexivity].
  assert (Hfallback : ∀ results,
             Forall (admissible usedPhotos) results →
             Forall (admissible usedPhotos)
                    (if (List.length results <? maxResults)%nat
                     then match getCuratedFallback context usedPhotos with
                          | Some fallback => (results ++ [fallback])%list
                          | None => results
                          end
                     else results)).
  { intros results Hres. destruct (List.length results <? maxResults)%nat; [|exact Hres].
    destruct (getCuratedFallback context usedPhotos) as [fallback|] eqn:Hcurated;
      [|exact Hres].
    apply Forall_app. split; [exact Hres|]. apply Forall_singleton.
    destruct (getCuratedFallback_shape context usedPhotos fallback Hcurated)
      as [Hfree Hurl]. by split. }
  destruct (BlogRegistry.truthy UNSPLASH_ACCESS_KEY) eqn:Hkey.
  - destruct (try_keywords_admissible
                usedPhotos maxResults (Js.slice 0 5 keywords)
                [] n (Forall_nil_2 _)) as [Hok Hn].
    destruct (try_keywords UNSPLASH_ACCESS_KEY fetch_search head_ok usedPhotos
                           maxResults (Js.slice 0 5 keywords)
                           [] n) as [results after]; cbn [fst snd] in *.
    eexists _, after. split; [reflexivity|]. split; [by apply Hfallback|].
    split; [exact Hn|]. discriminate.
  - unfold ret. eexists _, n. split; [reflexivity|].
    split; [apply Hfallback, Forall_nil_2|]. split; [lia|]. intros _.
    split; [reflexivity|]. cbn [List.length].
    destruct (0 <? maxResults)%nat; [|reflexivity].
    by destruct (getCuratedFallback context usedPhotos).
Qed.

(** X21. [discoverNeighborhoodPhotos] generates its keywords first: for a
    context of which a field is read as an inherited member it throws that
    [TypeError] before any request. For every other context it returns at
    most [maxResults] photos, best score first, none of which has an id in
    [usedPhotos], each with the cover URL of its id; without an access key
    it makes no request, and its result is the curated fallback alone, or
    nothing when no fallback is left or [maxResults] is 0. *)
Theorem discoverNeighborhoodPhotos_result
        (context : NeighborhoodContext) (usedPhotos : gset string)
        (maxResults n : nat) :
  match discoverNeighborhoodPhotos UNSPLASH_ACCESS_KEY fetch_search head_ok
                                   context usedPhotos maxResults n with
  | (Throw e, after) =>
      reads_inherited context ∧ Eff.name e = "TypeError" ∧ after = n
  | (Ok photos, after) =>
      ¬ reads_inherited context
      ∧ (List.length photos <= maxResults)%nat
      ∧ descending photos
      ∧ (∀ photo, photo ∈ photos →
                  (id photo ∉ usedPhotos) ∧ url photo = cover_url (id photo))
      ∧ (n <= after)%nat
      ∧ (BlogRegistry.truthy UNSPLASH_ACCESS_KEY = false →
         after = n
         ∧ photos = if (0 <? maxResults)%nat
                    then match getCuratedFallback context usedPhotos with
                         | Some fallback => [fallback]
                         | None => []
                         end
                    else [])
  end.
Proof.
  pose proof (discover_collects context usedPhotos maxResults n) as Hrun.
  pose proof (generateSearchKeywords_cases context) as Hkeywords.
  destruct (generateSearchKeywords context) as [keywords|e].
  - destruct Hrun as (collected & after & -> & Hok & Hn & Hnokey).
    unfold Js.slice. cbn [drop]. rewrite Nat.sub_0_r.
    destruct (sort_by_score_spec collected) as (Hdesc & Helem & _).
    split; [exact Hkeywords|].
    split; [rewrite length_take; lia|].
    split; [by apply take_descending|].
    split; [|split; [exact Hn|]].
    + intros photo Hin. apply elem_of_take in Hin as (i & Hin & _).
      apply list_elem_of_lookup_2, Helem in Hin.
      by eapply Forall_forall in Hok.
    + intros Hkey. destruct (Hnokey Hkey) as [-> ->]. split; [reflexivity|].
      destruct maxResults as [|m]; [reflexivity|].
      change (0 <? S m)%nat with true. cbv iota.
      destruct (getCuratedFallback context usedPhotos); cbn; by rewrite ?take_nil.
  - rewrite Hrun. destruct Hkeywords as [Hinh Hname]. by repeat split.
Qed.

(** X22. [getNeighborhoodPhoto] never returns a blocked photo. For a context
    of which a field is read as an inherited member it returns nothing: it
    throws that [TypeError] before any request. For every other context
    the URL it returns is either the cover URL of a discovered photo, whose
    id is neither blocked nor in the used list of the registry, or, when
    nothing was discovered, the URL that [getUniqueCoverPhoto] builds for a
    photo of the library that is not blocked. *)
Theorem getNeighborhoodPhoto_never_blocked
        (context : NeighborhoodContext) (random : Q)
        (this : BlogRegistry.BlogRegistry) (n : nat) :
  match getNeighborhoodPhoto UNSPLASH_ACCESS_KEY fetch_search head_ok
                             context random this n with
  | (Throw e, after) =>
      reads_inherited context ∧ Eff.name e = "TypeError" ∧ after = n
  | (Ok photoUrl, after) =>
      ¬ reads_inherited context
      ∧ ∃ photoId,
          (photoId ∉ BlogRegistry.BLOCKED_PHOTO_IDS)
          ∧ ((photoUrl = cover_url photoId
              ∧ (photoId ∉ BlogRegistry.usedCoverPhotos (BlogRegistry.data this)))
             ∨ photoUrl = BlogRegistry.photo_url photoId)
  end.
Proof.
  unfold getNeighborhoodPhoto, getBestNeighborhoodPhoto.
  set (usedPhotos := eval RegistryOps.getUsedPhotoIds this).
  pose proof (discover_collects context usedPhotos 3 n) as Hrun.
  pose proof (generateSearchKeywords_cases context) as Hkeywords.
  unfold Eff.bind at 1 2.
  destruct (generateSearchKeywords context) as [keywords|e].
  - destruct Hrun as (collected & after & -> & Hok & _ & _).
    unfold Eff.ret at 1. cbv beta iota.
    destruct (sort_by_score_spec collected) as (_ & Helem & _).
    destruct (head (Js.slice 0 3 (sort_by_score collected))) as [found|] eqn:Hhead.
    + unfold Eff.ret. split; [exact Hkeywords|].
      assert (Hin : found ∈ collected).
      { apply Helem. apply head_Some_elem_of in Hhead. unfold Js.slice in Hhead.
        apply elem_of_take in Hhead as (i & Hi & _).
        by eapply list_elem_of_lookup_2. }
      rewrite Forall_forall in Hok. destruct (Hok found Hin) as [Hfree Hurl].
      exists (id found).
      assert (Hout : id found ∉ (BlogRegistry.usedCoverPhotos (BlogRegistry.data this)
                                 ++ BlogRegistry.BLOCKED_PHOTO_IDS)%list).
      { intros Hused. apply Hfree. subst usedPhotos.
        unfold eval, RegistryOps.getUsedPhotoIds, bind, get, ret. cbn [fst].
        by apply elem_of_list_to_set. }
      rewrite elem_of_app in Hout. split; [tauto|]. left. split; [exact Hurl|tauto].
    + destruct (CoverPhotoFacts.getUniqueCoverPhoto_returns
                  (Some (BlogRegistry.getCategoryForLocation
                           (city context ++ ", " ++ state context)))
                  random this) as (photoId & Hurl & Hfree).
      { apply CategoryFacts.getCategoryForLocation_own. }
      unfold Eff.of_result. rewrite Hurl.
      split; [exact Hkeywords|]. exists photoId. split; [exact Hfree|]. by right.
  - rewrite Hrun. destruct Hkeywords as [Hinh Hname]. by repeat split.
Qed.

End Network.

End PhotoDiscoveryFacts.

(** ** Reading JSON out of a response *)

Module ExtractJSONFacts.
Import Eff OllamaClient.

Lemma occurs_trans (a b c : string) :
  Js.includes b a = true → Js.includes c b = true → Js.includes c a = true.
Proof.
  rewrite !StringFacts.includes_occurs.
  intros (p1 & q1 & ->) (p2 & q2 & ->).
  exists (p2 ++ p1), (q1 ++ q2).
  by rewrite !StringFacts.append_assoc.
Qed.

Lemma substring_prefix (n : nat) (s : string) :
  ∃ after, s = String.substring 0 n s ++ after.
Proof.
  revert n. induction s as [|c s IH]; intros [|n]; cbn [String.substring].
  - by exists "".
  - by exists "".
  - by exists (String c s).
  - destruct (IH n) as [after Hs]. exists after.
    by rewrite StringFacts.append_cons, <- Hs.
Qed.

Lemma substring_occurs (i n : nat) (s : string) :
  Js.includes s (String.substring i n s) = true.
Proof.
  apply StringFacts.includes_occurs. revert i.
  induction s as [|c s IH]; intros i.
  - exists "", "". by destruct i, n.
  - destruct i as [|i].
    + destruct (substring_prefix n (String c s)) as [after Hs].
      exists "", after. by rewrite StringFacts.append_nil_l.
    + destruct (IH i) as (before & after & Hs).
      exists (String c before), after. cbn [String.substring].
      by rewrite StringFacts.append_cons, <- Hs.
Qed.

Lemma trim_start_occurs (s : string) : Js.includes s (Js.trim_start s) = true.
Proof.
  apply StringFacts.includes_occurs.
  induction s as [|c s (before & after & Hs)]; cbn [Js.trim_start].
  - by exists "", "".
  - destruct (Js.is_space c).
    + exists (String c before), after. by rewrite StringFacts.append_cons, <- Hs.
    + exists "", "".
      by rewrite StringFacts.append_nil_l, StringFacts.append_nil_r.
Qed.

Lemma trim_end_prefix (s : string) : ∃ after, s = Js.trim_end s ++ after.
Proof.
  induction s as [|c s [after Hs]]; cbn [Js.trim_end]; [by exists ""|].
  destruct (Js.trim_end s) as [|d rest] eqn:Htrim.
  - destruct (Js.is_space c); [by exists (String c s)|].
    exists s. by rewrite StringFacts.append_cons, StringFacts.append_nil_l.
  - exists after. by rewrite StringFacts.append_cons, <- Hs.
Qed.

Lemma trim_occurs (s : string) : Js.includes s (Js.trim s) = true.
Proof.
  unfold Js.trim. eapply occurs_trans; [|apply trim_start_occurs].
  apply StringFacts.includes_occurs.
  destruct (trim_end_prefix (Js.trim_start s)) as [after Hs].
  exists "", after. by rewrite StringFacts.append_nil_l.
Qed.

(** What a pattern hands to the parser is a part of the text. *)
Lemma pattern_occurs (pattern : string → option (string * option string))
      (text : string) (m : string * option string) :
  pattern ∈ jsonPatterns → pattern text = Some m →
  Js.includes text (Js.trim (group_or_whole m)) = true.
Proof.
  intros Hin Hm. eapply occurs_trans; [apply trim_occurs|].
  unfold jsonPatterns in Hin.
  assert (Hfenced : ∀ opener, match_fenced opener text = Some m →
                              Js.includes text (group_or_whole m) = true).
  { intros opener. unfold match_fenced.
    destruct (String.index 0 opener text) as [i|]; [|discriminate].
    destruct (String.index _ "```" text) as [j|]; [|discriminate].
    intros [= <-]. unfold group_or_whole. cbn [fst snd].
    destruct (String.eqb _ ""); [apply substring_occurs|].
    eapply occurs_trans; [apply trim_start_occurs|apply substring_occurs]. }
  apply elem_of_cons in Hin as [-> | Hin]; [by eapply Hfenced|].
  apply elem_of_cons in Hin as [-> | Hin]; [by eapply Hfenced|].
  apply list_elem_of_singleton in Hin as ->.
  unfold match_braces in Hm.
  destruct (String.index 0 "{" text) as [i|]; [|discriminate].
  destruct (last_index_of "}" text) as [j|]; [|discriminate].
  destruct (i <? j)%nat; [|discriminate].
  injection Hm as <-. apply substring_occurs.
Qed.

Lemma index_occurs (needle text : string) (i : nat) :
  String.index 0 needle text = Some i → Js.includes text needle = true.
Proof.
  revert i. induction text as [|c text IH]; intros i; cbn [String.index Js.includes].
  - destruct needle; [reflexivity|discriminate].
  - destruct (String.prefix needle (String c text)); [reflexivity|].
    destruct (String.index 0 needle text) as [k|]; [|discriminate].
    intros _. cbn [orb]. by eapply IH.
Qed.

Section ExtractJSON.

Context {J : Type}.
Variable JSON_parse : string → option J.

Lemma try_patterns_from_text
      (patterns : list (string → option (string * option string)))
      (text : string) (v : J) :
  (∀ pattern, pattern ∈ patterns → pattern ∈ jsonPatterns) →
  try_patterns JSON_parse patterns text = Some v →
  ∃ candidate, Js.includes text candidate = true ∧ JSON_parse candidate = Some v.
Proof.
  induction patterns as [|pattern rest IH]; intros Hsub; cbn [try_patterns];
    [discriminate|].
  assert (Hrest : ∀ p, p ∈ rest → p ∈ jsonPatterns).
  { intros p Hp. apply Hsub. apply elem_of_cons. by right. }
  destruct (pattern text) as [m|] eqn:Hm; [|by apply IH].
  destruct (JSON_parse (Js.trim (group_or_whole m))) as [w|] eqn:Hparse;
    [|by apply IH].
  intros [= <-]. exists (Js.trim (group_or_whole m)). split; [|exact Hparse].
  eapply pattern_occurs; [|exact Hm]. apply Hsub. apply elem_of_cons. by left.
Qed.

(** X23. [extractJSON] never invents a value: what it returns is what
    [JSON.parse] reads from a part of the response. It throws one error
    only, "Could not extract valid JSON from response", and only when the
    trimmed response itself does not parse. A response without a code fence
    and without an opening brace is parsed as a whole. *)
Theorem extractJSON_reads_the_response (text : string) :
  match extractJSON JSON_parse text with
  | Ok v =>
      ∃ candidate, Js.includes text candidate = true ∧ JSON_parse candidate = Some v
  | Throw e =>
      e = Error "Could not extract valid JSON from response"
      ∧ JSON_parse (Js.trim text) = None
  end
  ∧ (Js.includes text "```" = false → Js.includes text "{" = false →
     extractJSON JSON_parse text
     = match JSON_parse (Js.trim text) with
       | Some v => Ok v
       | None => Throw (Error "Could not extract valid JSON from response")
       end).
Proof.
  split.
  - unfold extractJSON.
    destruct (try_patterns JSON_parse jsonPatterns text) as [v|] eqn:Htry.
    + by eapply try_patterns_from_text.
    + destruct (JSON_parse (Js.trim text)) as [v|] eqn:Hparse; [|by split].
      exists (Js.trim text). split; [apply trim_occurs|exact Hparse].
  - intros Hfence Hbrace. unfold extractJSON.
    assert (Hnone : try_patterns JSON_parse jsonPatterns text = None).
    { unfold jsonPatterns. cbn [try_patterns]. unfold match_fenced, match_braces.
      destruct (String.index 0 "```json" text) as [i|] eqn:Hjson.
      { apply index_occurs in Hjson.
        assert (Js.includes text "```" = true); [|congruence].
        eapply occurs_trans; [|exact Hjson]. reflexivity. }
      destruct (String.index 0 "```" text) as [i|] eqn:Hplain.
      { apply index_occurs in Hplain. congruence. }
      destruct (String.index 0 "{" text) as [i|] eqn:Hopen; [|reflexivity].
      apply index_occurs in Hopen. congruence. }
    by rewrite Hnone.
Qed.

End ExtractJSON.

(** The two arrays that the brief asks for, one bare and one in a fence,
    with a parser that knows these two texts only. *)
Example extractJSON_bare_and_fenced :
  let parse text :=
    if String.eqb text "[1, 2]" then Some [1; 2]%nat else None in
  extractJSON parse " [1, 2] " = Ok [1; 2]%nat
  ∧ extractJSON parse ("Here you go: ```json" ++ String "010" "[1, 2]"
                       ++ String "010" "``` Enjoy.") = Ok [1; 2]%nat
  ∧ extractJSON parse "no json here"
    = Throw (Error "Could not extract valid JSON from response").
Proof. vm_compute. repeat split. Qed.

End ExtractJSONFacts.

(** ** The batch run *)

Module BatchGenerateFacts.
Import Types Eff BatchGenerate.








Section Generator.

Variable G : Type.
Variable generate :
  string → string → SearchIntent → string → Eff G RemoteContent.GeneratedContent.



End Generator.

End BatchGenerateFacts.


(** ** Data points: registered under a normal form *)

Module DataPointFacts.
Import Js UniquenessEngine DataPoints.

Lemma keep_chars_of_kept (p : ascii → bool) (s : string) :
  Forall (fun c => p c = true) (list_ascii_of_string s) → keep_chars p s = s.
Proof.
  induction s as [|c r IH]; [reflexivity|]. cbn [list_ascii_of_string keep_chars].
  intros Hall. apply Forall_cons in Hall as [-> Hrest]. by rewrite IH.
Qed.

Lemma substring0_all (P : ascii → Prop) (n : nat) (s : string) :
  Forall P (list_ascii_of_string s) →
  Forall P (list_ascii_of_string (substring0 n s)).
Proof.
  unfold substring0. revert s.
  induction n as [|n IH]; intros [|c r] Hall; cbn; try constructor.
  - by apply Forall_cons in Hall as [? _].
  - apply IH. by apply Forall_cons in Hall as [_ ?].
Qed.

Lemma substring0_at_most (n : nat) (s : string) :
  (String.length (substring0 n s) <= n)%nat.
Proof.
  unfold substring0. revert s. induction n as [|n IH]; intros [|c r]; cbn; try lia.
  specialize (IH r). lia.
Qed.

Lemma substring0_short (n : nat) (s : string) :
  (String.length s <= n)%nat → substring0 n s = s.
Proof.
  unfold substring0. revert s. induction n as [|n IH]; intros [|c r]; cbn;
    try reflexivity; try lia.
  intros Hlen. rewrite IH; [reflexivity | lia].
Qed.

Lemma lower_char_kept (c : ascii) : kept c = true → lower_char c = c.
Proof.
  unfold kept, lower_char, is_lower, is_digit, is_upper, between. intros Hkept.
  destruct ((65 <=? code c)%nat && (code c <=? 90)%nat) eqn:Hupper; [|reflexivity].
  exfalso. apply andb_true_iff in Hupper as [Hlo Hhi].
  apply Nat.leb_le in Hlo, Hhi.
  apply orb_true_iff in Hkept as [Hk | Hk]; apply andb_true_iff in Hk as [H1 H2];
    apply Nat.leb_le in H1, H2; lia.
Qed.

Lemma toLowerCase_fixed (s : string) :
  Forall (fun c => kept c = true) (list_ascii_of_string s) → toLowerCase s = s.
Proof.
  induction s as [|c r IH]; [reflexivity|].
  cbn [list_ascii_of_string]. intros Hall.
  apply Forall_cons in Hall as [Hc Hrest].
  rewrite JsFacts.toLowerCase_char.
  - by rewrite (lower_char_kept c Hc), IH.
  - unfold dotted_capital_I. cbn [starts_with].
    destruct (Ascii.eqb_spec "196" c) as [<- | _]; [discriminate Hc | reflexivity].
  - unfold kelvin_sign. cbn [starts_with].
    destruct (Ascii.eqb_spec "226" c) as [<- | _]; [discriminate Hc | reflexivity].
Qed.

Lemma normalizeDataPoint_kept (fact : string) :
  Forall (fun c => kept c = true) (list_ascii_of_string (normalizeDataPoint fact)).
Proof. apply substring0_all, (JsFacts.keep_chars_all kept). Qed.

(** X27. Data points are registered and compared under a normal form: lower
    case, letters and digits only, at most 100 characters, and a form that
    is its own normal form. After [registerDataPoint(fact)], a fact is
    unique exactly when it was unique before and its normal form differs
    from the one of [fact]; the posts and the angles are not touched. *)
Theorem registerDataPoint_marks_the_normal_form (fact other : string) (this : t) :
  isDataPointUnique other (registerDataPoint fact this)
  = isDataPointUnique other this
    && negb (String.eqb (normalizeDataPoint other) (normalizeDataPoint fact))
  ∧ isDataPointUnique fact (registerDataPoint fact this) = false
  ∧ (String.length (normalizeDataPoint fact) <= 100)%nat
  ∧ normalizeDataPoint (normalizeDataPoint fact) = normalizeDataPoint fact
  ∧ existingContent (registerDataPoint fact this) = existingContent this
  ∧ usedAngles (registerDataPoint fact this) = usedAngles this.
Proof.
  assert (Hother : ∀ other,
             isDataPointUnique other (registerDataPoint fact this)
             = isDataPointUnique other this
               && negb (String.eqb (normalizeDataPoint other) (normalizeDataPoint fact))).
  { intros o. unfold isDataPointUnique, registerDataPoint. cbn [usedDataPoints].
    destruct (String.eqb_spec (normalizeDataPoint o) (normalizeDataPoint fact))
      as [Heq | Hne]; cbn [negb].
    - rewrite andb_false_r, bool_decide_eq_true_2; [reflexivity|].
      apply elem_of_union_r, elem_of_singleton, Heq.
    - rewrite andb_true_r. f_equal. apply bool_decide_ext.
      rewrite elem_of_union, elem_of_singleton. tauto. }
  split; [apply Hother|]. split.
  { rewrite Hother, String.eqb_refl. apply andb_false_r. }
  split; [apply substring0_at_most|]. split; [|by split].
  pose proof (normalizeDataPoint_kept fact) as Hkept.
  unfold normalizeDataPoint at 1. unfold strip_outside.
  fold kept. rewrite (toLowerCase_fixed _ Hkept), (keep_chars_of_kept kept _ Hkept).
  apply substring0_short, substring0_at_most.
Qed.

(** A fact that differs from a registered one in case and punctuation
    only is no longer unique; one that differs in a digit is. *)
Example restated_fact_is_not_unique :
  let this := registerDataPoint "Rents rose 5% in 2024." empty in
  isDataPointUnique "rents rose 5 in 2024" this = false
  ∧ isDataPointUnique "RENTS ROSE: 5% (in 2024)" this = false
  ∧ isDataPointUnique "Rents rose 6% in 2024." this = true.
Proof. vm_compute. repeat split; reflexivity. Qed.

End DataPointFacts.
